(** * Record linkage of the Schwab attendee list against the contact export

    A shallow embedding of [scripts/match_discovery.py] and
    [scripts/match_raw_data.py]: the company-name normalizer, the column
    resolver, candidate blocking, and the three matchers
    ([match_contacts_by_crd_and_email], [match_unmatched_by_email_then_fuzzy],
    [match_by_name_and_company]), followed by the properties the
    specification states about them.

    Conventions.
    - A Python [str] is a [string]; its characters are the code points
      0..255 (Latin-1), classified as CPython classifies them.
    - A table cell is a [cell]; a row (a pandas [Series], [to_dict()]) is a
      [gmap string cell]; a [DataFrame] is its column list and its rows in
      order, indexed by position (the default [RangeIndex] that
      [pd.read_excel] gives).
    - [fuzz.token_set_ratio] belongs to a third-party package; it is a
      parameter of every definition that scores. [match_discovery.py] takes
      it from fuzzywuzzy, whose scores are integers. [match_raw_data.py]
      tries rapidfuzz first, whose scores are floats, and fuzzywuzzy
      otherwise: there a score is a rational number ([Qc]), which covers
      both, and [int(score)] is its integer part. *)

From Stdlib Require Import ZArith NArith Ascii String List Bool Lia QArith Qcanon.
From stdpp Require Import gmap strings list fin_maps pretty.

Local Open Scope Z_scope.

(* ===================================================================== *)
(** * Characters and strings, as CPython treats them                      *)
(* ===================================================================== *)

Module PyStr.

(** Code point of a character. *)
Definition code (c : ascii) : N := N_of_ascii c.

(** [str.isspace] on one character, which is also [\s] of [re] and what
    [str.strip()] removes: TAB..CR, FS..US, SPACE, NEL, NBSP. *)
Definition isspace (c : ascii) : bool :=
  let n := code c in
  ((9 <=? n) && (n <=? 13) || (28 <=? n) && (n <=? 32)
   || (n =? 133) || (n =? 160))%N.

(** [\w] of [re] on a [str] pattern: alphanumeric (alphabetic, decimal, digit
    or numeric) or the underscore. *)
Definition isword (c : ascii) : bool :=
  let n := code c in
  ((48 <=? n) && (n <=? 57) || (65 <=? n) && (n <=? 90) || (n =? 95)
   || (97 <=? n) && (n <=? 122)
   || (n =? 170) || (n =? 178) || (n =? 179) || (n =? 181)
   || (n =? 185) || (n =? 186) || (188 <=? n) && (n <=? 190)
   || (192 <=? n) && (n <=? 214) || (216 <=? n) && (n <=? 246)
   || (248 <=? n))%N.

(** [str.lower] on one character. *)
Definition lower_char (c : ascii) : ascii :=
  let n := code c in
  if ((65 <=? n) && (n <=? 90)
      || (192 <=? n) && (n <=? 222) && negb (n =? 215))%N
  then ascii_of_N (n + 32) else c.

Global Arguments isspace : simpl never.
Global Arguments isword : simpl never.
Global Arguments lower_char : simpl never.

Fixpoint map (f : ascii → ascii) (s : string) : string :=
  match s with
  | EmptyString => EmptyString
  | String c s' => String (f c) (map f s')
  end.

Fixpoint forallb (p : ascii → bool) (s : string) : bool :=
  match s with
  | EmptyString => true
  | String c s' => p c && forallb p s'
  end.

Fixpoint filter (p : ascii → bool) (s : string) : string :=
  match s with
  | EmptyString => EmptyString
  | String c s' => if p c then String c (filter p s') else filter p s'
  end.

Definition head (s : string) : option ascii :=
  match s with EmptyString => None | String c _ => Some c end.

Fixpoint last (s : string) : option ascii :=
  match s with
  | EmptyString => None
  | String c EmptyString => Some c
  | String _ s' => last s'
  end.

(** [s.lower()]. *)
Definition lower (s : string) : string := map lower_char s.

(** [s.lstrip()], [s.rstrip()], [s.strip()]. *)
Fixpoint lstrip (s : string) : string :=
  match s with
  | EmptyString => EmptyString
  | String c s' => if isspace c then lstrip s' else s
  end.

Fixpoint rstrip (s : string) : string :=
  match s with
  | EmptyString => EmptyString
  | String c s' =>
      match rstrip s' with
      | EmptyString => if isspace c then EmptyString else String c EmptyString
      | r => String c r
      end
  end.

Definition strip (s : string) : string := rstrip (lstrip s).

(** [t] is a prefix of [s]: the rest of [s] after it. *)
Fixpoint strip_prefix (t s : string) : option string :=
  match t, s with
  | EmptyString, _ => Some s
  | String a t', String b s' => if Ascii.eqb a b then strip_prefix t' s' else None
  | String _ _, EmptyString => None
  end.

(** [s.startswith(t)]. *)
Definition startswith (s t : string) : bool :=
  match strip_prefix t s with Some _ => true | None => false end.

(** [c in s] for a one-character [c]. *)
Fixpoint contains (c : ascii) (s : string) : bool :=
  match s with
  | EmptyString => false
  | String a s' => Ascii.eqb a c || contains c s'
  end.

(** [s.split(c)[-1]]: what follows the last [c], all of [s] when there is none. *)
Fixpoint after_last (c : ascii) (s : string) : string :=
  match s with
  | EmptyString => EmptyString
  | String a s' =>
      if contains c s then (if Ascii.eqb a c && negb (contains c s') then s' else after_last c s')
      else s
  end.

End PyStr.

(* ===================================================================== *)
(** * The regular expressions of the two scripts                          *)
(* ===================================================================== *)

Module Re.

(** [\b] between two neighbouring positions, [None] being outside the string. *)
Definition isword_opt (c : option ascii) : bool :=
  match c with Some c => PyStr.isword c | None => false end.

Definition word_boundary (prev next : option ascii) : bool :=
  xorb (isword_opt prev) (isword_opt next).

(** [re.sub(r"[^\w\s]", ' ', s)]. *)
Definition sub_punct (s : string) : string :=
  PyStr.map (λ c, if PyStr.isword c || PyStr.isspace c then c else " "%char) s.

(** [re.sub(r"\s+", ' ', s)]; [in_run] says that the previous character
    was white space already replaced. *)
Fixpoint sub_spaces_from (in_run : bool) (s : string) : string :=
  match s with
  | EmptyString => EmptyString
  | String c s' =>
      if PyStr.isspace c
      then (if in_run then sub_spaces_from true s'
            else String " "%char (sub_spaces_from true s'))
      else String c (sub_spaces_from false s')
  end.

Definition sub_spaces (s : string) : string := sub_spaces_from false s.

(** The alternatives of the suffix pattern of [normalize_company_name], in the
    order the pattern lists them. *)
Definition suffix_tokens : list string :=
  ["inc"; "llc"; "ltd"; "corp"; "co"; "group"; "pllc"; "pl"; "pc"; "pa";
   "pcs"; "service"; "investment"; "management"].

(** [\.?$] at the rest [r] of the string: the optional dot is taken when the
    end follows it; [$] holds at the end and before a final newline. The
    result is what the match leaves of [r]. *)
Definition newline : string := String "010"%char EmptyString.

Definition end_anchor (r : string) : option string :=
  if String.eqb r "" then Some ""
  else if String.eqb r "." then Some ""
  else if String.eqb r newline then Some newline
  else if String.eqb r ("." +:+ newline) then Some newline
  else None.

(** One alternative [t] of [\b(?:...)\b\.?$] tried at the string [s]. *)
Definition token_at (t s : string) : option string :=
  match PyStr.strip_prefix t s with
  | Some r =>
      if word_boundary (PyStr.last t) (PyStr.head r) then end_anchor r else None
  | None => None
  end.

Fixpoint first_some {A B} (f : A → option B) (l : list A) : option B :=
  match l with
  | [] => None
  | x :: l' => match f x with Some y => Some y | None => first_some f l' end
  end.

(** The whole pattern tried at one position, [prev] being the character
    before it. *)
Definition suffix_at (prev : option ascii) (s : string) : option string :=
  if word_boundary prev (PyStr.head s)
  then first_some (λ t, token_at t s) suffix_tokens
  else None.

(** [re.search] of the suffix pattern from the left: the text before the
    first match and what the match leaves after it. *)
Fixpoint search_suffix_from (prev : option ascii) (s : string)
  : option (string * string) :=
  match suffix_at prev s with
  | Some rest => Some (EmptyString, rest)
  | None =>
      match s with
      | EmptyString => None
      | String c s' =>
          match search_suffix_from (Some c) s' with
          | Some (before, rest) => Some (String c before, rest)
          | None => None
          end
      end
  end.

Definition search_suffix (s : string) : option (string * string) :=
  search_suffix_from None s.

(** [re.sub(pattern, '', s)] for the suffix pattern. A match ends at [$], so
    at most a newline is left after it and no second match can start. *)
Definition sub_suffix (s : string) : string :=
  match search_suffix s with
  | Some (before, rest) => before +:+ rest
  | None => s
  end.

End Re.

(* ===================================================================== *)
(** * Table cells                                                         *)
(* ===================================================================== *)

(** What a cell of a loaded sheet, or a value stored in an output record,
    can be: a missing value ([NaN]), [None], text, an integer, a boolean. *)
Inductive cell :=
  | NaN
  | PyNone
  | Str (s : string)
  | Num (z : Z)
  | Bool (b : bool).

Global Instance cell_eq_dec : EqDecision cell.
Proof. solve_decision. Defined.

(** [str(v)]. *)
Definition py_str (v : cell) : string :=
  match v with
  | NaN => "nan"
  | PyNone => "None"
  | Str s => s
  | Num z => pretty z
  | Bool true => "True"
  | Bool false => "False"
  end.

(** Truth value of [v] ([if not name]). [NaN] is a non-zero float. *)
Definition py_truthy (v : cell) : bool :=
  match v with
  | NaN => true
  | PyNone => false
  | Str s => negb (String.eqb s "")
  | Num z => negb (z =? 0)
  | Bool b => b
  end.

(** [pd.isna(v)] / [pd.notna(v)]. *)
Definition isna (v : cell) : bool :=
  match v with NaN | PyNone => true | _ => false end.

Definition notna (v : cell) : bool := negb (isna v).

(** [series.fillna(d)] on one cell. *)
Definition fillna (d : cell) (v : cell) : cell := if isna v then d else v.

(** [int(x)] on a number: its integer part, rounded towards zero. *)
Definition py_int (x : Qc) : Z := Z.quot (Qnum x) (Z.pos (Qden x)).

(* ===================================================================== *)
(** * Field normalizer ([match_discovery.py])                             *)
(* ===================================================================== *)

(** The first two statements after the guard: [str(name).strip().lower()]
    and the replacement of punctuation. *)
Definition normalize_pre (name : string) : string :=
  Re.sub_punct (PyStr.lower (PyStr.strip name)).

(** The last statement, and the [.strip()] that ends the one before it. *)
Definition normalize_post (s : string) : string :=
  PyStr.strip (Re.sub_spaces (PyStr.strip s)).

(** [normalize_company_name] on the text of its argument. *)
Definition normalize_str (name : string) : string :=
  normalize_post (Re.sub_suffix (normalize_pre name)).

Definition normalize_company_name (name : cell) : string :=
  if negb (py_truthy name) then "" else normalize_str (py_str name).

(* ===================================================================== *)
(** * Tables, exceptions, log records                                     *)
(* ===================================================================== *)

(** A row as [row.to_dict()] gives it. *)
Abbreviation row := (gmap string cell).

Record DataFrame := {
  columns : list string;   (* df.columns *)
  rows : list row          (* the rows, in index order *)
}.

(** [col in df.columns]. *)
Definition has_col (df : DataFrame) (col : string) : bool :=
  bool_decide (col ∈ columns df).

(** [row.get(col, d)]. *)
Definition row_get (r : row) (col : string) (d : cell) : cell :=
  default d (r !! col).

(** [df[col] = v] for a scalar [v]. *)
Definition set_column_const (col : string) (v : cell) (df : DataFrame) : DataFrame :=
  {| columns := if has_col df col then columns df else columns df ++ [col];
     rows := (λ r, <[col := v]> r) <$> rows df |}.

Inductive exn :=
  | KeyError (key : string)
  | TypeError
  | IndexError.

Inductive result (A : Type) :=
  | Ok (a : A)
  | Raise (e : exn).
Arguments Ok {A} a.
Arguments Raise {A} e.

Definition bind {A B} (m : result A) (k : A → result B) : result B :=
  match m with
  | Ok a => k a
  | Raise e => Raise e
  end.

Notation "'let*' p ':=' m 'in' k" := (bind m (λ p, k))
  (at level 10, p pattern, m at level 100, k at level 200, only parsing).

(** What the scripts hand to [logger]. *)
Inductive log_record :=
  | WarnNoCrdColumn (available : list string)
  | InfoCrdCompleted (matched total : nat)
  | InfoFuzzyCompleted (total : nat).

(** [{f'{p}{k}': v for k, v in d.items()}]. *)
Global Instance append_inj (p : string) : Inj (=) (=) (String.append p).
Proof.
  intros a b. induction p as [|c p IH]; simpl; [done|].
  intros H. injection H as H. by apply IH.
Qed.

Definition prefixed (p : string) (d : row) : row := kmap (String.append p) d.

(** [not str(k).startswith('_')]. *)
Definition public_name (k : string) : bool := negb (PyStr.startswith k "_").

(** [pd.DataFrame(records)] for a list of dicts: the columns of the frame are
    the keys of all the records, and a record without one of them gets [NaN]
    under it. The type inference of pandas then makes a float column of a
    column that holds numbers or [NaN] and, besides them, missing values only:
    there [None] becomes [NaN]. Any other column keeps its cells as they
    are. *)
Definition frame_keys (records : list row) : gset string := ⋃ (dom <$> records).

Definition fill_missing (keys : gset string) (r : row) : row :=
  r ∪ gset_to_gmap NaN keys.

Definition column_cells (k : string) (rs : list row) : list cell :=
  (λ r, row_get r k NaN) <$> rs.

Definition is_float_column (cells : list cell) : bool :=
  forallb (λ v, match v with Num _ | NaN | PyNone => true | _ => false end) cells
  && existsb (λ v, match v with Num _ | NaN => true | _ => false end) cells.

Definition infer_cell (float_column : bool) (v : cell) : cell :=
  match v with
  | PyNone => if float_column then NaN else PyNone
  | _ => v
  end.

Definition frame_of_records (records : list row) : list row :=
  let rs := fill_missing (frame_keys records) <$> records in
  (λ r, map_imap (λ k v, Some (infer_cell (is_float_column (column_cells k rs)) v)) r)
    <$> rs.

(** [.fillna('').astype(str).str.strip().str.lower()] on one cell. *)
Definition email_norm_of (v : cell) : string :=
  PyStr.lower (PyStr.strip (py_str (fillna (Str "") v))).

(** Default column names of the two matchers of [match_discovery.py]; [run]
    passes none of them. *)
Definition adv_email_col : string := "Email_".
Definition adv_id_col_hint : string := "Record_ID".
Definition schwab_email_col : string := "Email_Address".
Definition schwab_email_domain_col : string := "Email_Domain".
Definition adv_first_col : string := "First_Name_".
Definition adv_last_col : string := "Last_Name_".
Definition adv_company_col : string := "Company_Name".
Definition schwab_first_col : string := "First_Name_".
Definition schwab_last_col : string := "Last_Name_".
Definition schwab_company_col : string := "Business_Name".

(* ===================================================================== *)
(** * [match_unmatched_by_email_then_fuzzy]                               *)
(* ===================================================================== *)

(** How one Schwab row was resolved, with the position of the contact row it
    consumed. The output record holds that row's fields, not its position;
    the position is kept here to speak about consumption. *)
Inductive decision :=
  | EmailMatched (adv_idx : nat)
  | FuzzyMatched (adv_idx : nat) (score : Z)
  | Unmatched.

Definition consumed (d : decision) : option nat :=
  match d with
  | EmailMatched i | FuzzyMatched i _ => Some i
  | Unmatched => None
  end.

Section EmailThenFuzzy.

Variable token_set_ratio : string → string → Z.   (* fuzz.token_set_ratio *)
Variable threshold : Z.
Variable adv : DataFrame.                          (* all_contacts *)

Definition adv_row (i : nat) : row := default ∅ (rows adv !! i).

(** [_col_series(df, col)]. *)
Definition col_series (df : DataFrame) (col : string) : list cell :=
  if has_col df col then (λ r, row_get r col NaN) <$> rows df
  else (λ _, Str "") <$> rows df.

(** [adv['_email_norm']]. *)
Definition adv_email_norm : list string :=
  email_norm_of <$> col_series adv adv_email_col.

(** [adv['_used'] = False]. *)
Definition init_used : list bool := replicate (length (rows adv)) false.

(** [sw['_email_norm'] = ...]: the rows the loop iterates over. *)
Definition with_email_norm (sw : DataFrame) : list row :=
  zip_with (λ r v, <["_email_norm" := Str (email_norm_of v)]> r)
           (rows sw) (col_series sw schwab_email_col).

(** [adv[adv['_used'] == False]], as positions. *)
Definition unused_adv (used : list bool) : list nat :=
  filter (λ i, used !! i = Some false) (seq 0 (length (rows adv))).

(** [adv[(adv['_email_norm'] == e) & (adv['_used'] == False)]], as positions. *)
Definition adv_matches (used : list bool) (e : cell) : list nat :=
  filter (λ i, (Str <$> adv_email_norm !! i) = Some e ∧ used !! i = Some false)
         (seq 0 (length (rows adv))).

(** [str(row.get(col, '')).strip().lower()]. *)
Definition field_lower (r : row) (col : string) : string :=
  PyStr.lower (PyStr.strip (py_str (row_get r col (Str "")))).

(** [f"{first} {last} {company}".strip()]. *)
Definition name_key (first last company : string) : string :=
  PyStr.strip (first +:+ " " +:+ last +:+ " " +:+ company).

Definition sw_key (sw_row : row) : string :=
  name_key (field_lower sw_row schwab_first_col)
           (field_lower sw_row schwab_last_col)
           (normalize_company_name (row_get sw_row schwab_company_col (Str ""))).

Definition adv_key (i : nat) : string :=
  name_key (field_lower (adv_row i) adv_first_col)
           (field_lower (adv_row i) adv_last_col)
           (normalize_company_name (row_get (adv_row i) adv_company_col (Str ""))).

(** [str(v).split('@')[-1].lower() if '@' in str(v) else '']. *)
Definition sw_email_domain (sw_row : row) : string :=
  let s := py_str (row_get sw_row schwab_email_col (Str "")) in
  if PyStr.contains "@" s then PyStr.lower (PyStr.after_last "@" s) else "".

(** [.fillna('').astype(str).str.split('@').str[-1].str.lower()] on one cell. *)
Definition adv_domain (i : nat) : string :=
  PyStr.lower (PyStr.after_last "@"
    (py_str (fillna (Str "") (row_get (adv_row i) adv_email_col NaN)))).

(** [.fillna('').astype(str).str[0].str.lower()] on one cell; [None] is the
    [NaN] that [.str[0]] gives on the empty string. *)
Definition first_letter (v : cell) : option ascii :=
  PyStr.lower_char <$> PyStr.head (py_str (fillna (Str "") v)).

(** The sum of the two initials; [NaN + s] and [s + NaN] are [NaN]. *)
Definition adv_initials (i : nat) : option string :=
  match first_letter (row_get (adv_row i) adv_first_col NaN),
        first_letter (row_get (adv_row i) adv_last_col NaN) with
  | Some a, Some b => Some (String a (String b EmptyString))
  | _, _ => None
  end.

(** [(sw_first[0] + sw_last[0]).lower()]. *)
Definition sw_initials (sw_first sw_last : string) : option string :=
  match PyStr.head sw_first, PyStr.head sw_last with
  | Some a, Some b => Some (PyStr.lower (String a (String b EmptyString)))
  | _, _ => None
  end.

(** The blocking of lines 225-242: the pool handed to the scoring loop.
    [unused_adv[col]] raises [KeyError] when the table has no such column. *)
Definition domain_block (unused : list nat) (dom : string) : result (list nat) :=
  if bool_decide (dom = "") then Ok unused
  else if has_col adv adv_email_col then
    let domain_match := filter (λ i, adv_domain i = dom) unused in
    Ok (if bool_decide (0 < length domain_match)%nat then domain_match else unused)
  else Raise (KeyError adv_email_col).

Definition initials_block (unused candidates : list nat) (sw_first sw_last : string)
  : result (list nat) :=
  if bool_decide (100 < length candidates)%nat
     && negb (String.eqb sw_first "") && negb (String.eqb sw_last "")
  then
    if has_col adv adv_first_col then
      if has_col adv adv_last_col then
        let candidates :=
          filter (λ i, adv_initials i = sw_initials sw_first sw_last) unused in
        Ok (if bool_decide (length candidates = 0%nat) then unused else candidates)
      else Raise (KeyError adv_last_col)
    else Raise (KeyError adv_first_col)
  else Ok candidates.

Definition block (used : list bool) (sw_row : row) : result (list nat) :=
  let unused := unused_adv used in
  let* candidates := domain_block unused (sw_email_domain sw_row) in
  initials_block unused candidates
    (field_lower sw_row schwab_first_col) (field_lower sw_row schwab_last_col).

(** The scoring loop of lines 244-252, from [best_score = 0] and
    [best_adv_idx = None]. *)
Definition score_step (key : string) (best : Z * option nat) (idx_a : nat)
  : Z * option nat :=
  let score := token_set_ratio key (adv_key idx_a) in
  if bool_decide (best.1 < score) then (score, Some idx_a) else best.

Definition best_match (key : string) (candidates : list nat) : Z * option nat :=
  fold_left (score_step key) candidates (0, None).

(** Lines 216-270: the row did not match by email. *)
Definition fuzzy_stage (used : list bool) (sw_row : row)
  : result (decision * list bool) :=
  let* candidates := block used sw_row in
  match best_match (sw_key sw_row) candidates with
  | (best_score, Some best_adv_idx) =>
      if bool_decide (threshold ≤ best_score)
      then Ok (FuzzyMatched best_adv_idx best_score,
               <[best_adv_idx := true]> used)
      else Ok (Unmatched, used)
  | (_, None) => Ok (Unmatched, used)
  end.

(** One iteration of the loop over the Schwab rows: the decision and the
    [_used] column after it. *)
Definition decide_row (used : list bool) (sw_row : row)
  : result (decision * list bool) :=
  let sw_email_norm := row_get sw_row "_email_norm" (Str "") in
  let matches := adv_matches used sw_email_norm in
  match bool_decide (sw_email_norm ≠ Str ""), matches with
  | true, adv_idx :: _ => Ok (EmailMatched adv_idx, <[adv_idx := true]> used)
  | _, _ => fuzzy_stage used sw_row
  end.

(** The record [rec] appended to [final_rows]. *)
Definition adv_data (r : row) : row := filter (λ kv, public_name kv.1 = true) r.

Definition adv_nulls : row :=
  list_to_map ((λ k, ("adv_" +:+ k, PyNone)) <$> List.filter public_name (columns adv)).

Definition annotate (adv_part : row) (sw_idx : nat) (sw_row : row)
    (kind : string) (score : Z) : row :=
  <["Match_Score" := Num score]>
    (<["Matched_or_not" := Str kind]>
       (<["schwab__index" := Num (Z.of_nat sw_idx)]>
          (prefixed "schwab_" sw_row ∪ adv_part))).

Definition rec_of (sw_idx : nat) (sw_row : row) (d : decision) : row :=
  match d with
  | EmailMatched i =>
      annotate (prefixed "adv_" (adv_data (adv_row i))) sw_idx sw_row "email_matched" 100
  | FuzzyMatched i score =>
      annotate (prefixed "adv_" (adv_data (adv_row i))) sw_idx sw_row "fuzzy_matched" score
  | Unmatched => annotate adv_nulls sw_idx sw_row "unmatched" 0
  end.

(** The loop of lines 200-270 from row [sw_idx] on. *)
Fixpoint match_rows (sw_idx : nat) (used : list bool) (sw_rows : list row)
  : result (list (decision * row) * list bool) :=
  match sw_rows with
  | [] => Ok ([], used)
  | sw_row :: rest =>
      let* (d, used') := decide_row used sw_row in
      let* (out, used'') := match_rows (S sw_idx) used' rest in
      Ok ((d, rec_of sw_idx sw_row d) :: out, used'')
  end.

(** Lines 272-273: the domain column is added when the frame does not have
    it. *)
Definition attach_domain (sw : DataFrame) (final_rows : list row) : list row :=
  let key := "schwab_" +:+ schwab_email_domain_col in
  if has_col sw schwab_email_domain_col
     && negb (existsb (λ r, bool_decide (is_Some (r !! key))) final_rows)
  then zip_with (λ r sw_row, <[key := row_get sw_row schwab_email_domain_col NaN]> r)
                final_rows (rows sw)
  else final_rows.

(** The function, with the decisions next to the records. *)
Definition match_unmatched_decisions (sw : DataFrame)
  : result (list (decision * row)) :=
  let* (out, _) := match_rows 0 init_used (with_email_norm sw) in
  Ok out.

(** The function: what is logged, and the rows of the frame it returns
    ([pd.DataFrame(final_rows)], line 271, with the column of lines
    272-273). *)
Definition match_unmatched_by_email_then_fuzzy (sw : DataFrame)
  : result (list log_record * list row) :=
  let* out := match_unmatched_decisions sw in
  let result := attach_domain sw (frame_of_records (snd <$> out)) in
  Ok ([InfoFuzzyCompleted (length result)], result).

End EmailThenFuzzy.

(* ===================================================================== *)
(** * [match_contacts_by_crd_and_email]                                   *)
(* ===================================================================== *)

Global Instance cell_countable : Countable cell.
Proof.
  refine (inj_countable'
    (λ v, match v with
          | NaN => inl (inl ())
          | PyNone => inl (inr ())
          | Str s => inr (inl s)
          | Num z => inr (inr (inl z))
          | Bool b => inr (inr (inr b))
          end)
    (λ x, match x with
          | inl (inl _) => NaN
          | inl (inr _) => PyNone
          | inr (inl s) => Str s
          | inr (inr (inl z)) => Num z
          | inr (inr (inr b)) => Bool b
          end) _).
  by intros [].
Defined.

(** [for candidate in candidates: if candidate in df.columns: ... break]. *)
Definition find_col (candidates : list string) (df : DataFrame) : option string :=
  List.find (has_col df) candidates.

Definition crd_candidates : list string :=
  ["CRD"; "Rep_CRD"; "RepCRD"; "MatchedRepCRD"; "Matched_CRD"].

Definition id_candidates : list string :=
  [adv_id_col_hint; "Record_ID"; "RecordID"; "Record Id"; "ID"].

Definition email_candidates : list string :=
  ["Email_"; "Email"; "Email Address"; "Email_Address"; "EmailAddress"].

(** Lines 110-114: the email column of the contact table. *)
Definition resolve_email_col (adv : DataFrame) : string :=
  if has_col adv adv_email_col then adv_email_col
  else default adv_email_col (find_col email_candidates adv).

(** [if col not in df.columns: df[col] = '']. *)
Definition ensure_col (col : string) (df : DataFrame) : DataFrame :=
  if has_col df col then df else set_column_const col (Str "") df.

(** [df.groupby(col, dropna=False)]: each key with its rows in table order. *)
Definition groupby (col : string) (rs : list row) : list (cell * list row) :=
  (λ k, (k, filter (λ r, row_get r col NaN = k) rs))
    <$> remove_dups ((λ r, row_get r col NaN) <$> rs).

(** Lines 143-150: a row with an email when the group has several rows and
    one of them has one, the first row otherwise. *)
Definition pick_best (email_col : string) (group : list row) : option row :=
  if bool_decide (1 < length group)%nat then
    match filter (λ r, email_norm_of (row_get r email_col NaN) ≠ "") group with
    | r :: _ => Some r
    | [] => head group
    end
  else head group.

Definition best_adv_per_crd (crd_col email_col : string) (rs : list row)
  : gmap cell row :=
  fold_left
    (λ best '(crd, group),
       if isna crd then best
       else match pick_best email_col group with
            | Some r => <[crd := r]> best
            | None => best
            end)
    (groupby crd_col rs) ∅.

(** The four match columns of one Schwab row. *)
Record annotation := {
  Matched_or_not : cell;
  Match_Score : cell;
  adv_Email_ : cell;
  adv_Record_ID : cell
}.

Definition unmatched_annotation : annotation :=
  {| Matched_or_not := Str "unmatched"; Match_Score := Num 0;
     adv_Email_ := PyNone; adv_Record_ID := PyNone |}.

(** [str(int(rec_id)) if isinstance(rec_id, (int, float)) and not
    isinstance(rec_id, bool) else str(rec_id)], when [pd.notna(rec_id)]. *)
Definition record_id_text (rec_id : cell) : cell :=
  if notna rec_id then
    match rec_id with
    | Num z => Str (pretty z)
    | v => Str (py_str v)
    end
  else PyNone.

(** Lines 161-172 for one row. *)
Definition crd_annotation (best : gmap cell row) (email_col : string)
    (adv_id_col : option string) (sw_row : row) : annotation :=
  let crd := row_get sw_row "Matched_CRD" PyNone in
  if notna crd then
    match best !! crd with
    | Some adv_row =>
        {| Matched_or_not := Str "matched_crd"; Match_Score := Num 100;
           adv_Email_ := row_get adv_row email_col PyNone;
           adv_Record_ID :=
             match adv_id_col with
             | Some c => record_id_text (row_get adv_row c PyNone)
             | None => PyNone
             end |}
    | None => unmatched_annotation
    end
  else unmatched_annotation.

Definition annotation_columns : list string :=
  ["Matched_or_not"; "Match_Score"; "adv_Email_"; "adv_Record_ID"].

Definition with_annotation (a : annotation) (r : row) : row :=
  <["adv_Record_ID" := adv_Record_ID a]>
    (<["adv_Email_" := adv_Email_ a]>
       (<["Match_Score" := Match_Score a]>
          (<["Matched_or_not" := Matched_or_not a]> r))).

(** The function. The Schwab table is taken without the four annotation
    columns (with them [pd.concat] would repeat a column name). *)
Definition match_contacts_by_crd_and_email (all_contacts schwab_table : DataFrame)
  : list log_record * DataFrame :=
  let adv := all_contacts in
  let sw := schwab_table in
  let adv_id_col := find_col id_candidates adv in
  let adv_crd_col := find_col crd_candidates adv in
  let email_col := resolve_email_col adv in
  match adv_crd_col with
  | None =>
      ([WarnNoCrdColumn (take 10 (columns adv))],
       set_column_const "adv_Record_ID" PyNone
         (set_column_const "adv_Email_" PyNone
            (set_column_const "Match_Score" (Num 0)
               (set_column_const "Matched_or_not" (Str "unmatched") sw))))
  | Some crd_col =>
      let adv := ensure_col email_col adv in
      let sw := ensure_col "Email_Address" sw in
      let best := best_adv_per_crd crd_col email_col (rows adv) in
      let annotations :=
        (λ sw_row,
           if has_col sw "Matched_CRD"
           then crd_annotation best email_col adv_id_col sw_row
           else unmatched_annotation) <$> rows sw in
      let result :=
        {| columns :=
             List.filter (λ c, negb (String.eqb c "_email_norm")) (columns sw)
             ++ annotation_columns;
           rows :=
             zip_with (λ sw_row a, with_annotation a (delete "_email_norm" sw_row))
                      (rows sw) annotations |} in
      let matched :=
        length (filter (λ a, Matched_or_not a = Str "matched_crd") annotations) in
      ([InfoCrdCompleted matched (length (rows result))], result)
  end.

(* ===================================================================== *)
(** * [match_raw_data.py]                                                 *)
(* ===================================================================== *)

Module RawData.

(** [pick_col(df, candidates, default_value)], one string per row. *)
Definition pick_col (df : DataFrame) (candidates : list string)
    (default_value : string) : list string :=
  match find_col candidates df with
  | Some c =>
      (λ r, PyStr.strip (py_str (fillna (Str default_value) (row_get r c NaN))))
        <$> rows df
  | None => (λ _, default_value) <$> rows df
  end.

(** The alternatives of [suffix_pattern], in its order. *)
Definition suffix_tokens : list string :=
  ["inc"; "llc"; "ltd"; "co"; "corporation"; "corp"; "pllc"; "pc"; "gmbh";
   "ag"; "bv"; "sa"; "sarl"; "sas"; "pte"; "pty"; "limited"; "investment";
   "group"].

(** One alternative matched at [s] without regard to case ([case=False]),
    followed by [\b]: the length matched. *)
Fixpoint strip_prefix_nocase (t s : string) : option string :=
  match t, s with
  | EmptyString, _ => Some s
  | String a t', String b s' =>
      if Ascii.eqb a (PyStr.lower_char b) then strip_prefix_nocase t' s' else None
  | String _ _, EmptyString => None
  end.

Definition token_at (t s : string) : option nat :=
  match strip_prefix_nocase t s with
  | Some r =>
      if Re.word_boundary (PyStr.last t) (PyStr.head r)
      then Some (String.length t) else None
  | None => None
  end.

(** [series.str.replace(suffix_pattern, "", case=False, regex=True)] on one
    string: every match is removed, scanning from the left. [skip] counts the
    characters of the current match still to drop. *)
Fixpoint remove_suffixes_from (prev : option ascii) (skip : nat) (s : string)
  : string :=
  match s with
  | EmptyString => EmptyString
  | String c s' =>
      match skip with
      | S k => remove_suffixes_from (Some c) k s'
      | O =>
          match (if Re.word_boundary prev (Some c)
                 then Re.first_some (λ t, token_at t s) suffix_tokens
                 else None) with
          | Some n => remove_suffixes_from (Some c) (Nat.pred n) s'
          | None => String c (remove_suffixes_from (Some c) 0 s')
          end
      end
  end.

Definition remove_suffixes (s : string) : string := remove_suffixes_from None 0 s.

(** The part of the cleaning that does not look at suffixes:
    [.str.replace(",", "", regex=False).str.strip().str.lower()]. *)
Definition tidy (s : string) : string :=
  PyStr.lower (PyStr.strip
    (PyStr.filter (λ c, negb (Ascii.eqb c ","%char)) s)).

(** [clean_company] of one company name. *)
Definition clean_company (company : string) : string :=
  tidy (remove_suffixes company).

(** [(first + " " + last + " | " + clean).str.strip().str.lower()]. *)
Definition build_key (first last clean : string) : string :=
  PyStr.lower (PyStr.strip (first +:+ " " +:+ last +:+ " | " +:+ clean)).

Definition zip_with3 {A B C D} (f : A → B → C → D)
    (la : list A) (lb : list B) (lc : list C) : list D :=
  zip_with (λ a bc, f a bc.1 bc.2) la (zip lb lc).

Definition sw_keys (sw : DataFrame) : list string :=
  zip_with3 build_key
    (pick_col sw ["First_Name_"; "First Name"; "First name"; "First"] "")
    (pick_col sw ["Last_Name_"; "Last Name"; "Last name"; "Last"] "")
    (clean_company <$>
       pick_col sw ["Business_Name"; "Business Name"; "Company"; "Company Name"] "").

Definition adv_keys_of (adv : DataFrame) : list string :=
  zip_with3 build_key
    (pick_col adv ["First Name"; "First name"; "First"; "First_Name_"] "")
    (pick_col adv ["Last Name"; "Last name"; "Last"; "Last_Name_"; "Last Name "] "")
    (clean_company <$>
       pick_col adv ["Company Name"; "Company"; "Business_Name"; "Business Name"] "").

(** [df["clean_company"] = ...; df["Key"] = ...]: the rows with the two
    columns added. *)
Definition keyed_rows (df : DataFrame) (companies keys : list string) : list row :=
  zip_with3 (λ r c k, <["Key" := Str k]> (<["clean_company" := Str c]> r))
            (rows df) companies keys.

Definition sw_rows (sw : DataFrame) : list row :=
  keyed_rows sw
    (clean_company <$>
       pick_col sw ["Business_Name"; "Business Name"; "Company"; "Company Name"] "")
    (sw_keys sw).

Definition adv_rows (adv : DataFrame) : list row :=
  keyed_rows adv
    (clean_company <$>
       pick_col adv ["Company Name"; "Company"; "Business_Name"; "Business Name"] "")
    (adv_keys_of adv).

(** How one row was resolved; [RawMatched] holds the position of the contact
    row whose fields are merged into the output. *)
Inductive decision :=
  | NoKey                                  (* [if not sk] *)
  | NoCandidate                            (* [match is None] *)
  | RawMatched (adv_idx : nat) (score : Qc)
  | BelowThreshold (score : Qc).

Definition referenced (d : decision) : option nat :=
  match d with RawMatched i _ => Some i | _ => None end.

Section Matcher.

(** [fuzz.token_set_ratio] of the package that line 5 or line 7 imported: a
    float under rapidfuzz, an integer under fuzzywuzzy. *)
Variable token_set_ratio : string → string → Qc.
Variable threshold : Z.
Variable adv : list row.           (* the contact rows, with [Key] *)

(** [adv["Key"].fillna("").astype(str).tolist()]. *)
Definition adv_keys : list string :=
  (λ r, py_str (fillna (Str "") (row_get r "Key" NaN))) <$> adv.

(** The filter of line 104; [int(sk_len * 0.3)] is the integer part of
    three tenths of the length. *)
Definition near (sk k : string) : bool :=
  match PyStr.head k, PyStr.head sk with
  | Some a, Some b =>
      Ascii.eqb a b
      && bool_decide (Z.abs (Z.of_nat (String.length k) - Z.of_nat (String.length sk))
                      ≤ Z.max 1 (3 * Z.of_nat (String.length sk) / 10))
  | _, _ => false
  end.

(** Lines 100-106. *)
Definition block (sk : string) : list string :=
  if bool_decide (500 < length adv_keys)%nat then
    match List.filter (near sk) adv_keys with
    | [] => adv_keys
    | candidates => candidates
    end
  else adv_keys.

(** [process.extractOne(sk, candidates, scorer=fuzz.token_set_ratio)] of the
    fuzzy-matching package: [None] on an empty list, else the first choice
    of highest score with that score. *)
Definition extract_step (sk : string) (best : string * Qc) (k : string)
  : string * Qc :=
  let score := token_set_ratio sk k in
  if bool_decide (best.2 < score)%Qc then (k, score) else best.

Definition extractOne (sk : string) (candidates : list string)
  : option (string * Qc) :=
  match candidates with
  | [] => None
  | k :: rest => Some (fold_left (extract_step sk) rest (k, token_set_ratio sk k))
  end.

(** Lines 91-131 up to the choice of the branch. *)
Definition decide_key (sk : string) : result decision :=
  match extractOne sk (block sk) with
  | None => Ok NoCandidate
  | Some (matched_key, score) =>
      if bool_decide (Qc_of_Z threshold ≤ score)%Qc then
        (* adv[adv["Key"] == matched_key].iloc[0] *)
        match list_find (λ r, row_get r "Key" NaN = Str matched_key) adv with
        | Some (i, _) => Ok (RawMatched i score)
        | None => Raise IndexError
        end
      else Ok (BelowThreshold score)
  end.

(** [sk = sw_row.get("Key", "")]; a key that is not text cannot be
    indexed or scored. *)
Definition decide_row (sw_row : row) : result decision :=
  let sk := row_get sw_row "Key" (Str "") in
  if negb (py_truthy sk) then Ok NoKey
  else match sk with
       | Str s => decide_key s
       | _ => Raise TypeError
       end.

(** The record appended to [out_rows]; lines 125 and 130 write
    [int(score)]. *)
Definition rec_of (sw_row : row) (d : decision) : row :=
  match d with
  | NoKey | NoCandidate =>
      <["Match_Score" := Num 0]> (<["Matched" := Bool false]> sw_row)
  | RawMatched i score =>
      <["Match_Score" := Num (py_int score)]>
        (<["Matched" := Bool true]>
           (prefixed "Adv_" (default ∅ (adv !! i)) ∪ sw_row))
  | BelowThreshold score =>
      <["Match_Score" := Num (py_int score)]> (<["Matched" := Bool false]> sw_row)
  end.

(** The loop of lines 88-131. *)
Fixpoint match_rows (rows : list row) : result (list (decision * row)) :=
  match rows with
  | [] => Ok []
  | sw_row :: rest =>
      let* d := decide_row sw_row in
      let* out := match_rows rest in
      Ok ((d, rec_of sw_row d) :: out)
  end.

End Matcher.

(** The function, with the decisions next to the records. With [verbose] the
    summary line reads [result_df["Matched"]], a column that a frame built
    from no record does not have. *)
Definition match_by_name_and_company (token_set_ratio : string → string → Qc)
    (Schwab_df contacts_df : DataFrame) (threshold : Z) (verbose : bool)
  : result (list (decision * row)) :=
  let* out := match_rows token_set_ratio threshold
                (adv_rows contacts_df) (sw_rows Schwab_df) in
  if verbose && bool_decide (out = []) then Raise (KeyError "Matched")
  else Ok out.

End RawData.

(* ===================================================================== *)
(** * Predicates the statements use                                       *)
(* ===================================================================== *)

(** The suffix step removed nothing from [s], or exactly one listed token that
    ends [s] and starts at a word boundary. *)
Definition strips_only_trailing (tokens : list string) (s r : string) : Prop :=
  r = s
  ∨ ∃ t, In t tokens ∧ s = r +:+ t
         ∧ Re.word_boundary (PyStr.last r) (PyStr.head t) = true.

(** What is not white space in a string. *)
Definition text_of (s : string) : string :=
  PyStr.filter (λ c, negb (PyStr.isspace c)) s.

(** A stripped string: no white space at either end. *)
Definition stripped (s : string) : Prop :=
  (∀ c, PyStr.head s = Some c → PyStr.isspace c = false)
  ∧ (∀ c, PyStr.last s = Some c → PyStr.isspace c = false).

(** [f] keeps every character of its argument in the class [p]. *)
Definition keeps (p : ascii → bool) (f : string → string) : Prop :=
  ∀ s, PyStr.forallb p s = true → PyStr.forallb p (f s) = true.

(** The character before a position: the last of the text [b] scanned so far,
    or [prev], the one before the scan began. *)
Definition last_or (prev : option ascii) (b : string) : option ascii :=
  match PyStr.last b with Some c => Some c | None => prev end.

(** Single-spaced text: every white-space character is a blank and no two are
    adjacent ([in_run]: the previous character was one). *)
Fixpoint spaced (in_run : bool) (s : string) : bool :=
  match s with
  | EmptyString => true
  | String c s' =>
      if PyStr.isspace c then Ascii.eqb c " " && negb in_run && spaced true s'
      else spaced false s'
  end.

(** Characters that [lower] leaves alone, and characters that the punctuation
    pattern leaves alone. *)
Definition lowered (c : ascii) : bool := Ascii.eqb (PyStr.lower_char c) c.
Definition texty (c : ascii) : bool := PyStr.isword c || PyStr.isspace c.

(** The positions a run of [match_unmatched_by_email_then_fuzzy] consumed, in
    output order. *)
Definition consumed_list (out : list (decision * row)) : list nat :=
  omap (λ o, consumed o.1) out.

(** A scorer for the examples: 100 on equal keys, 0 otherwise. *)
Definition exact_ratio (a b : string) : Z :=
  if String.eqb a b then 100 else 0.

(** The same as a score of [match_raw_data.py]. *)
Definition exact_score (a b : string) : Qc := Qc_of_Z (exact_ratio a b).

(** [x], at position [k] of [pool], has the highest score of the pool and is
    the first to have it. *)
Definition first_best {A} (score : A → Z) (pool : list A) (k : nat) (x : A) : Prop :=
  pool !! k = Some x
  ∧ (∀ y, y ∈ pool → score y ≤ score x)
  ∧ (∀ k' y, (k' < k)%nat → pool !! k' = Some y → score y < score x).

(** The state of the scoring loop of [match_unmatched_by_email_then_fuzzy]
    after the candidates [seen]: no candidate seen scores above [best.1], and
    [best.2] is the first candidate seen with that score when it is positive,
    [None] when nothing scored above 0. *)
Definition best_so_far (score : nat → Z) (seen : list nat) (best : Z * option nat)
  : Prop :=
  (∀ j, j ∈ seen → score j ≤ best.1)
  ∧ match best.2 with
    | None => best.1 = 0
    | Some i =>
        0 < best.1
        ∧ ∃ k, seen !! k = Some i ∧ score i = best.1
               ∧ ∀ k' j, (k' < k)%nat → seen !! k' = Some j → score j < best.1
    end.

(** [first_best] for the scores of [match_raw_data.py]. *)
Definition first_best_score {A} (score : A → Qc) (pool : list A) (k : nat) (x : A)
  : Prop :=
  pool !! k = Some x
  ∧ (∀ y, y ∈ pool → (score y ≤ score x)%Qc)
  ∧ (∀ k' y, (k' < k)%nat → pool !! k' = Some y → (score y < score x)%Qc).

(** The state of [extractOne] after the choices [seen]. *)
Definition best_choice (score : string → Qc) (seen : list string) (best : string * Qc)
  : Prop :=
  best.2 = score best.1 ∧ ∃ n, first_best_score score seen n best.1.

(** A cell [v] of a record and the cell [v'] that the frame built from the
    records holds in its place: the same, or [NaN] for [None]. *)
Definition inferred (v v' : cell) : Prop :=
  v' = v ∨ (v = PyNone ∧ v' = NaN).

(** Rows that hold a text key, as [RawData.adv_rows] builds them. *)
Definition keyed (rs : list row) : Prop :=
  ∀ r, r ∈ rs → ∃ k, r !! "Key" = Some (Str k).

(* ===================================================================== *)
(** * Example tables                                                      *)
(* ===================================================================== *)

Definition mkrow (l : list (string * cell)) : row := list_to_map l.

Definition example_contacts : DataFrame :=
  {| columns := ["Email_"; "First_Name_"; "Last_Name_"; "Company_Name"; "Record_ID"; "CRD"];
     rows :=
       [mkrow [("Email_", Str "a@x.com"); ("First_Name_", Str "Ann");
               ("Last_Name_", Str "Lee"); ("Company_Name", Str "Acme Inc");
               ("Record_ID", Num 1001); ("CRD", Num 7)];
        mkrow [("Email_", NaN); ("First_Name_", Str "Bob");
               ("Last_Name_", Str "Ray"); ("Company_Name", Str "Beta LLC");
               ("Record_ID", Num 1002); ("CRD", Num 9)]] |}.

Definition example_schwab : DataFrame :=
  {| columns := ["Email_Address"; "First_Name_"; "Last_Name_"; "Business_Name"; "Matched_CRD"];
     rows :=
       [mkrow [("Email_Address", Str " A@x.com "); ("First_Name_", Str "Zed");
               ("Last_Name_", Str "Q"); ("Business_Name", Str "Z");
               ("Matched_CRD", Num 9)];
        mkrow [("Email_Address", Str "a@x.com"); ("First_Name_", Str "Ann");
               ("Last_Name_", Str "Lee"); ("Business_Name", Str "Acme");
               ("Matched_CRD", NaN)];
        mkrow [("Email_Address", NaN); ("First_Name_", Str "bob");
               ("Last_Name_", Str "RAY"); ("Business_Name", Str "Beta, LLC");
               ("Matched_CRD", Num 7)]] |}.

(** A contact table with no CRD column under any of the names tried. *)
Definition example_contacts_no_crd : DataFrame :=
  {| columns := ["Email"; "ID"];
     rows := [mkrow [("Email", Str "a@x.com"); ("ID", Num 1001)]] |}.

(** Tables for [match_by_name_and_company]: one contact, and two Schwab rows
    that name it. *)
Definition example_raw_contacts : DataFrame :=
  {| columns := ["First Name"; "Last Name"; "Company"];
     rows := [mkrow [("First Name", Str "John"); ("Last Name", Str "Smith");
                     ("Company", Str "Acme Inc")]] |}.

Definition example_raw_schwab : DataFrame :=
  {| columns := ["First_Name_"; "Last_Name_"; "Business_Name"];
     rows := [mkrow [("First_Name_", Str "John"); ("Last_Name_", Str "Smith");
                     ("Business_Name", Str "Acme")];
              mkrow [("First_Name_", Str "JOHN"); ("Last_Name_", Str "SMITH");
                     ("Business_Name", Str "ACME LLC")]] |}.

(** Contacts that compete for one Schwab row: the first key only resembles
    the row's, the second and the third are equal to it. *)
Definition example_pool_contacts : DataFrame :=
  {| columns := ["Email_"; "First_Name_"; "Last_Name_"; "Company_Name"];
     rows :=
       [mkrow [("Email_", NaN); ("First_Name_", Str "Bo");
               ("Last_Name_", Str "Lee"); ("Company_Name", Str "Acme")];
        mkrow [("Email_", NaN); ("First_Name_", Str "Bob");
               ("Last_Name_", Str "Ray"); ("Company_Name", Str "Beta LLC")];
        mkrow [("Email_", NaN); ("First_Name_", Str "Bob");
               ("Last_Name_", Str "Ray"); ("Company_Name", Str "Beta Inc")]] |}.

Definition example_pool_row : row :=
  mkrow [("First_Name_", Str "bob"); ("Last_Name_", Str "RAY");
         ("Business_Name", Str "Beta, LLC")].

(** A graded scorer for the examples: 100 on equal keys, 85 on keys that
    start with the same character, 0 otherwise. *)
Definition graded_ratio (a b : string) : Z :=
  if String.eqb a b then 100
  else match PyStr.head a, PyStr.head b with
       | Some x, Some y => if Ascii.eqb x y then 85 else 0
       | _, _ => 0
       end.

(** Three contacts for [match_by_name_and_company], and float scores of their
    keys such as rapidfuzz gives: 94.12 for the first, 94.44 for the second
    and for the third. *)
Definition example_raw_pool : DataFrame :=
  {| columns := ["First Name"; "Last Name"; "Company"];
     rows := [mkrow [("First Name", Str "Jon"); ("Last Name", Str "Smith");
                     ("Company", Str "Acme")];
              mkrow [("First Name", Str "John"); ("Last Name", Str "Smith");
                     ("Company", Str "Acme")];
              mkrow [("First Name", Str "John"); ("Last Name", Str "Smyth");
                     ("Company", Str "Acme")]] |}.

Definition float_score (a b : string) : Qc :=
  if String.eqb b "jon smith | acme" then Q2Qc (9412 # 100)
  else if String.eqb b "john smith | acme" then Q2Qc (9444 # 100)
  else if String.eqb b "john smyth | acme" then Q2Qc (9444 # 100)
  else Qc_of_Z 0.

(** A contact table whose email column has another of the names that
    [match_contacts_by_crd_and_email] accepts, [Email]. *)
Definition example_contacts_other_email : DataFrame :=
  {| columns := ["Email"; "First_Name_"; "Last_Name_"; "Company_Name"; "Record_ID"];
     rows :=
       [mkrow [("Email", Str "a@x.com"); ("First_Name_", Str "Ann");
               ("Last_Name_", Str "Lee"); ("Company_Name", Str "Acme Inc");
               ("Record_ID", Num 1001)]] |}.



(** The run of [match_unmatched_by_email_then_fuzzy] on the example tables
    (it raises nothing). *)
Definition example_decisions : list (decision * row) :=
  match match_unmatched_decisions exact_ratio 80 example_contacts example_schwab with
  | Ok out => out
  | Raise _ => []
  end.

(* ===================================================================== *)
(** * Further predicates                                                  *)
(* ===================================================================== *)

(** The shape of a normalized name: nothing that [lower] or the punctuation
    pattern would change, single blanks as the only white space, and none at
    either end. *)
Definition normalized (s : string) : Prop :=
  PyStr.forallb lowered s = true
  ∧ PyStr.forallb texty s = true
  ∧ spaced false s = true
  ∧ stripped s.

(* ===================================================================== *)
(** * Further example tables                                              *)
(* ===================================================================== *)

(** A contact table with the columns of the export and no row. *)
Definition example_no_contacts : DataFrame :=
  {| columns := ["Email_"; "First_Name_"; "Last_Name_"]; rows := [] |}.

(** A Schwab table without the column [Matched_CRD]. *)
Definition example_schwab_no_crd : DataFrame :=
  {| columns := ["Email_Address"; "First_Name_"];
     rows := [mkrow [("Email_Address", Str "a@x.com"); ("First_Name_", Str "Ann")]] |}.

(** A Schwab table with two rows of the same CRD. *)
Definition example_schwab_same_crd : DataFrame :=
  {| columns := ["First_Name_"; "Matched_CRD"];
     rows := [mkrow [("First_Name_", Str "Ann"); ("Matched_CRD", Num 7)];
              mkrow [("First_Name_", Str "Zed"); ("Matched_CRD", Num 7)]] |}.

(** A boolean cell. Python equates [True] with [1] where the cells of this
    development do not, so the statements about CRD values are about tables
    without boolean CRDs. *)
Definition is_bool (v : cell) : bool :=
  match v with Bool _ => true | _ => false end.

(** The contact rows of one CRD value, and those of them with an email. *)
Definition same_crd (crd_col : string) (crd : cell) (a : row) : Prop :=
  row_get a crd_col NaN = crd.

Definition has_email (email_col : string) (a : row) : Prop :=
  email_norm_of (row_get a email_col NaN) ≠ "".

Global Instance same_crd_dec crd_col crd a : Decision (same_crd crd_col crd a) :=
  decide (row_get a crd_col NaN = crd).

Global Instance has_email_dec email_col a : Decision (has_email email_col a) :=
  decide (email_norm_of (row_get a email_col NaN) ≠ "").


Global Typeclasses Opaque same_crd has_email.

(** The column names under which [match_by_name_and_company] looks for the
    name and the company of a Schwab row. *)
Definition schwab_key_columns : list string :=
  ["First_Name_"; "First Name"; "First name"; "First";
   "Last_Name_"; "Last Name"; "Last name"; "Last";
   "Business_Name"; "Business Name"; "Company"; "Company Name"].

(** The four columns that [match_by_name_and_company] writes into a row. *)
Definition raw_added_columns : list string :=
  ["clean_company"; "Key"; "Matched"; "Match_Score"].

(* ===================================================================== *)
(** * [run] ([match_discovery.py]), once the four sheets are loaded       *)
(* ===================================================================== *)

(** [_safe_get_adv_record_id_column]. *)
Definition safe_get_adv_record_id_column (df : DataFrame) : option string :=
  find_col ["Record_ID"; "RecordID"; "Record Id"; "ID"; "id"] df.

(** [col in frame.columns], for a frame built from records and given by its
    rows: its columns are the keys of its rows. *)
Definition frame_has_col (frame : list row) (col : string) : bool :=
  existsb (λ r, bool_decide (is_Some (r !! col))) frame.

(** [frame.set_index('schwab__index')]: [idx in index] and [.loc[idx]]. The
    indices are the positions of the Schwab rows, each once. *)
Definition loc_schwab_index (frame : list row) (idx : nat) : option row :=
  snd <$> list_find (λ r, r !! "schwab__index" = Some (Num (Z.of_nat idx))) frame.

(** [str(int(rec_id)) if isinstance(rec_id, (int, float)) else str(rec_id)],
    when [pd.notna(rec_id)]. Unlike line 172, line 319 takes a Python boolean
    for an [int]; the statements below are about record ids that are not
    booleans. *)
Definition run_record_id_text (rec_id : cell) : cell :=
  if notna rec_id then
    match rec_id with
    | Num z => Str (pretty z)
    | Bool b => Str (pretty (Z.b2z b))
    | v => Str (py_str v)
    end
  else PyNone.

(** Lines 309-319 for the row of index [idx]: [match_row] is the row of that
    index in the matcher's frame, if there is one. *)
Definition reattach (adv_id_col : option string) (match_row : option row) (r : row)
  : row :=
  match match_row with
  | None => r
  | Some m =>
      let r :=
        <["adv_Email_" := row_get m "adv_Email_" PyNone]>
          (<["Match_Score" := row_get m "Match_Score" (Num 0)]>
             (<["Matched_or_not" := row_get m "Matched_or_not" (Str "unmatched")]> r)) in
      match adv_id_col with
      | Some c =>
          let rec_id := row_get m ("adv_" +:+ c) PyNone in
          if notna rec_id then <["adv_Record_ID" := run_record_id_text rec_id]> r
          else r
      | None => r
      end
  end.

(** Lines 299-329: the sheet [unmatched], from the Schwab sheet and the frame
    that [match_unmatched_by_email_then_fuzzy] returned. *)
Definition final_unmatched (adv_unmatched schwab_unmatched : DataFrame)
    (matched_unmatched : list row) : DataFrame :=
  let final :=
    set_column_const "adv_Record_ID" PyNone
      (set_column_const "adv_Email_" PyNone
         (set_column_const "Match_Score" (Num 0)
            (set_column_const "Matched_or_not" (Str "unmatched") schwab_unmatched))) in
  let final :=
    if frame_has_col matched_unmatched "schwab__index" then
      {| columns := columns final;
         rows := imap (λ idx r,
                         reattach (safe_get_adv_record_id_column adv_unmatched)
                                  (loc_schwab_index matched_unmatched idx) r)
                      (rows final) |}
    else final in
  if has_col final "Email_Domain" then
    {| columns := columns final;
       rows := zip_with
                 (λ r sw_row,
                    <["Email_Domain" :=
                        fillna (row_get sw_row "Email_Domain" NaN)
                               (row_get r "Email_Domain" NaN)]> r)
                 (rows final) (rows schwab_unmatched) |}
  else set_column_const "Email_Domain" PyNone final.

(** What [run] logs after the two matchers, and the two sheets it writes. *)
Inductive run_log :=
  | FromMatcher (l : log_record)
  | InfoMatchedSheet (n : nat)
  | InfoUnmatchedSheet (n original : nat).

Record workbook := {
  logged : list run_log;
  matched_sheet : DataFrame;      (* sheet 'matched' *)
  unmatched_sheet : DataFrame     (* sheet 'unmatched' *)
}.

(** [run], from the tables that [load_default_tables] returned; both matchers
    are called with their default arguments. *)
Definition run (token_set_ratio : string → string → Z)
    (adv_matched adv_unmatched schwab_matched schwab_unmatched : DataFrame)
  : result workbook :=
  let '(logs_crd, merged_crd) :=
    match_contacts_by_crd_and_email adv_matched schwab_matched in
  let* (logs_fuzzy, matched_unmatched) :=
    match_unmatched_by_email_then_fuzzy token_set_ratio 80 adv_unmatched
      schwab_unmatched in
  let final := final_unmatched adv_unmatched schwab_unmatched matched_unmatched in
  Ok {| logged :=
          (FromMatcher <$> logs_crd) ++ (FromMatcher <$> logs_fuzzy)
          ++ [InfoMatchedSheet (length (rows merged_crd));
              InfoUnmatchedSheet (length (rows final))
                                 (length (rows schwab_unmatched))];
        matched_sheet := merged_crd;
        unmatched_sheet := final |}.

(** How a decision reads in the output. *)
Definition decision_kind (d : decision) : string :=
  match d with
  | EmailMatched _ => "email_matched"
  | FuzzyMatched _ _ => "fuzzy_matched"
  | Unmatched => "unmatched"
  end.

Definition decision_score (d : decision) : Z :=
  match d with
  | EmailMatched _ => 100
  | FuzzyMatched _ s => s
  | Unmatched => 0
  end.

(** The cell that a decision makes available under the contact column [c]:
    that of the contact row it consumed. *)
Definition contact_cell (adv : DataFrame) (d : decision) (c : string) : cell :=
  match consumed d with
  | Some j => row_get (adv_row adv j) c NaN
  | None => PyNone
  end.

(* ===================================================================== *)
(** * Properties of the string functions                                  *)
(* ===================================================================== *)

Module PyStrFacts.
Import PyStr.

(** Case analysis over the 256 characters. *)
Ltac each_char c := destruct c as [[] [] [] [] [] [] [] []]; vm_compute; try done.

Lemma lower_char_idem c : lower_char (lower_char c) = lower_char c.
Proof. by each_char c. Qed.

Lemma isspace_lower_char c : isspace (lower_char c) = isspace c.
Proof. by each_char c. Qed.

Lemma isword_lower_char c : isword (lower_char c) = isword c.
Proof. by each_char c. Qed.

Lemma space_not_word c : isspace c = true → isword c = false.
Proof. by each_char c. Qed.

Lemma append_nil s : "" +:+ s = s.
Proof. done. Qed.

Lemma append_cons c a b : String c a +:+ b = String c (a +:+ b).
Proof. done. Qed.

Lemma append_empty_r s : s +:+ "" = s.
Proof. induction s as [|c s IH]; [done|]. by rewrite append_cons, IH. Qed.

Lemma append_assoc a b c : (a +:+ b) +:+ c = a +:+ b +:+ c.
Proof. induction a as [|x a IH]; [done|]. by rewrite !append_cons, IH. Qed.

Lemma forallb_app p a b :
  forallb p (a +:+ b) = forallb p a && forallb p b.
Proof.
  induction a as [|c a IH]; [done|].
  rewrite append_cons. simpl. by rewrite IH, andb_assoc.
Qed.

Lemma forallb_map_id f s :
  forallb (λ c, Ascii.eqb (f c) c) s = true → map f s = s.
Proof.
  induction s as [|c s IH]; simpl; [done|].
  intros [Hc Hs]%andb_true_iff. apply Ascii.eqb_eq in Hc. by rewrite Hc, IH.
Qed.

Lemma forallb_lstrip p s : forallb p s = true → forallb p (lstrip s) = true.
Proof.
  induction s as [|c s IH]; simpl; [done|].
  intros H. destruct (isspace c); [|done].
  apply andb_true_iff in H as [_ H]. by apply IH.
Qed.

Lemma forallb_rstrip p s : forallb p s = true → forallb p (rstrip s) = true.
Proof.
  induction s as [|c s IH]; simpl; [done|].
  intros [Hc Hs]%andb_true_iff. specialize (IH Hs).
  destruct (rstrip s) as [|d r].
  - destruct (isspace c); simpl; [done|]. by rewrite Hc.
  - simpl in *. by rewrite Hc, IH.
Qed.

Lemma forallb_strip p s : forallb p s = true → forallb p (strip s) = true.
Proof. intros H. by apply forallb_rstrip, forallb_lstrip. Qed.

Lemma forallb_strip_prefix p t s r :
  strip_prefix t s = Some r → forallb p s = true → forallb p r = true.
Proof.
  revert s. induction t as [|a t IH]; intros s; simpl.
  - by intros [= <-].
  - destruct s as [|b s]; [done|]. simpl.
    destruct (Ascii.eqb a b); [|done].
    intros Hr [_ Hs]%andb_true_iff. eauto.
Qed.

Lemma lstrip_head s c : head (lstrip s) = Some c → isspace c = false.
Proof.
  induction s as [|a s IH]; simpl; [done|].
  destruct (isspace a) eqn:Ha; [done|]. simpl. by intros [= <-].
Qed.

Lemma rstrip_head s c : head (rstrip s) = Some c → head s = Some c.
Proof.
  destruct s as [|a s]; simpl; [done|].
  destruct (rstrip s); [destruct (isspace a)|]; simpl; done.
Qed.

Lemma rstrip_last s c : last (rstrip s) = Some c → isspace c = false.
Proof.
  induction s as [|a s IH]; simpl; [done|].
  destruct (rstrip s) as [|d r] eqn:Hr.
  - destruct (isspace a) eqn:Ha; simpl; [done|]. by intros [= <-].
  - simpl. simpl in IH. done.
Qed.

Lemma strip_stripped s : stripped (strip s).
Proof.
  split; intros c H.
  - apply rstrip_head in H. by eapply lstrip_head.
  - by eapply rstrip_last.
Qed.

Lemma lstrip_id s : (∀ c, head s = Some c → isspace c = false) → lstrip s = s.
Proof.
  destruct s as [|a s]; simpl; [done|]. intros H. by rewrite (H a).
Qed.

Lemma rstrip_id s : (∀ c, last s = Some c → isspace c = false) → rstrip s = s.
Proof.
  induction s as [|a s IH]; simpl; [done|]. intros H.
  destruct s as [|b s].
  - simpl. by rewrite (H a).
  - rewrite IH; [done|]. intros c Hc. by apply H.
Qed.

Lemma stripped_strip s : stripped s → strip s = s.
Proof. intros [Hh Hl]. unfold strip. rewrite lstrip_id by done. by apply rstrip_id. Qed.

Lemma strip_idem s : strip (strip s) = strip s.
Proof. apply stripped_strip, strip_stripped. Qed.

(** Stripping drops white space only. *)
Lemma filter_lstrip s :
  filter (λ c, negb (isspace c)) (lstrip s) = filter (λ c, negb (isspace c)) s.
Proof.
  induction s as [|a s IH]; simpl; [done|].
  destruct (isspace a) eqn:Ha; simpl; [done|]. by rewrite Ha.
Qed.

Lemma filter_rstrip s :
  filter (λ c, negb (isspace c)) (rstrip s) = filter (λ c, negb (isspace c)) s.
Proof.
  induction s as [|a s IH]; simpl; [done|].
  destruct (rstrip s) as [|d r] eqn:Hr.
  - simpl in IH. destruct (isspace a) eqn:Ha; simpl; [done|].
    by rewrite Ha, <- IH.
  - change (filter _ (String a (String d r)))
      with (if negb (isspace a) then String a (filter (λ c, negb (isspace c)) (String d r))
            else filter (λ c, negb (isspace c)) (String d r)).
    by rewrite IH.
Qed.

Lemma filter_strip s :
  filter (λ c, negb (isspace c)) (strip s) = filter (λ c, negb (isspace c)) s.
Proof. unfold strip. by rewrite filter_rstrip, filter_lstrip. Qed.

Lemma last_is_some c s : is_Some (last (String c s)).
Proof.
  revert c. induction s as [|d s IH]; intros c; [by eexists|].
  change (last (String c (String d s))) with (last (String d s)). apply IH.
Qed.

Lemma last_cons c s :
  last (String c s) = match last s with Some x => Some x | None => Some c end.
Proof.
  destruct s as [|d s]; [done|].
  change (last (String c (String d s))) with (last (String d s)).
  by destruct (last_is_some d s) as [x ->].
Qed.

Lemma last_map f s : last (map f s) = f <$> last s.
Proof.
  induction s as [|a s IH]; simpl; [done|].
  destruct s as [|b s]; simpl in *; done.
Qed.

Lemma last_app_nonempty a b : b ≠ "" → last (a +:+ b) = last b.
Proof.
  intros Hb. induction a as [|c a IH]; [done|].
  rewrite append_cons. simpl.
  destruct (a +:+ b) eqn:E; [|done].
  destruct a; [by rewrite append_nil in E|by rewrite append_cons in E].
Qed.

Lemma strip_prefix_app t s r : strip_prefix t s = Some r → s = t +:+ r.
Proof.
  revert s. induction t as [|a t IH]; intros s; simpl.
  - by intros [= <-].
  - destruct s as [|b s]; [done|].
    destruct (Ascii.eqb a b) eqn:E; [|done]. apply Ascii.eqb_eq in E as ->.
    intros H. by rewrite append_cons, (IH _ H).
Qed.

End PyStrFacts.

Module ReFacts.
Import PyStr PyStrFacts Re.

Lemma first_some_in {A B} (f : A → option B) l y :
  first_some f l = Some y → ∃ x, In x l ∧ f x = Some y.
Proof.
  induction l as [|x l IH]; simpl; [done|].
  destruct (f x) eqn:E.
  - intros [= <-]. eauto.
  - intros H. destruct (IH H) as (x' & ? & ?). eauto.
Qed.

Lemma forallb_sub_punct_class s :
  forallb (λ c, isword c || isspace c) (sub_punct s) = true.
Proof.
  induction s as [|c s IH]; [reflexivity|].
  unfold sub_punct in *. cbn [map forallb]. rewrite IH, andb_true_r.
  destruct (isword c || isspace c) eqn:E; [exact E|reflexivity].
Qed.

Lemma forallb_sub_punct p : p " "%char = true → keeps p sub_punct.
Proof.
  intros Hp s. induction s as [|c s IH]; [reflexivity|].
  unfold sub_punct in *. cbn [map forallb].
  intros [Hc Hs]%andb_true_iff. rewrite (IH Hs), andb_true_r.
  destruct (isword c || isspace c); [exact Hc|exact Hp].
Qed.

Lemma forallb_sub_spaces_from p r s :
  p " "%char = true → forallb p s = true → forallb p (sub_spaces_from r s) = true.
Proof.
  intros Hp. revert r. induction s as [|c s IH]; intros r; simpl; [done|].
  intros [Hc Hs]%andb_true_iff.
  destruct (isspace c); [destruct r|]; simpl; rewrite ?Hp, ?Hc; simpl; by apply IH.
Qed.

Lemma end_anchor_cases r rest :
  end_anchor r = Some rest →
  (r = "" ∧ rest = "")
  ∨ (last r = Some "."%char ∨ last r = Some "010"%char).
Proof.
  unfold end_anchor.
  destruct (String.eqb_spec r "") as [->|_]; [intros [= <-]; by left|].
  destruct (String.eqb_spec r ".") as [->|_]; [right; by left|].
  destruct (String.eqb_spec r newline) as [->|_]; [right; by right|].
  destruct (String.eqb_spec r ("." +:+ newline)) as [->|_]; [right; by right|].
  done.
Qed.

Lemma forallb_end_anchor p r rest :
  end_anchor r = Some rest → forallb p r = true → forallb p rest = true.
Proof.
  unfold end_anchor.
  destruct (String.eqb_spec r "") as [->|_]; [by intros [= <-]|].
  destruct (String.eqb_spec r ".") as [->|_]; [by intros [= <-]|].
  destruct (String.eqb_spec r newline) as [->|_]; [by intros [= <-]|].
  destruct (String.eqb_spec r ("." +:+ newline)) as [->|_]; [|done].
  intros [= <-]. simpl. by intros [_ ?]%andb_true_iff.
Qed.

Lemma tokens_nonempty t : In t suffix_tokens → ∃ c t', t = String c t'.
Proof. unfold suffix_tokens. simpl. intros H. repeat (destruct H as [<-|H]; [eauto|]). done. Qed.

Lemma search_suffix_from_spec prev s b rest :
  search_suffix_from prev s = Some (b, rest) →
  ∃ t r, In t suffix_tokens ∧ s = b +:+ t +:+ r ∧ end_anchor r = Some rest
         ∧ word_boundary (last_or prev b) (head t) = true.
Proof.
  revert prev b. induction s as [|c s IH]; intros prev b; simpl.
  - destruct (suffix_at prev "") as [rest'|] eqn:E; [|done].
    intros [= <- <-]. unfold suffix_at in E.
    destruct (word_boundary prev (head "")) eqn:Hb; [|done].
    apply first_some_in in E as (t & Ht & E). unfold token_at in E.
    destruct (tokens_nonempty t Ht) as (a & t' & ->). done.
  - destruct (suffix_at prev (String c s)) as [rest'|] eqn:E.
    + intros [= <- <-]. unfold suffix_at in E.
      destruct (word_boundary prev (head (String c s))) eqn:Hb; [|done].
      apply first_some_in in E as (t & Ht & E). unfold token_at in E.
      destruct (strip_prefix t (String c s)) as [r|] eqn:Hp; [|done].
      destruct (word_boundary (last t) (head r)); [|done].
      exists t, r. split; [done|]. rewrite append_nil.
      pose proof (strip_prefix_app _ _ _ Hp) as Hs.
      split; [done|]. split; [done|].
      destruct (tokens_nonempty t Ht) as (a & t' & ->).
      rewrite append_cons in Hs. injection Hs as <- _. done.
    + destruct (search_suffix_from (Some c) s) as [[b' rest']|] eqn:Hs; [|done].
      intros [= <- <-].
      destruct (IH _ _ Hs) as (t & r & Ht & -> & Hr & Hb).
      exists t, r. rewrite append_cons. repeat split; try done.
      unfold last_or in *. rewrite last_cons. by destruct (last b').
Qed.

Lemma forallb_search_suffix p prev s b rest :
  search_suffix_from prev s = Some (b, rest) →
  forallb p s = true → forallb p (b +:+ rest) = true.
Proof.
  intros H Hs. apply search_suffix_from_spec in H as (t & r & _ & -> & Hr & _).
  rewrite !forallb_app in *.
  apply andb_true_iff in Hs as [Hb [_ Hr']%andb_true_iff].
  rewrite Hb. simpl. by eapply forallb_end_anchor.
Qed.

Lemma forallb_sub_suffix p : keeps p sub_suffix.
Proof.
  intros s Hs. unfold sub_suffix, search_suffix.
  destruct (search_suffix_from None s) as [[b rest]|] eqn:E; [|done].
  by eapply forallb_search_suffix.
Qed.

Lemma spaced_weaken r s : spaced r s = true → spaced false s = true.
Proof.
  destruct s as [|c s]; simpl; [done|]. destruct (isspace c); [|done].
  destruct r; [by rewrite andb_false_r|done].
Qed.

Lemma spaced_sub_spaces_from r s : spaced r (sub_spaces_from r s) = true.
Proof.
  revert r. induction s as [|c s IH]; intros r; simpl; [done|].
  destruct (isspace c) eqn:Hc.
  - destruct r; [done|]. simpl. by rewrite IH.
  - simpl. by rewrite Hc.
Qed.

Lemma sub_spaces_from_id r s : spaced r s = true → sub_spaces_from r s = s.
Proof.
  revert r. induction s as [|c s IH]; intros r; simpl; [done|].
  destruct (isspace c) eqn:Hc.
  - intros [[Hb Hr%negb_true_iff]%andb_true_iff Hs]%andb_true_iff.
    apply Ascii.eqb_eq in Hb. subst. by rewrite (IH _ Hs).
  - intros Hs. by rewrite (IH _ Hs).
Qed.

Lemma spaced_lstrip s : spaced false s = true → spaced false (lstrip s) = true.
Proof.
  induction s as [|c s IH]; simpl; [done|].
  destruct (isspace c) eqn:Hc; simpl; [|by rewrite Hc].
  intros [_ Hs]%andb_true_iff. by eapply IH, spaced_weaken.
Qed.

Lemma spaced_rstrip r s : spaced r s = true → spaced r (rstrip s) = true.
Proof.
  revert r. induction s as [|c s IH]; intros r; simpl; [done|].
  destruct (isspace c) eqn:Hc.
  - intros [Hb Hs]%andb_true_iff. specialize (IH _ Hs).
    destruct (rstrip s) as [|d u]; [done|].
    change (spaced r (String c (String d u)))
      with (if isspace c then Ascii.eqb c " " && negb r && spaced true (String d u)
            else spaced false (String d u)).
    by rewrite Hc, Hb, IH.
  - intros Hs. specialize (IH _ Hs).
    destruct (rstrip s) as [|d u]; [simpl; by rewrite Hc|].
    change (spaced r (String c (String d u)))
      with (if isspace c then Ascii.eqb c " " && negb r && spaced true (String d u)
            else spaced false (String d u)).
    by rewrite Hc.
Qed.

Lemma filter_sub_spaces_from r s :
  filter (λ c, negb (isspace c)) (sub_spaces_from r s)
  = filter (λ c, negb (isspace c)) s.
Proof.
  revert r. induction s as [|c s IH]; intros r; simpl; [done|].
  destruct (isspace c) eqn:Hc; simpl.
  - destruct r; simpl; by rewrite IH.
  - by rewrite Hc, IH.
Qed.

End ReFacts.

(* ===================================================================== *)
(** * The field normalizer                                                *)
(* ===================================================================== *)

Module NormalizerFacts.
Import PyStr PyStrFacts Re ReFacts.

Lemma forallb_impl (p q : ascii → bool) s :
  (∀ c, p c = true → q c = true) → forallb p s = true → forallb q s = true.
Proof.
  intros Hpq. induction s as [|c s IH]; [done|]. cbn [forallb].
  intros [Hc Hs]%andb_true_iff. by rewrite (Hpq _ Hc), IH.
Qed.

Lemma forallb_lower s : forallb lowered (lower s) = true.
Proof.
  induction s as [|c s IH]; [done|]. unfold lower in *. cbn [map forallb].
  rewrite IH, andb_true_r. unfold lowered. rewrite lower_char_idem.
  apply Ascii.eqb_refl.
Qed.

Lemma normalize_company_name_str x :
  normalize_company_name (Str x) = normalize_str x.
Proof.
  unfold normalize_company_name, py_truthy, py_str. rewrite negb_involutive.
  by destruct (String.eqb_spec x "") as [->|].
Qed.

Lemma keeps_normalize_post p : p " "%char = true → keeps p normalize_post.
Proof.
  intros Hp s Hs. unfold normalize_post.
  by apply forallb_strip, forallb_sub_spaces_from, forallb_strip.
Qed.

Lemma normalize_pre_lowered x : forallb lowered (normalize_pre x) = true.
Proof. apply forallb_sub_punct; [done|]. apply forallb_lower. Qed.

Lemma normalize_pre_texty x : forallb texty (normalize_pre x) = true.
Proof. apply forallb_sub_punct_class. Qed.

Lemma normalize_str_lowered x : forallb lowered (normalize_str x) = true.
Proof.
  apply keeps_normalize_post; [done|].
  apply forallb_sub_suffix, normalize_pre_lowered.
Qed.

Lemma normalize_str_texty x : forallb texty (normalize_str x) = true.
Proof.
  apply keeps_normalize_post; [done|].
  apply forallb_sub_suffix, normalize_pre_texty.
Qed.

Lemma normalize_post_spaced s : spaced false (normalize_post s) = true.
Proof.
  unfold normalize_post, strip.
  apply spaced_rstrip, spaced_lstrip, (spaced_sub_spaces_from false).
Qed.

Lemma lower_id s : forallb lowered s = true → lower s = s.
Proof. apply forallb_map_id. Qed.

Lemma sub_punct_id s : forallb texty s = true → sub_punct s = s.
Proof.
  intros H. apply forallb_map_id. revert H. apply forallb_impl.
  intros c Hc. unfold texty in Hc. rewrite Hc. apply Ascii.eqb_refl.
Qed.

(** Apart from the suffix step, a normalized name is a fixed point of every
    step of the normalizer. *)
Lemma normalize_pre_fixed x : normalize_pre (normalize_str x) = normalize_str x.
Proof.
  unfold normalize_pre.
  rewrite (stripped_strip (normalize_str x)) by apply strip_stripped.
  rewrite lower_id by apply normalize_str_lowered.
  apply sub_punct_id, normalize_str_texty.
Qed.

Lemma normalize_post_fixed x : normalize_post (normalize_str x) = normalize_str x.
Proof.
  unfold normalize_post at 1.
  rewrite (stripped_strip (normalize_str x)) by apply strip_stripped.
  unfold sub_spaces. rewrite sub_spaces_from_id by apply normalize_post_spaced.
  apply stripped_strip, strip_stripped.
Qed.

(** The text handed to the suffix step ends in a word character or a blank:
    never in a dot or a newline. *)
Lemma normalize_pre_last x c :
  last (normalize_pre x) = Some c → isword c = true ∨ c = " "%char.
Proof.
  unfold normalize_pre, sub_punct, lower. rewrite !last_map.
  destruct (last (strip x)) as [d|] eqn:Hd; [|done].
  unfold fmap, option_fmap, option_map. intros H.
  apply (inj Some) in H. rewrite <- H. clear H c.
  assert (isspace d = false) as Hsp by (by eapply (proj2 (strip_stripped x))).
  rewrite isspace_lower_char, Hsp, orb_false_r.
  destruct (isword (lower_char d)) eqn:Hw; [by left|by right].
Qed.

Lemma normalize_post_keeps_text s :
  filter (λ c, negb (isspace c)) (normalize_post s)
  = filter (λ c, negb (isspace c)) s.
Proof.
  unfold normalize_post, sub_spaces.
  by rewrite filter_strip, filter_sub_spaces_from, filter_strip.
Qed.

End NormalizerFacts.

Section NormalizerTheorems.
Import PyStr PyStrFacts Re ReFacts NormalizerFacts.

Example normalize_twice_differs :
  normalize_company_name (Str "acme inc inc") = "acme inc"
  ∧ normalize_company_name (Str "acme inc") = "acme".
Proof. by vm_compute. Qed.

(** C2 (as the specification states it): the normalizer is not idempotent.
    A name that ends in two suffix tokens loses one of them per pass. *)
Lemma normalize_not_idempotent :
  normalize_company_name (Str (normalize_company_name (Str "acme inc inc")))
  ≠ normalize_company_name (Str "acme inc inc").
Proof. by vm_compute. Qed.

(** C2 (amended): normalizing a normalized name returns it unchanged whenever
    the suffix pattern finds nothing (more) to strip in it; every other step
    of the normalizer leaves a normalized name as it is. *)
Theorem normalize_idempotent_without_suffix (x : string) :
  Re.search_suffix (normalize_company_name (Str x)) = None →
  normalize_company_name (Str (normalize_company_name (Str x)))
  = normalize_company_name (Str x).
Proof.
  rewrite !normalize_company_name_str. intros Hnone.
  unfold normalize_str at 1. rewrite normalize_pre_fixed.
  unfold sub_suffix. rewrite Hnone. apply normalize_post_fixed.
Qed.

Lemma normalize_idempotent_without_suffix_witness :
  normalize_company_name (Str (normalize_company_name (Str "Acme, Inc")))
  = normalize_company_name (Str "Acme, Inc").
Proof. apply normalize_idempotent_without_suffix. by vm_compute. Defined.

(** C4 (as the specification states it, for the cleaning of
    [match_by_name_and_company]): a suffix token that does not end the name is
    stripped all the same. *)
Lemma clean_company_strips_leading_token :
  RawData.clean_company "group health" = "health"
  ∧ ¬ strips_only_trailing RawData.suffix_tokens
        "group health" (RawData.remove_suffixes "group health").
Proof.
  split; [by vm_compute|].
  replace (RawData.remove_suffixes "group health") with " health" by (by vm_compute).
  intros [H|(t & _ & H & _)]; [done|].
  rewrite append_cons in H. done.
Qed.

(** C4 (amended, for [normalize_company_name]): the name returned is the
    clean-up ([normalize_post]) of a text [r] that is the lower-cased,
    punctuation-free input, either whole or without one listed token that ends
    it and starts at a word boundary; everything else in the input, a listed
    token that is not the last word included, is kept. *)
Theorem suffix_stripped_only_when_trailing (x : string) :
  ∃ r, strips_only_trailing Re.suffix_tokens (normalize_pre x) r
       ∧ normalize_company_name (Str x) = normalize_post r
       ∧ text_of (normalize_company_name (Str x)) = text_of r.
Proof.
  rewrite normalize_company_name_str. unfold normalize_str, sub_suffix, search_suffix.
  destruct (search_suffix_from None (normalize_pre x)) as [[b rest]|] eqn:E.
  - apply search_suffix_from_spec in E as (t & r & Ht & Hs & Hr & Hb).
    assert (r = "" ∧ rest = "") as [-> ->].
    { apply end_anchor_cases in Hr as [?|Hr]; [done|]. exfalso.
      assert (r ≠ "") as Hne by (intros ->; by destruct Hr).
      assert (last (normalize_pre x) = last r) as Hl.
      { rewrite Hs, <- append_assoc. by apply last_app_nonempty. }
      destruct Hr as [Hr|Hr]; rewrite Hr in Hl;
        apply normalize_pre_last in Hl as [Hl|Hl]; by vm_compute in Hl. }
    rewrite !append_empty_r in *. exists b. split; [|split].
    + right. exists t. split; [done|]. split; [done|].
      unfold last_or in Hb. by destruct (last b).
    + done.
    + apply normalize_post_keeps_text.
  - exists (normalize_pre x). split; [by left|]. split; [done|].
    apply normalize_post_keeps_text.
Qed.

End NormalizerTheorems.

(* ===================================================================== *)
(** * [match_unmatched_by_email_then_fuzzy]: blocking and scoring         *)
(* ===================================================================== *)

Section EmailThenFuzzyFacts.

Variable token_set_ratio : string → string → Z.
Variable threshold : Z.
Variable adv : DataFrame.

Local Abbreviation score key i := (token_set_ratio key (adv_key adv i)).

Lemma elem_of_unused_adv used i :
  i ∈ unused_adv adv used ↔ used !! i = Some false ∧ (i < length (rows adv))%nat.
Proof.
  unfold unused_adv.
  rewrite list_elem_of_filter, elem_of_seq. split.
  - intros [? [_ ?]]. split; [done|lia].
  - intros [? ?]. split; [done|lia].
Qed.

Lemma elem_of_adv_matches used e i :
  i ∈ adv_matches adv used e →
  used !! i = Some false ∧ (Str <$> adv_email_norm adv !! i) = Some e.
Proof.
  unfold adv_matches. rewrite list_elem_of_filter. by intros [[? ?] _].
Qed.

Lemma domain_block_spec unused dom pool :
  domain_block adv unused dom = Ok pool →
  pool ⊆ unused ∧ (unused ≠ [] → pool ≠ []).
Proof.
  unfold domain_block. case_bool_decide; [by intros [= <-]|].
  destruct (has_col adv adv_email_col); [|done].
  case_bool_decide as Hlen; intros [= <-]; [|done].
  split; [intros i [_ ?]%list_elem_of_filter; done|].
  intros _ E. rewrite E in Hlen. simpl in Hlen. lia.
Qed.

Lemma initials_block_spec unused candidates sw_first sw_last pool :
  initials_block adv unused candidates sw_first sw_last = Ok pool →
  (candidates ⊆ unused → pool ⊆ unused)
  ∧ (unused ≠ [] → candidates ≠ [] → pool ≠ []).
Proof.
  unfold initials_block.
  destruct (_ && _ && _).
  - destruct (has_col adv adv_first_col); [|done].
    destruct (has_col adv adv_last_col); [|done].
    case_bool_decide as Hlen; intros [= <-]; [done|].
    split; [intros _ i [_ ?]%list_elem_of_filter; done|].
    intros _ _ E. by rewrite E in Hlen.
  - by intros [= <-].
Qed.

(** The pool holds unused rows only, and is empty only when no row is
    unused. *)
Lemma block_spec used sw_row pool :
  block adv used sw_row = Ok pool →
  pool ⊆ unused_adv adv used ∧ (unused_adv adv used ≠ [] → pool ≠ []).
Proof.
  unfold block, bind.
  destruct (domain_block _ _ _) as [candidates|] eqn:Hd; [|done].
  intros Hi. apply domain_block_spec in Hd as [Hd1 Hd2].
  apply initials_block_spec in Hi as [Hi1 Hi2]. split; auto.
Qed.

Lemma block_unused used sw_row pool i :
  block adv used sw_row = Ok pool → i ∈ pool → used !! i = Some false.
Proof.
  intros [Hsub _]%block_spec Hi. by apply Hsub, elem_of_unused_adv in Hi as [? _].
Qed.

(** With the three columns it reads, blocking raises nothing. *)
Lemma block_total used sw_row :
  has_col adv adv_email_col = true →
  has_col adv adv_first_col = true →
  has_col adv adv_last_col = true →
  ∃ pool, block adv used sw_row = Ok pool.
Proof.
  intros He Hf Hl. unfold block, domain_block, initials_block, bind.
  rewrite He, Hf, Hl.
  case_bool_decide; destruct (_ && _ && _); eauto.
Qed.

Lemma score_step_best key seen best j :
  best_so_far (λ i, token_set_ratio key (adv_key adv i)) seen best →
  best_so_far (λ i, token_set_ratio key (adv_key adv i)) (seen ++ [j]) (score_step token_set_ratio adv key best j).
Proof.
  intros [Hmax Hbest]. unfold score_step, best_so_far in *.
  case_bool_decide as Hlt; simpl in *.
  - split.
    + intros j' [Hj'|Hj']%elem_of_app.
      * specialize (Hmax _ Hj'). lia.
      * apply list_elem_of_singleton in Hj' as ->. lia.
    + split.
      { destruct best.2; [lia|]. lia. }
      exists (length seen). split; [by rewrite lookup_app_r, Nat.sub_diag|].
      split; [done|]. intros k' j' Hk' Hj'.
      rewrite lookup_app_l in Hj' by done.
      apply list_elem_of_lookup_2, Hmax in Hj'. lia.
  - split.
    + intros j' [Hj'|Hj']%elem_of_app; [auto|].
      apply list_elem_of_singleton in Hj' as ->. lia.
    + destruct best.2 as [i|]; [|done].
      destruct Hbest as (Hpos & k & Hk & Hs & Hfirst). split; [done|].
      exists k. pose proof (lookup_lt_Some _ _ _ Hk).
      split; [by rewrite lookup_app_l|]. split; [done|].
      intros k' j' Hk' Hj'. rewrite lookup_app_l in Hj' by lia. eauto.
Qed.

Lemma fold_score_step_best key seen pool best :
  best_so_far (λ i, token_set_ratio key (adv_key adv i)) seen best →
  best_so_far (λ i, token_set_ratio key (adv_key adv i)) (seen ++ pool) (fold_left (score_step token_set_ratio adv key) pool best).
Proof.
  revert seen best. induction pool as [|j pool IH]; intros seen best H.
  - by rewrite app_nil_r.
  - simpl. replace (seen ++ j :: pool) with ((seen ++ [j]) ++ pool)
      by (by rewrite <- app_assoc).
    by apply IH, score_step_best.
Qed.

Lemma best_match_spec key pool :
  best_so_far (λ i, token_set_ratio key (adv_key adv i)) pool (best_match token_set_ratio adv key pool).
Proof. apply (fold_score_step_best key [] pool (0, None)). by split; [intros ? ?%elem_of_nil|]. Qed.

Lemma best_match_elem key pool s i :
  best_match token_set_ratio adv key pool = (s, Some i) → i ∈ pool.
Proof.
  intros E. pose proof (best_match_spec key pool) as [_ H]. rewrite E in H.
  destruct H as (_ & k & Hk & _). by eapply list_elem_of_lookup_2.
Qed.

Lemma fuzzy_stage_consumes used sw_row d used' :
  fuzzy_stage token_set_ratio threshold adv used sw_row = Ok (d, used') →
  match consumed d with
  | Some i => used !! i = Some false ∧ used' = <[i := true]> used
  | None => used' = used
  end.
Proof.
  unfold fuzzy_stage, bind.
  destruct (block adv used sw_row) as [pool|] eqn:Hb; [|done].
  destruct (best_match token_set_ratio adv (sw_key sw_row) pool) as [s [i|]] eqn:Hs;
    [case_bool_decide|]; intros [= <- <-]; simpl; try done.
  split; [|done]. eapply block_unused; [done|]. by eapply best_match_elem.
Qed.

(** One iteration consumes an unused row, or none. *)
Lemma decide_row_consumes used sw_row d used' :
  decide_row token_set_ratio threshold adv used sw_row = Ok (d, used') →
  match consumed d with
  | Some i => used !! i = Some false ∧ used' = <[i := true]> used
  | None => used' = used
  end.
Proof.
  unfold decide_row.
  set (e := row_get sw_row "_email_norm" (Str "")).
  destruct (bool_decide (e ≠ Str "")); [|apply fuzzy_stage_consumes].
  destruct (adv_matches adv used e) as [|i m] eqn:Hm; [apply fuzzy_stage_consumes|].
  intros [= <- <-]. simpl. split; [|done].
  assert (i ∈ adv_matches adv used e) as Hi by (rewrite Hm; left).
  by apply elem_of_adv_matches in Hi as [? _].
Qed.

Lemma consumed_list_cons d r out :
  consumed_list ((d, r) :: out)
  = match consumed d with Some i => i :: consumed_list out | None => consumed_list out end.
Proof. done. Qed.

Lemma match_rows_cons sw_idx used sw_row rest out used'' :
  match_rows token_set_ratio threshold adv sw_idx used (sw_row :: rest) = Ok (out, used'') →
  ∃ d used' out',
    decide_row token_set_ratio threshold adv used sw_row = Ok (d, used')
    ∧ match_rows token_set_ratio threshold adv (S sw_idx) used' rest = Ok (out', used'')
    ∧ out = (d, rec_of adv sw_idx sw_row d) :: out'.
Proof.
  simpl. unfold bind.
  destruct (decide_row token_set_ratio threshold adv used sw_row)
    as [[d used']|] eqn:Hd; [|done].
  destruct (match_rows token_set_ratio threshold adv (S sw_idx) used' rest)
    as [[out' u]|] eqn:Hrest; [|done].
  intros [= <- <-]. by exists d, used', out'.
Qed.

(** The loop invariant: flags only go up, every consumed position was
    unused before the loop and is used after it, and none is consumed twice. *)
Lemma match_rows_inv sw_idx used sw_rows out used' :
  match_rows token_set_ratio threshold adv sw_idx used sw_rows = Ok (out, used') →
  length out = length sw_rows
  ∧ (∀ i, used !! i = Some true → used' !! i = Some true)
  ∧ (∀ i, i ∈ consumed_list out → used !! i = Some false ∧ used' !! i = Some true)
  ∧ NoDup (consumed_list out).
Proof.
  revert sw_idx used out used'.
  induction sw_rows as [|sw_row rest IH]; intros sw_idx used out used'.
  - intros [= <- <-]. split_and!; [done|done| |constructor].
    intros i Hi. by apply elem_of_nil in Hi.
  - intros (d & u1 & out' & Hd & Hrest & ->)%match_rows_cons.
    apply decide_row_consumes in Hd.
    destruct (IH _ _ _ _ Hrest) as (Hlen & Hmono & Hcons & Hnd).
    rewrite consumed_list_cons. destruct (consumed d) as [i|].
    + destruct Hd as [Hi ->].
      pose proof (lookup_lt_Some _ _ _ Hi) as Hlt.
      assert (<[i:=true]> used !! i = Some true) as Hi'
        by (by apply list_lookup_insert_eq).
      split_and!.
      * simpl. by rewrite Hlen.
      * intros j Hj. apply Hmono. rewrite list_lookup_insert_ne; [done|].
        intros ->. congruence.
      * intros j [->|Hj]%elem_of_cons; [split; [done|by apply Hmono]|].
        apply Hcons in Hj as [Hj ?]. split; [|done].
        rewrite list_lookup_insert_ne in Hj; [done|]. intros ->. congruence.
      * constructor; [|done]. intros Hj. apply Hcons in Hj as [Hj _]. congruence.
    + subst u1. split_and!; [simpl; by rewrite Hlen|done|done|done].
Qed.

(** The state in which row [n] is decided is the state the loop reaches on
    the rows before it. *)
Lemma match_rows_lookup sw_idx used sw_rows out used' n sw_row :
  match_rows token_set_ratio threshold adv sw_idx used sw_rows = Ok (out, used') →
  sw_rows !! n = Some sw_row →
  ∃ u d u',
    match_rows token_set_ratio threshold adv sw_idx used (take n sw_rows) = Ok (take n out, u)
    ∧ decide_row token_set_ratio threshold adv u sw_row = Ok (d, u')
    ∧ out !! n = Some (d, rec_of adv (sw_idx + n) sw_row d).
Proof.
  revert sw_idx used out n.
  induction sw_rows as [|r rest IH]; intros sw_idx used out n; [done|].
  intros (d & u1 & out' & Hd & Hrest & ->)%match_rows_cons Hn.
  destruct n as [|n].
  - injection Hn as ->. exists used, d, u1. rewrite Nat.add_0_r. done.
  - simpl in Hn. destruct (IH _ _ _ _ Hrest Hn) as (u & d' & u' & Htake & Hd' & Hout).
    exists u, d', u'. split; [|split; [done|]].
    + cbn [take match_rows]. unfold bind. by rewrite Hd, Htake.
    + simpl. by rewrite Hout, Nat.add_succ_r.
Qed.

(** With the three columns that blocking reads, the loop raises nothing. *)
Lemma fuzzy_stage_total used sw_row :
  has_col adv adv_email_col = true →
  has_col adv adv_first_col = true →
  has_col adv adv_last_col = true →
  ∃ d used', fuzzy_stage token_set_ratio threshold adv used sw_row = Ok (d, used').
Proof.
  intros He Hf Hl. unfold fuzzy_stage, bind.
  destruct (block_total used sw_row He Hf Hl) as [pool ->].
  destruct (best_match _ _ _ pool) as [s [i|]]; [case_bool_decide|]; eauto.
Qed.

Lemma decide_row_total used sw_row :
  has_col adv adv_email_col = true →
  has_col adv adv_first_col = true →
  has_col adv adv_last_col = true →
  ∃ d used', decide_row token_set_ratio threshold adv used sw_row = Ok (d, used').
Proof.
  intros He Hf Hl. unfold decide_row.
  destruct (bool_decide _); [destruct (adv_matches _ _ _)|];
    eauto using fuzzy_stage_total.
Qed.

Lemma match_rows_total sw_idx used sw_rows :
  has_col adv adv_email_col = true →
  has_col adv adv_first_col = true →
  has_col adv adv_last_col = true →
  ∃ out used', match_rows token_set_ratio threshold adv sw_idx used sw_rows
               = Ok (out, used').
Proof.
  intros He Hf Hl. revert sw_idx used.
  induction sw_rows as [|r rest IH]; intros sw_idx used; [by eexists _, _|].
  simpl. unfold bind.
  destruct (decide_row_total used r He Hf Hl) as (d & u & ->).
  destruct (IH (S sw_idx) u) as (out & u' & ->). by eexists _, _.
Qed.

Lemma match_unmatched_decisions_total sw :
  has_col adv adv_email_col = true →
  has_col adv adv_first_col = true →
  has_col adv adv_last_col = true →
  ∃ out, match_unmatched_decisions token_set_ratio threshold adv sw = Ok out.
Proof.
  intros He Hf Hl. unfold match_unmatched_decisions, bind.
  destruct (match_rows_total 0 (init_used adv) (with_email_norm sw) He Hf Hl)
    as (out & u & ->). by exists out.
Qed.

Lemma init_used_lookup i b : init_used adv !! i = Some b → b = false.
Proof. unfold init_used. by intros [-> _]%lookup_replicate. Qed.

End EmailThenFuzzyFacts.

(* ===================================================================== *)
(** * Output records                                                      *)
(* ===================================================================== *)

Section RecordFacts.

(** Spell a literal prefix out as characters, so keys compare by them. *)
Ltac spell := rewrite ?PyStrFacts.append_cons, ?PyStrFacts.append_nil in *.

Lemma prefixed_lookup p (d : row) k : prefixed p d !! (p +:+ k) = d !! k.
Proof. unfold prefixed. apply (lookup_kmap (String.append p)). Qed.

Lemma prefixed_lookup_Some p (d : row) k v :
  prefixed p d !! k = Some v → ∃ c, k = p +:+ c ∧ d !! c = Some v.
Proof. unfold prefixed. by rewrite (lookup_kmap_Some (String.append p)). Qed.

Lemma prefixed_lookup_other p (d : row) k :
  (∀ c, k ≠ p +:+ c) → prefixed p d !! k = None.
Proof.
  intros H. unfold prefixed. apply (lookup_kmap_None (String.append p)).
  intros c ->. by destruct (H c).
Qed.

Lemma startswith_append p k : PyStr.startswith (p +:+ k) p = true.
Proof.
  unfold PyStr.startswith.
  induction p as [|a p IH]; [done|].
  rewrite PyStrFacts.append_cons. simpl. by rewrite Ascii.eqb_refl.
Qed.

Lemma startswith_inv k p :
  PyStr.startswith k p = true → ∃ c, k = p +:+ c.
Proof.
  unfold PyStr.startswith.
  destruct (PyStr.strip_prefix p k) as [r|] eqn:E; [|done].
  intros _. exists r. by apply PyStrFacts.strip_prefix_app.
Qed.

Lemma adv_nulls_lookup adv k v :
  adv_nulls adv !! k = Some v →
  v = PyNone ∧ ∃ c, k = "adv_" +:+ c ∧ c ∈ columns adv ∧ public_name c = true.
Proof.
  unfold adv_nulls. intros H%elem_of_list_to_map_2.
  apply list_elem_of_fmap in H as (c & [= -> ->] & Hc).
  apply list_elem_of_In, filter_In in Hc as [Hc Hp].
  split; [done|]. exists c. by rewrite list_elem_of_In.
Qed.

Lemma adv_nulls_column adv c :
  c ∈ columns adv → public_name c = true →
  adv_nulls adv !! ("adv_" +:+ c) = Some PyNone.
Proof.
  intros Hc Hp.
  destruct (adv_nulls adv !! ("adv_" +:+ c)) as [v|] eqn:E.
  - by apply adv_nulls_lookup in E as [-> _].
  - exfalso. unfold adv_nulls in E. apply not_elem_of_list_to_map in E.
    apply E. rewrite <- list_fmap_compose.
    apply list_elem_of_fmap. exists c. split; [done|].
    apply list_elem_of_In, filter_In. by rewrite <- list_elem_of_In.
Qed.

Lemma annotate_score a i r kind s :
  annotate a i r kind s !! "Match_Score" = Some (Num s).
Proof. unfold annotate. by rewrite lookup_insert_eq. Qed.

Lemma annotate_kind a i r kind s :
  annotate a i r kind s !! "Matched_or_not" = Some (Str kind).
Proof.
  unfold annotate. rewrite lookup_insert_ne by done. by rewrite lookup_insert_eq.
Qed.

Lemma annotate_index a i r kind s :
  annotate a i r kind s !! "schwab__index" = Some (Num (Z.of_nat i)).
Proof.
  unfold annotate. rewrite !lookup_insert_ne by done. by rewrite lookup_insert_eq.
Qed.

(** The contact part of a record is read under the keys that start with
    [adv_]: no Schwab field and no summary column has such a key. *)
Lemma annotate_adv a i r kind s k :
  PyStr.startswith k "adv_" = true →
  annotate a i r kind s !! k = a !! k.
Proof.
  intros (c & ->)%startswith_inv. unfold annotate.
  rewrite !lookup_insert_ne by (spell; done).
  rewrite lookup_union_r; [done|]. apply prefixed_lookup_other.
  intros c'. by spell.
Qed.

(** Every field of the Schwab row is in the record, under its name with
    [schwab_] before it. *)
Lemma annotate_schwab a i r kind s c v :
  r !! c = Some v → c ≠ "_index" →
  annotate a i r kind s !! ("schwab_" +:+ c) = Some v.
Proof.
  intros Hc Hne. unfold annotate.
  rewrite !lookup_insert_ne; [| |by spell|by spell].
  - apply lookup_union_Some_l. by rewrite prefixed_lookup.
  - spell. intros H. apply Hne. by injection H.
Qed.

Lemma rec_of_index adv i r d :
  rec_of adv i r d !! "schwab__index" = Some (Num (Z.of_nat i)).
Proof. destruct d; apply annotate_index. Qed.

Lemma rec_of_schwab adv i r d c v :
  r !! c = Some v → c ≠ "_index" →
  rec_of adv i r d !! ("schwab_" +:+ c) = Some v.
Proof. destruct d; apply annotate_schwab. Qed.

(** The records of the unmatched rows. *)
Lemma rec_of_unmatched adv i r :
  rec_of adv i r Unmatched !! "Matched_or_not" = Some (Str "unmatched")
  ∧ rec_of adv i r Unmatched !! "Match_Score" = Some (Num 0)
  ∧ (∀ c, c ∈ columns adv → public_name c = true →
       rec_of adv i r Unmatched !! ("adv_" +:+ c) = Some PyNone)
  ∧ (∀ k v, PyStr.startswith k "adv_" = true →
       rec_of adv i r Unmatched !! k = Some v → v = PyNone).
Proof.
  simpl. split_and!.
  - apply annotate_kind.
  - apply annotate_score.
  - intros c Hc Hp. rewrite annotate_adv by apply startswith_append.
    by apply adv_nulls_column.
  - intros k v Hk. rewrite annotate_adv by done.
    by intros [-> _]%adv_nulls_lookup.
Qed.

(** Lines 272-273 change no key but the domain column's. *)
Lemma attach_domain_length sw (final_rows : list row) :
  length final_rows = length (rows sw) →
  length (attach_domain sw final_rows) = length final_rows.
Proof.
  intros Hlen. unfold attach_domain. destruct (_ && _); [|done].
  rewrite length_zip_with. lia.
Qed.

Lemma attach_domain_lookup sw (final_rows : list row) n r :
  length final_rows = length (rows sw) →
  final_rows !! n = Some r →
  ∃ r', attach_domain sw final_rows !! n = Some r'
        ∧ (∀ k, k ≠ "schwab_" +:+ schwab_email_domain_col → r' !! k = r !! k)
        ∧ (∀ v, r !! ("schwab_" +:+ schwab_email_domain_col) = Some v →
             r' !! ("schwab_" +:+ schwab_email_domain_col) = Some v).
Proof.
  intros Hlen Hn. unfold attach_domain.
  destruct (has_col sw schwab_email_domain_col); simpl; [|by exists r].
  destruct (existsb _ final_rows) eqn:Hex; simpl; [by exists r|].
  assert (is_Some (rows sw !! n)) as [sw_row Hsw].
  { apply lookup_lt_is_Some. rewrite <- Hlen. by eapply lookup_lt_Some. }
  eexists. split; [by rewrite lookup_zip_with, Hn, Hsw|]. split.
  - intros k Hk. by rewrite lookup_insert_ne by done.
  - intros v Hv. exfalso.
    assert (existsb (λ r, bool_decide (is_Some
              (r !! ("schwab_" +:+ schwab_email_domain_col)))) final_rows = true);
      [|congruence].
    apply existsb_exists. exists r. split.
    + apply list_elem_of_In. by eapply list_elem_of_lookup_2.
    + apply bool_decide_eq_true. by exists v.
Qed.

End RecordFacts.

(* ===================================================================== *)
(** * [match_by_name_and_company]: blocking, selection                    *)
(* ===================================================================== *)

Section ScoreFacts.

(** [int] leaves an integer score as it is. *)
Lemma py_int_of_Z z : py_int (Qc_of_Z z) = z.
Proof. unfold py_int. simpl. apply Z.quot_1_r. Qed.

(** A score of 1 or more has an integer part of 1 or more. *)
Lemma py_int_pos x : (1 ≤ x)%Qc → 1 ≤ py_int x.
Proof.
  unfold py_int, Qcle, Qle. simpl. rewrite Z.mul_1_r, Z.mul_1_l. intros H.
  rewrite <- (Z.quot_same (Z.pos (Qden x))) at 1 by done.
  apply Z.quot_le_mono; lia.
Qed.

End ScoreFacts.

Module RawDataFacts.
Import RawData.

Section Facts.

Variable token_set_ratio : string → string → Qc.
Variable threshold : Z.
Variable adv : list row.

(** The pool is part of the keys, and empty only when there is no key. *)
Lemma raw_block_spec sk :
  block adv sk ⊆ adv_keys adv ∧ (adv_keys adv ≠ [] → block adv sk ≠ []).
Proof.
  unfold block. case_bool_decide; [|done].
  destruct (List.filter (near sk) (adv_keys adv)) as [|k l] eqn:E; [done|].
  split; [|done]. intros x Hx. rewrite <- E in Hx.
  by apply list_elem_of_In, filter_In in Hx as [?%list_elem_of_In _].
Qed.

Lemma extract_step_best sk seen best k :
  best_choice (token_set_ratio sk) seen best →
  best_choice (token_set_ratio sk) (seen ++ [k]) (extract_step token_set_ratio sk best k).
Proof.
  intros [Hs (n & Hn & Hmax & Hfirst)]. unfold extract_step, best_choice.
  pose proof (lookup_lt_Some _ _ _ Hn) as Hlt.
  case_bool_decide as Hlt'; simpl.
  - split; [done|]. exists (length seen). split_and!.
    + by rewrite lookup_app_r, Nat.sub_diag.
    + intros y [Hy|Hy]%elem_of_app.
      * specialize (Hmax _ Hy). rewrite <- Hs in Hmax.
        apply Qclt_le_weak. by eapply Qcle_lt_trans.
      * apply list_elem_of_singleton in Hy as ->. apply Qcle_refl.
    + intros k' y Hk' Hy. rewrite lookup_app_l in Hy by done.
      apply list_elem_of_lookup_2, Hmax in Hy. rewrite <- Hs in Hy.
      by eapply Qcle_lt_trans.
  - split; [done|]. exists n. split_and!.
    + by rewrite lookup_app_l.
    + intros y [Hy|Hy]%elem_of_app; [auto|].
      apply list_elem_of_singleton in Hy as ->. rewrite <- Hs.
      by apply Qcnot_lt_le.
    + intros k' y Hk' Hy. rewrite lookup_app_l in Hy by lia. eauto.
Qed.

Lemma fold_extract_step_best sk seen pool best :
  best_choice (token_set_ratio sk) seen best →
  best_choice (token_set_ratio sk) (seen ++ pool) (fold_left (extract_step token_set_ratio sk) pool best).
Proof.
  revert seen best. induction pool as [|k pool IH]; intros seen best H.
  - by rewrite app_nil_r.
  - simpl. replace (seen ++ k :: pool) with ((seen ++ [k]) ++ pool)
      by (by rewrite <- app_assoc).
    by apply IH, extract_step_best.
Qed.

(** [extractOne] gives the first choice of highest score. *)
Lemma extractOne_spec sk pool :
  match extractOne token_set_ratio sk pool with
  | None => pool = []
  | Some (k, s) =>
      s = token_set_ratio sk k ∧ ∃ n, first_best_score (token_set_ratio sk) pool n k
  end.
Proof.
  destruct pool as [|k0 pool]; [done|]. simpl.
  pose proof (fold_extract_step_best sk [k0] pool (k0, token_set_ratio sk k0)) as H.
  destruct (fold_left _ pool _) as [k s]. apply H.
  split; [done|]. exists 0%nat. split_and!; [done| |intros; lia].
  intros y Hy%list_elem_of_singleton. subst. apply Qcle_refl.
Qed.

Lemma adv_keys_lookup i r k :
  adv !! i = Some r → r !! "Key" = Some (Str k) → adv_keys adv !! i = Some k.
Proof.
  intros Hi Hk. unfold adv_keys. rewrite list_lookup_fmap, Hi. simpl.
  unfold row_get. by rewrite Hk.
Qed.

(** [adv[adv["Key"] == k].iloc[0]] is the first row whose key is [k]. *)
Lemma first_row_of_key k :
  keyed adv → k ∈ adv_keys adv →
  ∃ i r, list_find (λ r, row_get r "Key" NaN = Str k) adv = Some (i, r)
         ∧ adv_keys adv !! i = Some k
         ∧ ∀ j, (j < i)%nat → adv_keys adv !! j ≠ Some k.
Proof.
  intros Hkeyed Hk.
  destruct (list_find (λ r, row_get r "Key" NaN = Str k) adv) as [[i r]|] eqn:E.
  - apply list_find_Some in E as (Hi & Hr & Hfirst).
    exists i, r. split; [done|].
    destruct (Hkeyed r) as (k' & Hk'); [by eapply list_elem_of_lookup_2|].
    unfold row_get in Hr. rewrite Hk' in Hr. injection Hr as ->.
    split; [by eapply adv_keys_lookup|].
    intros j Hj Hjk. unfold adv_keys in Hjk.
    rewrite list_lookup_fmap in Hjk.
    destruct (adv !! j) as [rj|] eqn:Hrj; [|done]. injection Hjk as Hjk.
    destruct (Hkeyed rj) as (kj & Hkj); [by eapply list_elem_of_lookup_2|].
    apply (Hfirst j rj Hrj Hj). unfold row_get in *. rewrite Hkj in *.
    simpl in Hjk. by subst.
  - exfalso. apply list_find_None in E. unfold adv_keys in Hk.
    apply list_elem_of_fmap in Hk as (r & -> & Hr).
    destruct (Hkeyed r Hr) as (k' & Hk').
    rewrite Forall_forall in E. apply (E r Hr).
    unfold row_get. by rewrite Hk'.
Qed.

(** [adv_rows] builds keyed rows. *)
Lemma keyed_rows_keyed df companies keys : keyed (keyed_rows df companies keys).
Proof.
  intros r Hr. unfold keyed_rows, zip_with3 in Hr.
  apply list_elem_of_lookup in Hr as (i & Hi).
  apply lookup_zip_with_Some in Hi as (r0 & [c k] & -> & _ & _).
  exists k. by rewrite lookup_insert_eq.
Qed.

(** What [decide_key] returns, by the first best choice of the pool. *)
Lemma decide_key_spec sk :
  keyed adv →
  (block adv sk = [] ∧ decide_key token_set_ratio threshold adv sk = Ok NoCandidate)
  ∨ ∃ n k,
      first_best_score (token_set_ratio sk) (block adv sk) n k
      ∧ (((token_set_ratio sk k < Qc_of_Z threshold)%Qc
          ∧ decide_key token_set_ratio threshold adv sk
            = Ok (BelowThreshold (token_set_ratio sk k)))
         ∨ ((Qc_of_Z threshold ≤ token_set_ratio sk k)%Qc
            ∧ ∃ i, adv_keys adv !! i = Some k
                   ∧ (∀ j, (j < i)%nat → adv_keys adv !! j ≠ Some k)
                   ∧ decide_key token_set_ratio threshold adv sk
                     = Ok (RawMatched i (token_set_ratio sk k)))).
Proof.
  intros Hkeyed. unfold decide_key.
  pose proof (extractOne_spec sk (block adv sk)) as Hex.
  destruct (extractOne _ sk (block adv sk)) as [[k s]|]; [|by left].
  destruct Hex as [-> (n & Hbest)]. right. exists n, k. split; [done|].
  case_bool_decide as Hthr; [right|left; split; [by apply Qclt_nge|done]].
  split; [done|].
  assert (k ∈ adv_keys adv) as Hin.
  { apply (proj1 (raw_block_spec sk)). destruct Hbest as [Hn _].
    by eapply list_elem_of_lookup_2. }
  destruct (first_row_of_key k Hkeyed Hin) as (i & r & -> & Hi & Hfirst).
  by exists i.
Qed.

(** A row with a text key that is not empty is decided by its key. *)
Lemma decide_row_key r k :
  r !! "Key" = Some (Str k) → k ≠ "" →
  decide_row token_set_ratio threshold adv r
  = decide_key token_set_ratio threshold adv k.
Proof.
  intros Hr Hk. unfold decide_row, row_get. rewrite Hr. simpl.
  by destruct (String.eqb_spec k "").
Qed.

(** The decisions of the loop, read off the keys of the rows. *)
Lemma match_rows_by_keys rs ks ds :
  Forall2 (λ r k, r !! "Key" = Some (Str k)) rs ks →
  Forall2 (λ k d, k ≠ "" ∧ decide_key token_set_ratio threshold adv k = Ok d) ks ds →
  ∃ out, match_rows token_set_ratio threshold adv rs = Ok out ∧ out.*1 = ds.
Proof.
  intros Hrk. revert ds. induction Hrk as [|r k rs ks Hr _ IH]; intros ds Hkd.
  - apply Forall2_nil_inv_l in Hkd as ->. by exists [].
  - apply Forall2_cons_inv_l in Hkd as (d & ds' & [Hk Hd] & Hkd & ->).
    destruct (IH _ Hkd) as (out & Hout & Hds).
    simpl. rewrite (decide_row_key r k Hr Hk), Hd. simpl. rewrite Hout. simpl.
    eexists. split; [done|]. rewrite fmap_cons. simpl. by f_equal.
Qed.

Lemma match_rows_length rs out :
  match_rows token_set_ratio threshold adv rs = Ok out → length out = length rs.
Proof.
  revert out. induction rs as [|r rs IH]; intros out; simpl.
  - by intros [= <-].
  - unfold bind. destruct (decide_row _ _ _ r); [|done].
    destruct (match_rows _ _ _ rs); [|done].
    intros [= <-]. simpl. by rewrite (IH _ eq_refl).
Qed.

End Facts.

Lemma omap_decisions {A} (f : decision → option A) (out : list (decision * row)) :
  omap (λ o, f o.1) out = omap f out.*1.
Proof.
  induction out as [|[d r] out IH]; [done|].
  rewrite fmap_cons. cbn [omap list_omap fst]. by rewrite <- IH.
Qed.

Lemma pick_col_length df candidates d :
  length (pick_col df candidates d) = length (rows df).
Proof. unfold pick_col. destruct (find_col _ _); by rewrite length_fmap. Qed.

Lemma zip_with3_lookup {A B C D} (f : A → B → C → D) la lb lc i :
  zip_with3 f la lb lc !! i
  = a ← la !! i; b ← lb !! i; c ← lc !! i; Some (f a b c).
Proof.
  unfold zip_with3. rewrite lookup_zip_with.
  destruct (la !! i); simpl; [|done]. rewrite lookup_zip_with.
  by destruct (lb !! i), (lc !! i).
Qed.

Lemma zip_with3_length {A B C D} (f : A → B → C → D) la lb lc :
  length lb = length la → length lc = length la →
  length (zip_with3 f la lb lc) = length la.
Proof. intros Hb Hc. unfold zip_with3. rewrite length_zip_with, length_zip_with. lia. Qed.

Lemma sw_keys_length df : length (sw_keys df) = length (rows df).
Proof.
  unfold sw_keys. rewrite zip_with3_length; rewrite ?length_fmap, !pick_col_length; done.
Qed.

Lemma adv_keys_of_length df : length (adv_keys_of df) = length (rows df).
Proof.
  unfold adv_keys_of. rewrite zip_with3_length; rewrite ?length_fmap, !pick_col_length; done.
Qed.

Lemma keyed_rows_lookup df companies keys i r :
  keyed_rows df companies keys !! i = Some r →
  ∃ k, keys !! i = Some k ∧ r !! "Key" = Some (Str k).
Proof.
  unfold keyed_rows. rewrite zip_with3_lookup.
  destruct (rows df !! i), (companies !! i), (keys !! i) as [k|]; simpl; try done.
  intros [= <-]. exists k. by rewrite lookup_insert_eq.
Qed.

Lemma keyed_rows_length df companies keys :
  length companies = length (rows df) → length keys = length (rows df) →
  length (keyed_rows df companies keys) = length (rows df).
Proof. apply zip_with3_length. Qed.

(** The rows the loop reads carry the keys built for them. *)
Lemma sw_rows_keys df :
  Forall2 (λ r k, r !! "Key" = Some (Str k)) (sw_rows df) (sw_keys df).
Proof.
  apply Forall2_same_length_lookup. split.
  - unfold sw_rows. rewrite keyed_rows_length, ?sw_keys_length; [done|..].
    + by rewrite length_fmap, pick_col_length.
    + apply sw_keys_length.
  - intros i r k Hr Hk. unfold sw_rows in Hr.
    apply keyed_rows_lookup in Hr as (k' & Hk' & Hr). congruence.
Qed.

Lemma adv_rows_keys df : adv_keys (adv_rows df) = adv_keys_of df.
Proof.
  apply list_eq_same_length with (length (rows df)).
  - apply adv_keys_of_length.
  - unfold adv_keys, adv_rows. rewrite length_fmap, keyed_rows_length; [done|..].
    + by rewrite length_fmap, pick_col_length.
    + apply adv_keys_of_length.
  - intros i x y _ Hx Hy. unfold adv_keys in Hx.
    rewrite list_lookup_fmap in Hx.
    destruct (adv_rows df !! i) as [r|] eqn:Hr; [|done]. unfold adv_rows in Hr.
    apply keyed_rows_lookup in Hr as (k & Hk & Hr). injection Hx as <-.
    unfold row_get. rewrite Hr. simpl. congruence.
Qed.

Lemma adv_rows_keyed df : keyed (adv_rows df).
Proof. apply keyed_rows_keyed. Qed.

(** A key built by [build_key] holds the bar that separates the name from the
    company: it is never empty. *)
Lemma strip_nonempty a b c :
  PyStr.isspace c = false → PyStr.strip (a +:+ String c b) ≠ "".
Proof.
  intros Hc H.
  assert (text_of (PyStr.strip (a +:+ String c b)) = "") as Ht by (by rewrite H).
  unfold text_of in Ht. rewrite PyStrFacts.filter_strip in Ht.
  clear H. induction a as [|x a IH].
  - rewrite PyStrFacts.append_nil in Ht. simpl in Ht. by rewrite Hc in Ht.
  - rewrite PyStrFacts.append_cons in Ht. simpl in Ht.
    destruct (negb (PyStr.isspace x)); [done|auto].
Qed.

Lemma build_key_nonempty first last clean : build_key first last clean ≠ "".
Proof.
  unfold build_key, PyStr.lower. intros H.
  assert (PyStr.strip (first +:+ " " +:+ last +:+ " | " +:+ clean) = "") as E.
  { by destruct (PyStr.strip _). }
  revert E.
  replace (first +:+ " " +:+ last +:+ " | " +:+ clean)
    with ((first +:+ " " +:+ last +:+ " ") +:+ String "|" (" " +:+ clean)).
  - by apply strip_nonempty.
  - by rewrite !PyStrFacts.append_assoc.
Qed.

End RawDataFacts.

(* ===================================================================== *)
(** * [match_contacts_by_crd_and_email]: rows in, rows out                *)
(* ===================================================================== *)

Section CrdFacts.

Lemma find_col_none candidates df :
  (∀ c, c ∈ candidates → c ∉ columns df) → find_col candidates df = None.
Proof.
  intros H. unfold find_col.
  destruct (List.find (has_col df) candidates) as [c|] eqn:E; [|done].
  apply find_some in E as [Hc Hin]. exfalso.
  apply (H c); [by apply list_elem_of_In|].
  unfold has_col in Hin. by apply bool_decide_eq_true in Hin.
Qed.

Lemma set_column_const_length col v df :
  length (rows (set_column_const col v df)) = length (rows df).
Proof. simpl. by rewrite length_fmap. Qed.

Lemma set_column_const_lookup col v df n r :
  rows df !! n = Some r →
  rows (set_column_const col v df) !! n = Some (<[col := v]> r).
Proof. intros H. simpl. by rewrite list_lookup_fmap, H. Qed.

Lemma ensure_col_length col df : length (rows (ensure_col col df)) = length (rows df).
Proof.
  unfold ensure_col. destruct (has_col df col); [done|].
  apply set_column_const_length.
Qed.

(** [ensure_col] leaves every value of the table as it is. *)
Lemma ensure_col_lookup col df n r :
  rows df !! n = Some r →
  ∃ r', rows (ensure_col col df) !! n = Some r'
        ∧ ∀ c v, c ∈ columns df → r !! c = Some v → r' !! c = Some v.
Proof.
  intros H. unfold ensure_col. destruct (has_col df col) eqn:E; [by exists r|].
  exists (<[col := Str ""]> r). split; [by apply set_column_const_lookup|].
  intros c v Hc Hv. rewrite lookup_insert_ne; [done|]. intros <-.
  unfold has_col in E. by apply bool_decide_eq_false in E.
Qed.

Lemma has_col_ensure_col col col' df :
  col' ≠ col → has_col (ensure_col col df) col' = has_col df col'.
Proof.
  intros Hne. unfold ensure_col. destruct (has_col df col) eqn:E; [done|].
  unfold has_col at 1. cbn [columns set_column_const]. rewrite E.
  unfold has_col. apply bool_decide_ext.
  rewrite elem_of_app, list_elem_of_singleton. split; [|by left].
  by intros [?|?].
Qed.

Lemma with_annotation_lookup a (r : row) :
  with_annotation a r !! "Matched_or_not" = Some (Matched_or_not a)
  ∧ with_annotation a r !! "Match_Score" = Some (Match_Score a)
  ∧ with_annotation a r !! "adv_Email_" = Some (adv_Email_ a)
  ∧ with_annotation a r !! "adv_Record_ID" = Some (adv_Record_ID a).
Proof.
  unfold with_annotation. split_and!;
    rewrite ?lookup_insert_eq; rewrite ?lookup_insert_ne by done;
    rewrite ?lookup_insert_eq; rewrite ?lookup_insert_ne by done;
    by rewrite ?lookup_insert_eq.
Qed.

Lemma with_annotation_other a (r : row) c :
  c ∉ annotation_columns → with_annotation a r !! c = r !! c.
Proof.
  intros Hc. unfold with_annotation.
  rewrite !lookup_insert_ne; [done|..]; intros <-; apply Hc;
    unfold annotation_columns; set_solver.
Qed.

(** The result has the rows of the Schwab table, in their order, each with
    the values it had. *)
Lemma crd_rows_preserved adv sw :
  let result := (match_contacts_by_crd_and_email adv sw).2 in
  length (rows result) = length (rows sw)
  ∧ ∀ n sw_row, rows sw !! n = Some sw_row →
      ∃ r, rows result !! n = Some r
           ∧ ∀ c v, c ∈ columns sw → c ∉ annotation_columns → c ≠ "_email_norm" →
                    sw_row !! c = Some v → r !! c = Some v.
Proof.
  unfold match_contacts_by_crd_and_email.
  destruct (find_col crd_candidates adv) as [crd_col|]; simpl.
  - split.
    + rewrite length_zip_with, length_fmap.
      pose proof (ensure_col_length "Email_Address" sw). lia.
    + intros n sw_row Hn.
      destruct (ensure_col_lookup "Email_Address" sw n sw_row Hn) as (r' & Hr' & Hsame).
      eexists. split.
      { rewrite lookup_zip_with, Hr'. simpl. by rewrite list_lookup_fmap, Hr'. }
      intros c v Hc Hann Hne Hv. rewrite with_annotation_other by done.
      rewrite lookup_delete_ne by done. by apply Hsame.
  - split; [by rewrite !length_fmap|].
    intros n sw_row Hn. eexists. split.
    { rewrite !list_lookup_fmap, Hn. done. }
    intros c v Hc Hann Hne Hv.
    rewrite !lookup_insert_ne; [done|..]; intros <-; apply Hann;
      unfold annotation_columns; set_solver.
Qed.

End CrdFacts.

(* ===================================================================== *)
(** * [match_unmatched_by_email_then_fuzzy]: what raises, what is consumed *)
(* ===================================================================== *)

Section EmailThenFuzzyMore.

Variable token_set_ratio : string → string → Z.
Variable threshold : Z.
Variable adv : DataFrame.

(** Without an email column every normalized contact email is empty. *)
Lemma adv_email_norm_no_column i e :
  has_col adv adv_email_col = false → adv_email_norm adv !! i = Some e → e = "".
Proof.
  intros Hno. unfold adv_email_norm, col_series. rewrite Hno.
  rewrite !list_lookup_fmap. destruct (rows adv !! i); [|done]. by intros [= <-].
Qed.

Lemma adv_matches_no_column used e :
  has_col adv adv_email_col = false → e ≠ Str "" → adv_matches adv used e = [].
Proof.
  intros Hno He. destruct (adv_matches adv used e) as [|j m] eqn:E; [done|]. exfalso.
  assert (j ∈ adv_matches adv used e) as Hj by (rewrite E; left).
  apply elem_of_adv_matches in Hj as [_ Hj].
  destruct (adv_email_norm adv !! j) as [x|] eqn:Hx; [|done].
  apply (adv_email_norm_no_column _ _ Hno) in Hx as ->. by injection Hj as <-.
Qed.

Lemma decide_row_no_email_column used sw_row :
  has_col adv adv_email_col = false →
  decide_row token_set_ratio threshold adv used sw_row
  = fuzzy_stage token_set_ratio threshold adv used sw_row.
Proof.
  intros Hno. unfold decide_row. case_bool_decide as He; [|done].
  by rewrite adv_matches_no_column.
Qed.

(** What the fuzzy stage can raise: the [KeyError] of a column that blocking
    indexes. *)
Lemma fuzzy_stage_raises used sw_row e :
  fuzzy_stage token_set_ratio threshold adv used sw_row = Raise e →
  ∃ col, col ∈ [adv_email_col; adv_first_col; adv_last_col] ∧ e = KeyError col.
Proof.
  unfold fuzzy_stage, block, domain_block, initials_block, bind.
  case_bool_decide.
  - destruct (_ && _ && _).
    + destruct (has_col adv adv_first_col);
        [destruct (has_col adv adv_last_col)|].
      * destruct (best_match _ _ _ _) as [s [i|]]; [case_bool_decide|]; done.
      * intros [= <-]. exists adv_last_col. split; [set_solver|done].
      * intros [= <-]. exists adv_first_col. split; [set_solver|done].
    + destruct (best_match _ _ _ _) as [s [i|]]; [case_bool_decide|]; done.
  - destruct (has_col adv adv_email_col).
    + destruct (_ && _ && _).
      * destruct (has_col adv adv_first_col);
          [destruct (has_col adv adv_last_col)|].
        -- destruct (best_match _ _ _ _) as [s [i|]]; [case_bool_decide|]; done.
        -- intros [= <-]. exists adv_last_col. split; [set_solver|done].
        -- intros [= <-]. exists adv_first_col. split; [set_solver|done].
      * destruct (best_match _ _ _ _) as [s [i|]]; [case_bool_decide|]; done.
    + intros [= <-]. exists adv_email_col. split; [set_solver|done].
Qed.

Lemma fuzzy_stage_missing_email used sw_row :
  has_col adv adv_email_col = false →
  sw_email_domain sw_row ≠ "" →
  fuzzy_stage token_set_ratio threshold adv used sw_row = Raise (KeyError adv_email_col).
Proof.
  intros Hno Hdom. unfold fuzzy_stage, block, domain_block, bind.
  rewrite bool_decide_eq_false_2 by done. by rewrite Hno.
Qed.

(** The loop stops at the first row that raises. *)
Lemma match_rows_raises sw_idx used sw_rows n sw_row :
  has_col adv adv_email_col = false →
  sw_rows !! n = Some sw_row →
  sw_email_domain sw_row ≠ "" →
  ∃ col, col ∈ [adv_email_col; adv_first_col; adv_last_col]
         ∧ match_rows token_set_ratio threshold adv sw_idx used sw_rows
           = Raise (KeyError col).
Proof.
  intros Hno. revert sw_idx used n.
  induction sw_rows as [|r rest IH]; intros sw_idx used n Hn Hdom; [done|].
  cbn [match_rows]. unfold bind.
  destruct (decide_row token_set_ratio threshold adv used r) as [[d used']|e] eqn:Hd.
  - destruct n as [|n].
    + injection Hn as ->.
      rewrite decide_row_no_email_column, fuzzy_stage_missing_email in Hd by done.
      done.
    + destruct (IH (S sw_idx) used' n Hn Hdom) as (col & Hcol & ->). by exists col.
  - rewrite decide_row_no_email_column in Hd by done.
    apply fuzzy_stage_raises in Hd as (col & Hcol & ->). by exists col.
Qed.

(** The positions consumed by a run are positions of the contact table, each
    consumed once. *)
Lemma consumed_in_range sw out :
  match_unmatched_decisions token_set_ratio threshold adv sw = Ok out →
  NoDup (consumed_list out)
  ∧ ∀ i, i ∈ consumed_list out → (i < length (rows adv))%nat.
Proof.
  unfold match_unmatched_decisions, bind.
  destruct (match_rows _ _ _ 0 _ _) as [[out' used']|] eqn:E; [|done].
  intros [= <-]. apply match_rows_inv in E as (_ & _ & Hcons & Hnd).
  split; [done|]. intros i [Hi _]%Hcons.
  apply lookup_lt_Some in Hi. unfold init_used in Hi.
  by rewrite length_replicate in Hi.
Qed.

(** Each output pair is the decision taken for the row at its position, in
    some state of the flags, and the record built from it. *)
Lemma decisions_records sw out n d r :
  match_unmatched_decisions token_set_ratio threshold adv sw = Ok out →
  out !! n = Some (d, r) →
  ∃ sw_row used used',
    with_email_norm sw !! n = Some sw_row
    ∧ decide_row token_set_ratio threshold adv used sw_row = Ok (d, used')
    ∧ r = rec_of adv n sw_row d.
Proof.
  unfold match_unmatched_decisions, bind.
  destruct (match_rows _ _ _ 0 _ _) as [[out' used']|] eqn:E; [|done].
  intros [= <-] Hn.
  assert (is_Some (with_email_norm sw !! n)) as [sw_row Hrow].
  { apply lookup_lt_is_Some. apply match_rows_inv in E as (<- & _).
    by eapply lookup_lt_Some. }
  destruct (match_rows_lookup _ _ _ _ _ _ _ _ _ _ E Hrow) as (u & d' & u' & _ & Hd & Hout).
  simpl in Hout. rewrite Hn in Hout. injection Hout as -> ->.
  by exists sw_row, u, u'.
Qed.

Lemma consumed_list_elem (out : list (decision * row)) n d r i :
  out !! n = Some (d, r) → consumed d = Some i → i ∈ consumed_list out.
Proof.
  intros Hn Hi. unfold consumed_list. apply list_elem_of_omap.
  exists (d, r). split; [by eapply list_elem_of_lookup_2|done].
Qed.

(** The fuzzy stage never reports an email match. *)
Lemma fuzzy_stage_not_email used sw_row j used' :
  fuzzy_stage token_set_ratio threshold adv used sw_row ≠ Ok (EmailMatched j, used').
Proof.
  unfold fuzzy_stage, bind. destruct (block adv used sw_row); [|done].
  destruct (best_match _ _ _ _) as [s [i|]]; [case_bool_decide|]; done.
Qed.

Lemma decide_row_email used sw_row j used' :
  decide_row token_set_ratio threshold adv used sw_row = Ok (EmailMatched j, used') →
  ∃ e, row_get sw_row "_email_norm" (Str "") = Str e ∧ e ≠ ""
       ∧ adv_email_norm adv !! j = Some e ∧ used !! j = Some false.
Proof.
  unfold decide_row.
  set (c := row_get sw_row "_email_norm" (Str "")).
  case_bool_decide as Hc; [|by intros ?%fuzzy_stage_not_email].
  destruct (adv_matches adv used c) as [|i m] eqn:Hm;
    [by intros ?%fuzzy_stage_not_email|].
  intros [= -> _].
  assert (j ∈ adv_matches adv used c) as Hj by (rewrite Hm; left).
  apply elem_of_adv_matches in Hj as [Hu Hj].
  destruct (adv_email_norm adv !! j) as [e|] eqn:He; [|done].
  injection Hj as Hj. exists e. split_and!; [done| |done|done].
  intros ->. by rewrite <- Hj in Hc.
Qed.

(** The contact part of the record of a matched row. *)
Lemma rec_of_adv sw_idx sw_row d j c :
  consumed d = Some j →
  rec_of adv sw_idx sw_row d !! ("adv_" +:+ c)
  = if public_name c then adv_row adv j !! c else None.
Proof.
  intros Hd.
  assert (rec_of adv sw_idx sw_row d !! ("adv_" +:+ c)
          = adv_data (adv_row adv j) !! c) as ->.
  { destruct d as [i|i s|]; simplify_eq/=;
      (rewrite annotate_adv by apply startswith_append); apply prefixed_lookup. }
  unfold adv_data. destruct (public_name c) eqn:Hp.
  - destruct (adv_row adv j !! c) as [v|] eqn:Hv.
    + by apply map_lookup_filter_Some.
    + apply map_lookup_filter_None. by left.
  - apply map_lookup_filter_None. right. intros v _. simpl. congruence.
Qed.

End EmailThenFuzzyMore.

(* ===================================================================== *)
(** * [match_by_name_and_company]: returns, rows, records                 *)
(* ===================================================================== *)

Module RawDataMore.
Import RawData RawDataFacts.

Section Loop.

Variable token_set_ratio : string → string → Qc.
Variable threshold : Z.
Variable adv : list row.

Lemma decide_key_total sk :
  keyed adv →
  ∃ d, decide_key token_set_ratio threshold adv sk = Ok d ∧ d ≠ NoKey.
Proof.
  intros Hkeyed.
  destruct (decide_key_spec token_set_ratio threshold adv sk Hkeyed)
    as [[_ ->]|(n & k & _ & [[_ ->]|(_ & i & _ & _ & ->)])]; by eexists.
Qed.

Lemma decisions_exist ks :
  keyed adv → Forall (λ k, k ≠ "") ks →
  ∃ ds, Forall2 (λ k d, k ≠ "" ∧ decide_key token_set_ratio threshold adv k = Ok d) ks ds
        ∧ Forall (λ d, d ≠ NoKey) ds.
Proof.
  intros Hkeyed. induction 1 as [|k ks Hk _ (ds & Hds & Hno)]; [by exists []|].
  destruct (decide_key_total k Hkeyed) as (d & Hd & Hd').
  exists (d :: ds). split; by constructor.
Qed.

(** Each output pair is the decision taken for the row at its position, and
    the record built from it. *)
Lemma raw_match_rows_lookup rs out n d r :
  match_rows token_set_ratio threshold adv rs = Ok out →
  out !! n = Some (d, r) →
  ∃ sw_row, rs !! n = Some sw_row
            ∧ decide_row token_set_ratio threshold adv sw_row = Ok d
            ∧ r = rec_of adv sw_row d.
Proof.
  revert out n. induction rs as [|r0 rs IH]; intros out n; simpl.
  - by intros [= <-].
  - unfold bind. destruct (decide_row _ _ _ r0) as [d0|] eqn:Hd; [|done].
    destruct (match_rows _ _ _ rs) as [out'|] eqn:Hrest; [|done].
    intros [= <-]. destruct n as [|n]; simpl.
    + intros [= <- <-]. by exists r0.
    + intros Hn. by apply (IH out' n).
Qed.

(** The record keeps the Schwab row, but for the two columns written into it
    and, when a contact is merged in, for the keys that start with [Adv_]. *)
Lemma raw_rec_of_other (sw_row : row) d c :
  c ≠ "Matched" → c ≠ "Match_Score" →
  (referenced d = None ∨ PyStr.startswith c "Adv_" = false) →
  rec_of adv sw_row d !! c = sw_row !! c.
Proof.
  intros H1 H2 Hc.
  destruct d as [| |i s|s]; simpl; rewrite !lookup_insert_ne by done; try done.
  destruct Hc as [?|Hc]; [done|].
  rewrite lookup_union_r; [done|]. apply prefixed_lookup_other.
  intros c' ->. by rewrite startswith_append in Hc.
Qed.

Lemma raw_rec_of_adv (sw_row : row) i s c :
  rec_of adv sw_row (RawMatched i s) !! ("Adv_" +:+ c) = default ∅ (adv !! i) !! c
  ∨ (default ∅ (adv !! i) !! c = None
     ∧ rec_of adv sw_row (RawMatched i s) !! ("Adv_" +:+ c) = sw_row !! ("Adv_" +:+ c)).
Proof.
  simpl.
  rewrite !lookup_insert_ne
    by (rewrite PyStrFacts.append_cons; intros [=]).
  destruct (default ∅ (adv !! i) !! c) as [v|] eqn:Hv.
  - left. apply lookup_union_Some_l. by rewrite prefixed_lookup.
  - right. split; [done|]. apply lookup_union_r. by rewrite prefixed_lookup.
Qed.

End Loop.

Lemma sw_keys_nonempty df : Forall (λ k, k ≠ "") (sw_keys df).
Proof.
  apply Forall_lookup. intros i k Hk. unfold sw_keys in Hk.
  rewrite zip_with3_lookup in Hk.
  apply bind_Some in Hk as (a & _ & Hk). apply bind_Some in Hk as (b & _ & Hk).
  apply bind_Some in Hk as (c & _ & Hk).
  injection Hk as <-. apply build_key_nonempty.
Qed.

Lemma sw_rows_length df : length (sw_rows df) = length (rows df).
Proof.
  unfold sw_rows. apply keyed_rows_length.
  - by rewrite length_fmap, pick_col_length.
  - apply sw_keys_length.
Qed.

(** The loop over the rows that the function builds raises nothing, and
    takes the empty-key branch for none of them. *)
Lemma built_rows_decided token_set_ratio threshold contacts_df Schwab_df :
  ∃ out,
    match_rows token_set_ratio threshold (adv_rows contacts_df) (sw_rows Schwab_df)
    = Ok out
    ∧ length out = length (rows Schwab_df)
    ∧ Forall (λ d, d ≠ NoKey) out.*1.
Proof.
  destruct (decisions_exist token_set_ratio threshold (adv_rows contacts_df)
              (sw_keys Schwab_df) (adv_rows_keyed contacts_df)
              (sw_keys_nonempty Schwab_df)) as (ds & Hds & Hno).
  destruct (match_rows_by_keys token_set_ratio threshold (adv_rows contacts_df)
              (sw_rows Schwab_df) (sw_keys Schwab_df) ds
              (sw_rows_keys Schwab_df) Hds) as (out & Hout & Hfst).
  exists out. split; [done|]. split; [|by rewrite Hfst].
  apply match_rows_length in Hout. by rewrite Hout, sw_rows_length.
Qed.

(** Row [n] as the loop reads it: the Schwab row with its cleaned company
    and its key. *)
Lemma sw_rows_lookup df n sw_row :
  rows df !! n = Some sw_row →
  ∃ c k, sw_keys df !! n = Some k
         ∧ sw_rows df !! n
           = Some (<["Key" := Str k]> (<["clean_company" := Str c]> sw_row)).
Proof.
  intros Hn.
  assert (is_Some (sw_rows df !! n)) as [r Hr].
  { apply lookup_lt_is_Some. rewrite sw_rows_length. by eapply lookup_lt_Some. }
  unfold sw_rows, keyed_rows in *. rewrite zip_with3_lookup, Hn in *. simpl in *.
  apply bind_Some in Hr as (c & Hc & Hr). apply bind_Some in Hr as (k & Hk & Hr).
  exists c, k. split; [done|]. rewrite Hc. simpl. by rewrite Hk.
Qed.

Lemma adv_rows_lookup df i a :
  adv_rows df !! i = Some a →
  ∃ orig c k, rows df !! i = Some orig
              ∧ adv_keys_of df !! i = Some k
              ∧ a = <["Key" := Str k]> (<["clean_company" := Str c]> orig).
Proof.
  unfold adv_rows, keyed_rows. rewrite zip_with3_lookup.
  intros (orig & Ho & H)%bind_Some. apply bind_Some in H as (c & Hc & H).
  apply bind_Some in H as (k & Hk & H). injection H as <-. by exists orig, c, k.
Qed.

Lemma adv_rows_empty df : rows df = [] → adv_rows df = [].
Proof.
  intros H. apply length_zero_iff_nil. unfold adv_rows.
  rewrite keyed_rows_length, H; [done|..].
  - by rewrite length_fmap, pick_col_length.
  - apply adv_keys_of_length.
Qed.

Lemma lower_char_comma c : PyStr.lower_char c = ","%char → c = ","%char.
Proof. by PyStrFacts.each_char c. Qed.

Lemma contains_lower_comma s :
  PyStr.contains "," s = false → PyStr.contains "," (PyStr.lower s) = false.
Proof.
  induction s as [|c s IH]; [done|]. unfold PyStr.lower in *. cbn [PyStr.map PyStr.contains].
  intros [Hc Hs]%orb_false_iff. rewrite (IH Hs), orb_false_r.
  destruct (Ascii.eqb_spec (PyStr.lower_char c) ",") as [E|]; [|done].
  apply lower_char_comma in E as ->. by rewrite Ascii.eqb_refl in Hc.
Qed.

Lemma contains_forallb c s :
  PyStr.contains c s = negb (PyStr.forallb (λ a, negb (Ascii.eqb a c)) s).
Proof.
  induction s as [|a s IH]; [done|]. cbn [PyStr.contains PyStr.forallb].
  rewrite IH. by destruct (Ascii.eqb a c).
Qed.

Lemma forallb_filter p s : PyStr.forallb p (PyStr.filter p s) = true.
Proof.
  induction s as [|a s IH]; [done|]. cbn [PyStr.filter].
  destruct (p a) eqn:E; [|done]. cbn [PyStr.forallb]. by rewrite E.
Qed.

Lemma stripped_lower s : stripped s → stripped (PyStr.lower s).
Proof.
  intros [Hh Hl]. unfold PyStr.lower. split; intros c.
  - destruct s as [|a s]; [done|]. simpl. intros [= <-].
    rewrite PyStrFacts.isspace_lower_char. by apply Hh.
  - rewrite PyStrFacts.last_map. destruct (PyStr.last s) as [a|]; [|done].
    simpl. intros [= <-]. rewrite PyStrFacts.isspace_lower_char. by apply Hl.
Qed.

End RawDataMore.

(* ===================================================================== *)
(** * The properties the specification states                             *)
(* ===================================================================== *)

Section Consumption.

Example example_run :
  example_decisions.*1 = [EmailMatched 0; Unmatched; FuzzyMatched 1 100].
Proof. by vm_compute. Qed.

(** C1 (as the specification states it, for [match_by_name_and_company]): that
    matcher keeps no consumption state. On the example tables, for any scorer
    that rates the key ["john smith | acme"] against itself at the threshold
    or above, both Schwab rows are matched to the one contact row. *)
Lemma name_and_company_reuses_contact :
  ∃ contacts schwab,
    ∀ token_set_ratio,
      (Qc_of_Z 90 ≤ token_set_ratio "john smith | acme" "john smith | acme")%Qc →
      ∃ out,
        RawData.match_by_name_and_company token_set_ratio schwab contacts 90 true
        = Ok out
        ∧ omap (λ o, RawData.referenced o.1) out = [0%nat; 0%nat]
        ∧ ¬ NoDup (omap (λ o, RawData.referenced o.1) out).
Proof.
  exists example_raw_contacts, example_raw_schwab. intros score Hs.
  set (k := "john smith | acme") in *.
  assert (RawData.adv_keys (RawData.adv_rows example_raw_contacts) = [k]) as Hkeys.
  { rewrite RawDataFacts.adv_rows_keys. by vm_compute. }
  assert (RawData.decide_key score 90 (RawData.adv_rows example_raw_contacts) k
          = Ok (RawData.RawMatched 0 (score k k))) as Hd.
  { assert (RawData.block (RawData.adv_rows example_raw_contacts) k = [k]) as Hb
      by (unfold RawData.block; by rewrite Hkeys).
    destruct (RawDataFacts.decide_key_spec score 90 _ k
                (RawDataFacts.adv_rows_keyed example_raw_contacts))
      as [[Hnil _]|(n & k' & (Hn & _ & _) & H)]; rewrite Hb in *; [done|].
    apply list_elem_of_lookup_2, list_elem_of_singleton in Hn as ->.
    destruct H as [[Hlow _]|(_ & i & Hi & _ & ->)]; [by apply Qclt_not_le in Hlow|].
    rewrite Hkeys in Hi. apply lookup_lt_Some in Hi.
    by replace i with 0%nat by (simpl in Hi; lia). }
  destruct (RawDataFacts.match_rows_by_keys score 90
              (RawData.adv_rows example_raw_contacts)
              (RawData.sw_rows example_raw_schwab) [k; k]
              [RawData.RawMatched 0 (score k k); RawData.RawMatched 0 (score k k)])
    as (out & Hout & Hds).
  { replace [k; k] with (RawData.sw_keys example_raw_schwab) by (by vm_compute).
    apply RawDataFacts.sw_rows_keys. }
  { by repeat constructor. }
  assert (omap (λ o, RawData.referenced o.1) out = [0%nat; 0%nat]) as Hrefs.
  { by rewrite RawDataFacts.omap_decisions, Hds. }
  exists out. unfold RawData.match_by_name_and_company. rewrite Hout. simpl.
  rewrite bool_decide_eq_false_2 by (by intros ->). split; [done|].
  split; [done|]. rewrite Hrefs.
  intros Hnd. apply NoDup_cons in Hnd as [Hnd _]. apply Hnd. left.
Qed.

(** C1 (amended, for [match_unmatched_by_email_then_fuzzy]): in a run that
    completes, no contact row is consumed by two output rows; each Schwab row
    is decided in a state in which every row consumed before it is flagged
    used, and is in neither its email matches nor its blocked pool. *)
Theorem consumed_at_most_once token_set_ratio threshold adv sw out :
  match_unmatched_decisions token_set_ratio threshold adv sw = Ok out →
  NoDup (consumed_list out)
  ∧ ∀ n sw_row,
      with_email_norm sw !! n = Some sw_row →
      ∃ used d used',
        decide_row token_set_ratio threshold adv used sw_row = Ok (d, used')
        ∧ out !! n = Some (d, rec_of adv n sw_row d)
        ∧ ∀ i, i ∈ consumed_list (take n out) →
            used !! i = Some true
            ∧ (i ∉ adv_matches adv used (row_get sw_row "_email_norm" (Str "")))
            ∧ ∀ pool, block adv used sw_row = Ok pool → i ∉ pool.
Proof.
  unfold match_unmatched_decisions, bind.
  destruct (match_rows _ _ _ 0 _ _) as [[out' used']|] eqn:E; [|done].
  intros [= <-]. split; [by apply match_rows_inv in E as (_ & _ & _ & ?)|].
  intros n sw_row Hn.
  destruct (match_rows_lookup _ _ _ _ _ _ _ _ _ _ E Hn) as (u & d & u' & Htake & Hd & Hout).
  exists u, d, u'. split; [done|]. split; [done|].
  intros i Hi. apply match_rows_inv in Htake as (_ & _ & Hcons & _).
  apply Hcons in Hi as [_ Hi]. split_and!; [done|..].
  - intros [Hf _]%elem_of_adv_matches. congruence.
  - intros pool Hpool Hin. pose proof (block_unused _ _ _ _ _ Hpool Hin). congruence.
Qed.

Lemma consumed_at_most_once_witness :
  ∃ out,
    match_unmatched_decisions exact_ratio 80 example_contacts example_schwab = Ok out
    ∧ NoDup (consumed_list out).
Proof.
  destruct (match_unmatched_decisions_total exact_ratio 80 example_contacts
              example_schwab eq_refl eq_refl eq_refl) as [out Hout].
  exists out. split; [exact Hout|].
  exact (proj1 (consumed_at_most_once exact_ratio 80 example_contacts
                  example_schwab out Hout)).
Defined.

End Consumption.

Section Unmatched.

(** What the loop of [match_by_name_and_company] emits for a row it does not
    match: [Matched] is [False], no contact field is merged in, and the score
    is the integer part of the best score observed, or 0 when there was no
    candidate. *)
Lemma raw_rec_of_unmatched adv (sw_row : row) d :
  RawData.referenced d = None →
  RawData.rec_of adv sw_row d
  = <["Match_Score" :=
        Num match d with RawData.BelowThreshold s => py_int s | _ => 0 end]>
      (<["Matched" := Bool false]> sw_row).
Proof. by destruct d. Qed.

(** C3 (as the specification states it, for [match_by_name_and_company]): a
    row whose best candidate scores below the threshold is emitted with the
    integer part of that score, not with 0. Here the one candidate scores
    anything from 1 to below 90. *)
Lemma below_threshold_keeps_score :
  ∃ contacts sw_row,
    ∀ token_set_ratio,
      (1 ≤ token_set_ratio "al | x" "john smith | acme" < Qc_of_Z 90)%Qc →
      ∃ d,
        RawData.decide_row token_set_ratio 90 (RawData.adv_rows contacts) sw_row = Ok d
        ∧ RawData.referenced d = None
        ∧ RawData.rec_of (RawData.adv_rows contacts) sw_row d !! "Matched"
          = Some (Bool false)
        ∧ RawData.rec_of (RawData.adv_rows contacts) sw_row d !! "Match_Score"
          ≠ Some (Num 0).
Proof.
  exists example_raw_contacts, (mkrow [("Key", Str "al | x")]).
  intros score [Hpos Hlow].
  set (k := "john smith | acme") in *. set (sk := "al | x") in *.
  assert (RawData.adv_keys (RawData.adv_rows example_raw_contacts) = [k]) as Hkeys.
  { rewrite RawDataFacts.adv_rows_keys. by vm_compute. }
  assert (RawData.block (RawData.adv_rows example_raw_contacts) sk = [k]) as Hb
    by (unfold RawData.block; by rewrite Hkeys).
  exists (RawData.BelowThreshold (score sk k)).
  rewrite (RawDataFacts.decide_row_key score 90 _ _ sk) by done.
  split.
  - destruct (RawDataFacts.decide_key_spec score 90 _ sk
                (RawDataFacts.adv_rows_keyed example_raw_contacts))
      as [[Hnil _]|(n & k' & (Hn & _ & _) & H)]; rewrite Hb in *; [done|].
    apply list_elem_of_lookup_2, list_elem_of_singleton in Hn as ->.
    destruct H as [[_ ->]|[Hge _]]; [done|by apply Qclt_not_le in Hlow].
  - split; [done|]. rewrite raw_rec_of_unmatched by done.
    split.
    + rewrite lookup_insert_ne by done. by rewrite lookup_insert_eq.
    + rewrite lookup_insert_eq. intros [= H].
      pose proof (py_int_pos _ Hpos). lia.
Qed.

(** C3 (amended). In [match_unmatched_by_email_then_fuzzy], a row with no
    email match and no candidate of its pool scoring the threshold is decided
    [Unmatched] without consuming anything, and its record has
    [Matched_or_not = 'unmatched'], [Match_Score = 0] and [None] under every
    [adv_] key. In [match_by_name_and_company], when no candidate of the pool
    scores the threshold, the row is emitted with [Matched = False], no
    contact field, and as [Match_Score] the integer part of the best score of
    the pool, or 0 when the pool is empty. *)
Theorem unmatched_rows token_set_ratio threshold adv used sw_row pool sw_idx
    (raw_ratio : string → string → Qc) (contacts : list row) (sk : string)
    (raw_row : row) :
  (row_get sw_row "_email_norm" (Str "") = Str ""
   ∨ adv_matches adv used (row_get sw_row "_email_norm" (Str "")) = []) →
  block adv used sw_row = Ok pool →
  (∀ i, i ∈ pool → token_set_ratio (sw_key sw_row) (adv_key adv i) < threshold) →
  keyed contacts →
  (∀ k, k ∈ RawData.block contacts sk → (raw_ratio sk k < Qc_of_Z threshold)%Qc) →
  (decide_row token_set_ratio threshold adv used sw_row = Ok (Unmatched, used)
   ∧ rec_of adv sw_idx sw_row Unmatched !! "Matched_or_not" = Some (Str "unmatched")
   ∧ rec_of adv sw_idx sw_row Unmatched !! "Match_Score" = Some (Num 0)
   ∧ (∀ c, c ∈ columns adv → public_name c = true →
        rec_of adv sw_idx sw_row Unmatched !! ("adv_" +:+ c) = Some PyNone)
   ∧ (∀ k v, PyStr.startswith k "adv_" = true →
        rec_of adv sw_idx sw_row Unmatched !! k = Some v → v = PyNone))
  ∧ ∃ d best,
      RawData.decide_key raw_ratio threshold contacts sk = Ok d
      ∧ RawData.referenced d = None
      ∧ RawData.rec_of contacts raw_row d
        = <["Match_Score" := Num best]> (<["Matched" := Bool false]> raw_row)
      ∧ ((RawData.block contacts sk = [] ∧ best = 0)
         ∨ ∃ n k, first_best_score (raw_ratio sk) (RawData.block contacts sk) n k
                  ∧ best = py_int (raw_ratio sk k)).
Proof.
  intros Hemail Hpool Hlow Hkeyed Hrawlow. split.
  - split; [|apply rec_of_unmatched].
    assert (fuzzy_stage token_set_ratio threshold adv used sw_row = Ok (Unmatched, used))
      as Hfuzzy.
    { unfold fuzzy_stage, bind. rewrite Hpool.
      pose proof (best_match_spec token_set_ratio adv (sw_key sw_row) pool) as [_ Hbest].
      destruct (best_match _ _ _ pool) as [s [i|]]; [|done]. simpl in Hbest.
      destruct Hbest as (_ & k & Hk & Hs & _).
      apply list_elem_of_lookup_2, Hlow in Hk.
      by rewrite bool_decide_eq_false_2 by lia. }
    unfold decide_row. destruct Hemail as [->| ->]; [done|].
    by destruct (bool_decide _).
  - destruct (RawDataFacts.decide_key_spec raw_ratio threshold contacts sk Hkeyed)
      as [[Hnil ->]|(n & k & Hbest & H)].
    + exists RawData.NoCandidate, 0. split_and!; [done|done|done|by left].
    + destruct H as [[_ ->]|[Hge _]].
      * exists (RawData.BelowThreshold (raw_ratio sk k)), (py_int (raw_ratio sk k)).
        split_and!; [done|done|done|]. right. by exists n, k.
      * exfalso. destruct Hbest as (Hn & _).
        apply list_elem_of_lookup_2, Hrawlow in Hn. by apply Qclt_not_le in Hn.
Qed.

Lemma unmatched_rows_witness :
  decide_row exact_ratio 80 example_contacts [true; false]
    (mkrow [("_email_norm", Str "a@x.com"); ("First_Name_", Str "Ann")])
  = Ok (Unmatched, [true; false]).
Proof.
  refine (proj1 (proj1 (unmatched_rows exact_ratio 80 example_contacts [true; false]
            (mkrow [("_email_norm", Str "a@x.com"); ("First_Name_", Str "Ann")])
            [1%nat] 0 exact_score (RawData.adv_rows example_raw_contacts) "al | x" ∅
            _ _ _ _ _))).
  - right. by vm_compute.
  - by vm_compute.
  - intros i ->%list_elem_of_singleton. by vm_compute.
  - apply RawDataFacts.adv_rows_keyed.
  - unfold RawData.block. rewrite RawDataFacts.adv_rows_keys.
    replace (RawData.adv_keys_of example_raw_contacts) with ["john smith | acme"]
      by (by vm_compute).
    simpl. intros k ->%list_elem_of_singleton. by vm_compute.
Defined.

End Unmatched.

Section RowParity.

Lemma col_series_length df col : length (col_series df col) = length (rows df).
Proof. unfold col_series. destruct (has_col df col); by rewrite length_fmap. Qed.

Lemma with_email_norm_length sw : length (with_email_norm sw) = length (rows sw).
Proof.
  unfold with_email_norm. rewrite length_zip_with, col_series_length. lia.
Qed.

(** The rows the loop iterates over are the rows of the table, each with its
    normalized email added. *)
Lemma with_email_norm_lookup sw n sw_row :
  rows sw !! n = Some sw_row →
  ∃ e, with_email_norm sw !! n = Some (<["_email_norm" := Str e]> sw_row).
Proof.
  intros Hn. unfold with_email_norm.
  assert (is_Some (col_series sw schwab_email_col !! n)) as [v Hv].
  { apply lookup_lt_is_Some. rewrite col_series_length. by eapply lookup_lt_Some. }
  exists (email_norm_of v). by rewrite lookup_zip_with, Hn, Hv.
Qed.

(** The normalized email of row [n], as line 198 computes it. *)
Lemma with_email_norm_value sw n sw_row :
  rows sw !! n = Some sw_row →
  with_email_norm sw !! n
  = Some (<["_email_norm" :=
             Str (email_norm_of (if has_col sw schwab_email_col
                                 then row_get sw_row schwab_email_col NaN
                                 else Str ""))]> sw_row).
Proof.
  intros Hn. unfold with_email_norm, col_series.
  rewrite lookup_zip_with, Hn. simpl.
  destruct (has_col sw schwab_email_col); by rewrite list_lookup_fmap, Hn.
Qed.

Lemma sw_email_domain_with_norm (sw_row : row) v :
  sw_email_domain (<["_email_norm" := v]> sw_row) = sw_email_domain sw_row.
Proof. unfold sw_email_domain, row_get. by rewrite lookup_insert_ne. Qed.

Lemma frame_of_records_length records :
  length (frame_of_records records) = length records.
Proof. unfold frame_of_records. by rewrite !length_fmap. Qed.

Lemma infer_cell_inferred b v : inferred v (infer_cell b v).
Proof. destruct v, b; simpl; (by left) || (by right). Qed.

(** Row [n] of the frame is record [n], each cell as it was or, for a
    [None], as the inference left it. *)
Lemma frame_of_records_lookup records n r :
  records !! n = Some r →
  ∃ r', frame_of_records records !! n = Some r'
        ∧ ∀ k v, r !! k = Some v → ∃ v', r' !! k = Some v' ∧ inferred v v'.
Proof.
  intros Hn. unfold frame_of_records. rewrite !list_lookup_fmap, Hn. simpl.
  eexists. split; [done|]. intros k v Hk.
  rewrite map_lookup_imap. unfold fill_missing.
  rewrite (lookup_union_Some_l _ _ _ _ Hk). simpl.
  eexists. split; [done|]. apply infer_cell_inferred.
Qed.

Lemma fuzzy_result_rows token_set_ratio threshold adv sw logs result :
  match_unmatched_by_email_then_fuzzy token_set_ratio threshold adv sw
  = Ok (logs, result) →
  ∃ out,
    match_unmatched_decisions token_set_ratio threshold adv sw = Ok out
    ∧ length out = length (rows sw)
    ∧ result = attach_domain sw (frame_of_records out.*2).
Proof.
  unfold match_unmatched_by_email_then_fuzzy, bind.
  destruct (match_unmatched_decisions _ _ _ _) as [out|] eqn:E; [|done].
  intros [= _ <-]. exists out. split; [done|]. split; [|done].
  unfold match_unmatched_decisions, bind in E.
  destruct (match_rows _ _ _ _ _ _) as [[out' u]|] eqn:E'; [|done].
  injection E as <-. apply match_rows_inv in E' as [-> _].
  apply with_email_norm_length.
Qed.

(** What is returned for row [n] is the record built for it, as the frame
    holds it, but for the domain column of lines 272-273. *)
Lemma emitted_rows_keep_fields token_set_ratio threshold adv sw logs result out n d r :
  match_unmatched_by_email_then_fuzzy token_set_ratio threshold adv sw
  = Ok (logs, result) →
  match_unmatched_decisions token_set_ratio threshold adv sw = Ok out →
  out !! n = Some (d, r) →
  ∃ r', result !! n = Some r'
        ∧ ∀ k v, r !! k = Some v → ∃ v', r' !! k = Some v' ∧ inferred v v'.
Proof.
  intros (out' & Hout' & Hlen & ->)%fuzzy_result_rows Hout Hn.
  rewrite Hout in Hout'. injection Hout' as <-.
  destruct (frame_of_records_lookup out.*2 n r) as (r1 & Hr1 & Hcells).
  { by rewrite list_lookup_fmap, Hn. }
  destruct (attach_domain_lookup sw (frame_of_records out.*2) n r1)
    as (r' & Hr' & Hsame & Hdom); [|done|].
  { by rewrite frame_of_records_length, length_fmap. }
  exists r'. split; [done|]. intros k v Hk.
  destruct (Hcells k v Hk) as (v' & Hv' & Hinf). exists v'. split; [|done].
  destruct (decide (k = "schwab_" +:+ schwab_email_domain_col)) as [->|Hne].
  - by apply Hdom.
  - by rewrite Hsame.
Qed.

Lemma match_rows_first_raises token_set_ratio threshold adv sw_idx used sw_rows r e :
  sw_rows !! 0%nat = Some r →
  decide_row token_set_ratio threshold adv used r = Raise e →
  match_rows token_set_ratio threshold adv sw_idx used sw_rows = Raise e.
Proof.
  destruct sw_rows as [|r0 rest]; [done|]. intros [= ->] Hd.
  cbn [match_rows]. by rewrite Hd.
Qed.

(** C5 (a defect of the code). [match_contacts_by_crd_and_email] always
    returns one row per Schwab row (see [crd_rows_preserved]), and so does
    [match_unmatched_by_email_then_fuzzy] whenever it returns. But it does not
    always return: line 196 reads the contact email column through
    [_col_series], which allows for a table without it, and line 230 indexes
    the same column directly. With the contact table below, whose email
    column is named [Email], the first Schwab row, which has an address with
    a domain, raises [KeyError], whatever the scorer and the threshold: the
    run ends with no output row for the three input rows. *)
Theorem missing_email_column_aborts_run token_set_ratio threshold :
  length (rows example_schwab) = 3%nat
  ∧ match_unmatched_by_email_then_fuzzy token_set_ratio threshold
      example_contacts_other_email example_schwab
    = Raise (KeyError "Email_").
Proof.
  split; [done|].
  unfold match_unmatched_by_email_then_fuzzy, match_unmatched_decisions, bind.
  erewrite match_rows_first_raises; [done| |].
  - by apply (with_email_norm_value example_schwab 0).
  - rewrite decide_row_no_email_column by done.
    apply fuzzy_stage_missing_email; [done|].
    rewrite sw_email_domain_with_norm. by vm_compute.
Qed.

End RowParity.

Section EmailPriority.

(** The first element that a filter keeps. *)
Lemma filter_head {A} (P : A → Prop) `{∀ x, Decision (P x)} (l : list A) x m :
  filter P l = x :: m →
  ∃ k, l !! k = Some x ∧ P x ∧ ∀ k' y, (k' < k)%nat → l !! k' = Some y → ¬ P y.
Proof.
  induction l as [|a l IH]; [done|]. rewrite filter_cons.
  destruct (decide (P a)) as [Ha|Ha].
  - intros [= -> _]. exists 0%nat. split_and!; [done|done|]. intros; lia.
  - intros (k & Hk & Hx & Hfirst)%IH. exists (S k). split_and!; [done|done|].
    intros [|k'] y Hlt Hy; [by injection Hy as <-|].
    apply (Hfirst k' y); [lia|done].
Qed.

(** C6: a Schwab row whose normalized email is not empty and equals that of
    an unused contact row is decided [EmailMatched] with the first such row,
    which is flagged used, and its record has [Matched_or_not =
    'email_matched'] and [Match_Score = 100]. The decision is the same for
    every scorer and threshold: the fuzzy stage has no part in it. *)
Theorem email_match_takes_priority adv used sw_row e i :
  row_get sw_row "_email_norm" (Str "") = Str e →
  e ≠ "" →
  adv_email_norm adv !! i = Some e →
  used !! i = Some false →
  ∃ j,
    (j ≤ i)%nat
    ∧ adv_email_norm adv !! j = Some e
    ∧ used !! j = Some false
    ∧ (∀ k, (k < j)%nat →
         ¬ (adv_email_norm adv !! k = Some e ∧ used !! k = Some false))
    ∧ ∀ token_set_ratio threshold sw_idx,
        decide_row token_set_ratio threshold adv used sw_row
        = Ok (EmailMatched j, <[j := true]> used)
        ∧ <[j := true]> used !! j = Some true
        ∧ rec_of adv sw_idx sw_row (EmailMatched j) !! "Matched_or_not"
          = Some (Str "email_matched")
        ∧ rec_of adv sw_idx sw_row (EmailMatched j) !! "Match_Score"
          = Some (Num 100).
Proof.
  intros He Hne Hi Hu.
  assert (i < length (rows adv))%nat as Hlt.
  { apply lookup_lt_Some in Hi. unfold adv_email_norm in Hi.
    by rewrite length_fmap, col_series_length in Hi. }
  assert (i ∈ adv_matches adv used (Str e)) as Hin.
  { unfold adv_matches. apply list_elem_of_filter. split.
    - by rewrite Hi.
    - apply elem_of_seq. lia. }
  destruct (adv_matches adv used (Str e)) as [|j m] eqn:Hm;
    [by apply elem_of_nil in Hin|].
  pose proof Hm as Hhead. unfold adv_matches in Hhead.
  apply filter_head in Hhead as (k & Hk & [Hje Hju] & Hfirst).
  apply lookup_seq in Hk as [-> Hklen]. simpl in *.
  assert (adv_email_norm adv !! k = Some e) as Hke.
  { destruct (adv_email_norm adv !! k); by simplify_eq/=. }
  exists k. split_and!; [|done|done| |].
  - destruct (decide (k ≤ i)%nat) as [|Hgt]; [done|]. exfalso.
    apply (Hfirst i i); [lia| |].
    + apply lookup_seq. split; [done|lia].
    + by rewrite Hi.
  - intros k' Hk' [Hk'e Hk'u]. apply (Hfirst k' k'); [done| |].
    + apply lookup_seq. split; [done|lia].
    + by rewrite Hk'e.
  - intros score threshold sw_idx. split_and!.
    + unfold decide_row. rewrite He, Hm.
      rewrite bool_decide_eq_true_2; [done|]. intros [= ->]. done.
    + apply list_lookup_insert_eq. by eapply lookup_lt_Some.
    + apply annotate_kind.
    + apply annotate_score.
Qed.

Lemma email_match_takes_priority_witness :
  ∃ j, decide_row exact_ratio 80 example_contacts [false; false]
         (mkrow [("_email_norm", Str "a@x.com")])
       = Ok (EmailMatched j, <[j := true]> [false; false]).
Proof.
  destruct (email_match_takes_priority example_contacts [false; false]
              (mkrow [("_email_norm", Str "a@x.com")]) "a@x.com" 0)
    as (j & _ & _ & _ & _ & H); [by vm_compute|done|by vm_compute|done|].
  exists j. exact (proj1 (H exact_ratio 80 0%nat)).
Defined.

End EmailPriority.

Section Blocking.

(** Each filter of the blocking either restricts the pool to a part that is
    not empty or leaves the pool it was given (or the unfiltered one). *)
Lemma domain_block_fallback adv unused dom pool :
  domain_block adv unused dom = Ok pool →
  pool = unused
  ∨ (pool ≠ [] ∧ pool = filter (λ i, adv_domain adv i = dom) unused).
Proof.
  unfold domain_block. case_bool_decide; [intros [= <-]; by left|].
  destruct (has_col adv adv_email_col); [|done].
  case_bool_decide as Hlen; intros [= <-]; [right|by left].
  split; [|done]. intros E. rewrite E in Hlen. simpl in Hlen. lia.
Qed.

Lemma initials_block_fallback adv unused candidates sw_first sw_last pool :
  initials_block adv unused candidates sw_first sw_last = Ok pool →
  pool = candidates ∨ pool = unused
  ∨ (pool ≠ []
     ∧ pool = filter (λ i, adv_initials adv i = sw_initials sw_first sw_last) unused).
Proof.
  unfold initials_block. destruct (_ && _ && _); [|intros [= <-]; by left].
  destruct (has_col adv adv_first_col); [|done].
  destruct (has_col adv adv_last_col); [|done].
  case_bool_decide as Hlen; intros [= <-]; [right; by left|right; right].
  split; [|done]. intros E. by rewrite E in Hlen.
Qed.

Lemma raw_block_fallback contacts sk :
  RawData.block contacts sk = RawData.adv_keys contacts
  ∨ (RawData.block contacts sk ≠ []
     ∧ RawData.block contacts sk
       = List.filter (RawData.near sk) (RawData.adv_keys contacts)).
Proof.
  unfold RawData.block. case_bool_decide; [|by left].
  destruct (List.filter _ _); [by left|by right].
Qed.

(** C7: the pool handed to the scoring is empty only when no contact row is
    left: in [match_unmatched_by_email_then_fuzzy] the pool is a part of the
    unused rows that is not empty, and blocking returns (rather than raises)
    whenever the contact table has the columns it reads; in
    [match_by_name_and_company] the pool is a part of the contact keys that is
    not empty. A filter whose result would be empty is dropped: each stage
    returns either its filter's result, not empty, or an unfiltered pool. *)
Theorem blocking_never_empties_pool adv used sw_row pool
    (contacts : list row) (sk : string) :
  unused_adv adv used ≠ [] →
  block adv used sw_row = Ok pool →
  RawData.adv_keys contacts ≠ [] →
  (pool ≠ [] ∧ pool ⊆ unused_adv adv used)
  ∧ (RawData.block contacts sk ≠ []
     ∧ RawData.block contacts sk ⊆ RawData.adv_keys contacts)
  ∧ (∀ used' sw_row',
       has_col adv adv_email_col = true →
       has_col adv adv_first_col = true →
       has_col adv adv_last_col = true →
       ∃ pool', block adv used' sw_row' = Ok pool')
  ∧ (∀ unused dom p,
       domain_block adv unused dom = Ok p →
       p = unused ∨ (p ≠ [] ∧ p = filter (λ i, adv_domain adv i = dom) unused))
  ∧ (∀ unused candidates sw_first sw_last p,
       initials_block adv unused candidates sw_first sw_last = Ok p →
       p = candidates ∨ p = unused
       ∨ (p ≠ [] ∧ p = filter (λ i, adv_initials adv i
                                    = sw_initials sw_first sw_last) unused))
  ∧ (RawData.block contacts sk = RawData.adv_keys contacts
     ∨ (RawData.block contacts sk ≠ []
        ∧ RawData.block contacts sk
          = List.filter (RawData.near sk) (RawData.adv_keys contacts))).
Proof.
  intros Hunused Hpool Hkeys.
  split; [|split; [|split; [|split; [|split]]]].
  - apply block_spec in Hpool as [Hsub Hne]. auto.
  - destruct (RawDataFacts.raw_block_spec contacts sk) as [Hsub Hne]. auto.
  - intros used' sw_row'. apply block_total.
  - apply domain_block_fallback.
  - apply initials_block_fallback.
  - apply raw_block_fallback.
Qed.

Lemma blocking_never_empties_pool_witness :
  [1%nat] ≠ []
  ∧ RawData.block (RawData.adv_rows example_raw_contacts) "al | x" ≠ [].
Proof.
  destruct (blocking_never_empties_pool example_contacts [true; false]
              (mkrow [("Email_Address", Str "ann@x.com"); ("First_Name_", Str "Ann")])
              [1%nat] (RawData.adv_rows example_raw_contacts) "al | x")
    as ([H1 _] & [H2 _] & _).
  - by vm_compute.
  - by vm_compute.
  - rewrite RawDataFacts.adv_rows_keys. by vm_compute.
  - split; [exact H1|exact H2].
Defined.

End Blocking.

Section Selection.

(** C8 (as the specification states it, for [match_by_name_and_company]): a
    match there marks nothing consumed. A row matched to a candidate is, when
    it comes again right after, matched to the same candidate. *)
Lemma name_and_company_consumes_nothing :
  ∃ contacts sw_row,
    ∀ token_set_ratio,
      (Qc_of_Z 90 ≤ token_set_ratio "john smith | acme" "john smith | acme")%Qc →
      ∃ out score,
        RawData.match_rows token_set_ratio 90 (RawData.adv_rows contacts)
          [sw_row; sw_row] = Ok out
        ∧ out.*1 = [RawData.RawMatched 0 score; RawData.RawMatched 0 score].
Proof.
  exists example_raw_contacts, (mkrow [("Key", Str "john smith | acme")]).
  intros score Hs. set (k := "john smith | acme") in *.
  assert (RawData.adv_keys (RawData.adv_rows example_raw_contacts) = [k]) as Hkeys.
  { rewrite RawDataFacts.adv_rows_keys. by vm_compute. }
  assert (RawData.decide_key score 90 (RawData.adv_rows example_raw_contacts) k
          = Ok (RawData.RawMatched 0 (score k k))) as Hd.
  { assert (RawData.block (RawData.adv_rows example_raw_contacts) k = [k]) as Hb
      by (unfold RawData.block; by rewrite Hkeys).
    destruct (RawDataFacts.decide_key_spec score 90 _ k
                (RawDataFacts.adv_rows_keyed example_raw_contacts))
      as [[Hnil _]|(n & k' & (Hn & _ & _) & H)]; rewrite Hb in *; [done|].
    apply list_elem_of_lookup_2, list_elem_of_singleton in Hn as ->.
    destruct H as [[Hlow _]|(_ & i & Hi & _ & ->)]; [by apply Qclt_not_le in Hlow|].
    rewrite Hkeys in Hi. apply lookup_lt_Some in Hi.
    by replace i with 0%nat by (simpl in Hi; lia). }
  destruct (RawDataFacts.match_rows_by_keys score 90
              (RawData.adv_rows example_raw_contacts)
              [mkrow [("Key", Str k)]; mkrow [("Key", Str k)]] [k; k]
              [RawData.RawMatched 0 (score k k); RawData.RawMatched 0 (score k k)])
    as (out & Hout & Hds).
  { repeat constructor; by vm_compute. }
  { by repeat constructor. }
  by exists out, (score k k).
Qed.

(** C8 (amended). With a positive threshold, the fuzzy stage of
    [match_unmatched_by_email_then_fuzzy] scores every candidate of the pool
    and either no candidate reaches the threshold and the row is [Unmatched],
    or the first candidate of highest score reaches it and the row is
    [FuzzyMatched] with that candidate, flagged used, and that score, written
    to [Match_Score] beside ['fuzzy_matched']. [match_by_name_and_company]
    selects the first key of highest score in the same way, by the order of
    the scores as the package gives them (floats under rapidfuzz), and emits
    [Matched = True] exactly when the score reaches the threshold, with the
    integer part of the score as [Match_Score]; it marks no candidate
    consumed. *)
Theorem fuzzy_selects_first_best token_set_ratio threshold adv used sw_row pool
    sw_idx (raw_ratio : string → string → Qc) (contacts : list row) (sk : string)
    (raw_row : row) :
  0 < threshold →
  block adv used sw_row = Ok pool →
  keyed contacts →
  (((∀ j, j ∈ pool → token_set_ratio (sw_key sw_row) (adv_key adv j) < threshold)
    ∧ fuzzy_stage token_set_ratio threshold adv used sw_row = Ok (Unmatched, used))
   ∨ ∃ k i,
       first_best (λ j, token_set_ratio (sw_key sw_row) (adv_key adv j)) pool k i
       ∧ threshold ≤ token_set_ratio (sw_key sw_row) (adv_key adv i)
       ∧ fuzzy_stage token_set_ratio threshold adv used sw_row
         = Ok (FuzzyMatched i (token_set_ratio (sw_key sw_row) (adv_key adv i)),
               <[i := true]> used)
       ∧ <[i := true]> used !! i = Some true
       ∧ rec_of adv sw_idx sw_row
           (FuzzyMatched i (token_set_ratio (sw_key sw_row) (adv_key adv i)))
         !! "Matched_or_not" = Some (Str "fuzzy_matched")
       ∧ rec_of adv sw_idx sw_row
           (FuzzyMatched i (token_set_ratio (sw_key sw_row) (adv_key adv i)))
         !! "Match_Score"
         = Some (Num (token_set_ratio (sw_key sw_row) (adv_key adv i))))
  ∧ ((RawData.block contacts sk = []
      ∧ RawData.decide_key raw_ratio threshold contacts sk
        = Ok RawData.NoCandidate)
     ∨ ∃ n k,
         first_best_score (raw_ratio sk) (RawData.block contacts sk) n k
         ∧ (((raw_ratio sk k < Qc_of_Z threshold)%Qc
             ∧ RawData.decide_key raw_ratio threshold contacts sk
               = Ok (RawData.BelowThreshold (raw_ratio sk k)))
            ∨ ((Qc_of_Z threshold ≤ raw_ratio sk k)%Qc
               ∧ ∃ i,
                   RawData.adv_keys contacts !! i = Some k
                   ∧ (∀ j, (j < i)%nat → RawData.adv_keys contacts !! j ≠ Some k)
                   ∧ RawData.decide_key raw_ratio threshold contacts sk
                     = Ok (RawData.RawMatched i (raw_ratio sk k))
                   ∧ RawData.rec_of contacts raw_row
                       (RawData.RawMatched i (raw_ratio sk k)) !! "Matched"
                     = Some (Bool true)
                   ∧ RawData.rec_of contacts raw_row
                       (RawData.RawMatched i (raw_ratio sk k)) !! "Match_Score"
                     = Some (Num (py_int (raw_ratio sk k)))))).
Proof.
  intros Hpos Hpool Hkeyed. split.
  - unfold fuzzy_stage, bind. rewrite Hpool.
    pose proof (best_match_spec token_set_ratio adv (sw_key sw_row) pool) as [Hmax Hbest].
    destruct (best_match _ _ _ pool) as [s [i|]]; simpl in *.
    + destruct Hbest as (Hs & k & Hk & <- & Hfirst).
      case_bool_decide as Hthr.
      * right. exists k, i. split_and!; try done.
        -- apply list_lookup_insert_eq.
           eapply lookup_lt_Some, block_unused; [done|].
           by eapply list_elem_of_lookup_2.
        -- apply annotate_kind.
        -- apply annotate_score.
      * left. split; [|done]. intros j Hj. specialize (Hmax j Hj). lia.
    + left. split; [|done]. intros j Hj. specialize (Hmax j Hj). lia.
  - destruct (RawDataFacts.decide_key_spec raw_ratio threshold contacts sk Hkeyed)
      as [?|(n & k & Hbest & [?|(Hthr & i & Hi & Hfirst & Hd)])]; [by left|right..].
    + exists n, k. split; [done|]. by left.
    + exists n, k. split; [done|]. right. split; [done|]. exists i.
      split_and!; try done; simpl.
      * rewrite lookup_insert_ne by done. by rewrite lookup_insert_eq.
      * by rewrite lookup_insert_eq.
Qed.

(** Three candidates compete in each matcher: one that only reaches the
    threshold, then two that tie above it. The second candidate is selected
    in both; [match_by_name_and_company] orders 94.12 below 94.44 and writes
    94. *)
Lemma fuzzy_selects_first_best_witness :
  fuzzy_stage graded_ratio 80 example_pool_contacts [false; false; false]
    example_pool_row
  = Ok (FuzzyMatched 1 100, [false; true; false])
  ∧ RawData.decide_key float_score 90 (RawData.adv_rows example_raw_pool)
      "john smith | acme"
    = Ok (RawData.RawMatched 1 (Q2Qc (9444 # 100)))
  ∧ RawData.rec_of (RawData.adv_rows example_raw_pool) ∅
      (RawData.RawMatched 1 (Q2Qc (9444 # 100))) !! "Match_Score"
    = Some (Num 94).
Proof.
  set (sk := "john smith | acme").
  assert (RawData.adv_keys (RawData.adv_rows example_raw_pool)
          = ["jon smith | acme"; "john smith | acme"; "john smyth | acme"]) as Hkeys.
  { rewrite RawDataFacts.adv_rows_keys. by vm_compute. }
  assert (RawData.block (RawData.adv_rows example_raw_pool) sk
          = ["jon smith | acme"; "john smith | acme"; "john smyth | acme"]) as Hb
    by (unfold RawData.block; by rewrite Hkeys).
  destruct (fuzzy_selects_first_best graded_ratio 80 example_pool_contacts
              [false; false; false] example_pool_row [0; 1; 2]%nat 0
              float_score (RawData.adv_rows example_raw_pool) sk ∅)
    as [Hfuzzy Hraw].
  - done.
  - by vm_compute.
  - apply RawDataFacts.adv_rows_keyed.
  - split; [|split].
    + clear Hraw Hkeys Hb.
      destruct Hfuzzy as [[Hlow _]|(k & i & (Hk & Hmax & Hfirst) & _ & Hrun & _)].
      * exfalso. assert (1%nat ∈ [0; 1; 2]%nat) as Hin by repeat constructor.
        apply Hlow in Hin. vm_compute in Hin. discriminate Hin.
      * destruct k as [|[|[|k]]]; simpl in Hk; [| | |discriminate Hk];
          injection Hk as <-.
        -- exfalso. assert (1%nat ∈ [0; 1; 2]%nat) as Hin by repeat constructor.
           apply Hmax in Hin. vm_compute in Hin. exact (Hin eq_refl).
        -- rewrite Hrun. vm_compute. reflexivity.
        -- exfalso.
           assert (graded_ratio (sw_key example_pool_row) (adv_key example_pool_contacts 1)
                   < graded_ratio (sw_key example_pool_row) (adv_key example_pool_contacts 2))
             as Hlt by (apply (Hfirst 1%nat 1%nat); [lia|reflexivity]).
           vm_compute in Hlt. discriminate Hlt.
    + clear Hfuzzy.
      destruct Hraw as [[Hnil _]|(n & k & (Hn & Hmax & Hfirst) & H)];
        rewrite Hb in *; [discriminate Hnil|].
      destruct n as [|[|[|n]]]; simpl in Hn; [| | |discriminate Hn];
        injection Hn as <-.
      * exfalso.
        assert ("john smith | acme" ∈ ["jon smith | acme"; "john smith | acme";
                                       "john smyth | acme"]) as Hin
          by (apply list_elem_of_In; simpl; tauto).
        apply Hmax, Qcle_not_lt in Hin. apply Hin. reflexivity.
      * destruct H as [[Hlow _]|(_ & i & Hi & Hfst & Hd & _)].
        -- exfalso. apply Qclt_not_le in Hlow. apply Hlow. by vm_compute.
        -- rewrite Hkeys in Hi, Hfst.
           destruct i as [|[|[|i]]]; simpl in Hi;
             [discriminate Hi|exact Hd| |discriminate Hi].
           exfalso. by apply (Hfst 1%nat); [lia|].
      * exfalso.
        assert (float_score sk "john smith | acme" < float_score sk "john smyth | acme")%Qc
          as Hlt by (apply (Hfirst 1%nat "john smith | acme"); [lia|reflexivity]).
        apply Qclt_not_le in Hlt. apply Hlt. by vm_compute.
    + simpl. by rewrite lookup_insert_eq.
Defined.

End Selection.

Section MissingKey.

(** C9: when the contact table has no CRD column under any of the names
    tried, [match_contacts_by_crd_and_email] logs one warning and returns (it
    raises nothing) the Schwab rows, in order, each with [Matched_or_not =
    'unmatched'], [Match_Score = 0], [adv_Email_ = None], [adv_Record_ID =
    None] and its other values unchanged. *)
Theorem no_crd_column_all_unmatched adv sw :
  (∀ c, c ∈ crd_candidates → c ∉ columns adv) →
  (match_contacts_by_crd_and_email adv sw).1 = [WarnNoCrdColumn (take 10 (columns adv))]
  ∧ length (rows (match_contacts_by_crd_and_email adv sw).2) = length (rows sw)
  ∧ ∀ n sw_row,
      rows sw !! n = Some sw_row →
      ∃ r, rows (match_contacts_by_crd_and_email adv sw).2 !! n = Some r
           ∧ r !! "Matched_or_not" = Some (Str "unmatched")
           ∧ r !! "Match_Score" = Some (Num 0)
           ∧ r !! "adv_Email_" = Some PyNone
           ∧ r !! "adv_Record_ID" = Some PyNone
           ∧ ∀ c, c ∉ annotation_columns → r !! c = sw_row !! c.
Proof.
  intros Hnone. unfold match_contacts_by_crd_and_email.
  rewrite (find_col_none crd_candidates adv Hnone). simpl.
  split; [done|]. split; [by rewrite !length_fmap|].
  intros n sw_row Hn. eexists. split; [by rewrite !list_lookup_fmap, Hn|].
  change (<["adv_Record_ID":=PyNone]> (<["adv_Email_":=PyNone]>
            (<["Match_Score":=Num 0]> (<["Matched_or_not":=Str "unmatched"]> sw_row))))
    with (with_annotation unmatched_annotation sw_row).
  destruct (with_annotation_lookup unmatched_annotation sw_row) as (? & ? & ? & ?).
  split_and!; try done. intros c Hc.
  by apply (with_annotation_other unmatched_annotation).
Qed.

Lemma no_crd_column_all_unmatched_witness :
  (match_contacts_by_crd_and_email example_contacts_no_crd example_schwab).1
  = [WarnNoCrdColumn ["Email"; "ID"]].
Proof.
  refine (proj1 (no_crd_column_all_unmatched example_contacts_no_crd example_schwab _)).
  intros c Hc Hin. unfold crd_candidates in Hc. simpl in Hin.
  apply list_elem_of_In in Hc, Hin. simpl in Hc, Hin.
  destruct Hin as [<-|[<-|[]]]; by repeat destruct Hc as [Hc|Hc].
Defined.

(** When the Schwab table has no [Matched_CRD] column the loop of lines
    161-172 is skipped: every row is annotated as unmatched, though nothing is
    logged about it. *)
Lemma no_schwab_crd_all_unmatched adv sw n r :
  has_col sw "Matched_CRD" = false →
  rows (match_contacts_by_crd_and_email adv sw).2 !! n = Some r →
  r !! "Matched_or_not" = Some (Str "unmatched") ∧ r !! "Match_Score" = Some (Num 0)
  ∧ r !! "adv_Email_" = Some PyNone ∧ r !! "adv_Record_ID" = Some PyNone.
Proof.
  intros Hno. unfold match_contacts_by_crd_and_email.
  destruct (find_col crd_candidates adv) as [crd_col|]; simpl.
  - rewrite has_col_ensure_col, Hno by done.
    rewrite lookup_zip_with.
    destruct (rows (ensure_col "Email_Address" sw) !! n) as [r0|]; [|done]. simpl.
    rewrite list_lookup_fmap.
    destruct (rows (ensure_col "Email_Address" sw) !! n); [|done]. simpl.
    intros [= <-]. apply with_annotation_lookup.
  - rewrite !list_lookup_fmap. destruct (rows sw !! n) as [r0|]; [|done]. simpl.
    intros [= <-].
    apply (with_annotation_lookup unmatched_annotation r0).
Qed.

End MissingKey.

Section EmptyKey.

(** The keys that [match_by_name_and_company] itself builds hold the bar
    between name and company, so none of them is empty. *)
Lemma built_keys_nonempty df r :
  r ∈ RawData.sw_rows df → ∃ k, r !! "Key" = Some (Str k) ∧ k ≠ "".
Proof.
  intros (i & Hi)%list_elem_of_lookup. unfold RawData.sw_rows in Hi.
  apply RawDataFacts.keyed_rows_lookup in Hi as (k & Hk & Hr).
  exists k. split; [done|]. unfold RawData.sw_keys in Hk.
  rewrite RawDataFacts.zip_with3_lookup in Hk.
  apply bind_Some in Hk as (a & _ & Hk). apply bind_Some in Hk as (b & _ & Hk).
  apply bind_Some in Hk as (c & _ & Hk).
  injection Hk as <-. apply RawDataFacts.build_key_nonempty.
Qed.


End EmptyKey.

(* ===================================================================== *)
(** * [normalize_company_name]: shape of the result, trailing tokens      *)
(* ===================================================================== *)

Module NormalizerMore.
Import PyStr PyStrFacts Re ReFacts NormalizerFacts.

Lemma normalize_str_normalized x : normalized (normalize_str x).
Proof.
  split_and!.
  - apply normalize_str_lowered.
  - apply normalize_str_texty.
  - apply normalize_post_spaced.
  - apply strip_stripped.
Qed.

(** Every listed token is made of word characters. *)
Lemma tokens_word t :
  In t suffix_tokens →
  forallb isword t = true ∧ forallb lowered t = true ∧ t ≠ ""
  ∧ ∃ c, last t = Some c ∧ isword c = true.
Proof.
  unfold suffix_tokens. simpl. intros H.
  repeat (destruct H as [<-|H];
          [split_and!; [by vm_compute|by vm_compute|done|eexists; split; [reflexivity|by vm_compute]]|]).
  done.
Qed.

(** A listed token that stands alone after a blank is found by the pattern. *)
Lemma search_suffix_token prev t :
  In t suffix_tokens → isword_opt prev = false →
  search_suffix_from prev t = Some ("", "").
Proof.
  unfold suffix_tokens. simpl. intros H Hp.
  repeat (destruct H as [<-|H];
          [cbn [search_suffix_from]; unfold suffix_at, word_boundary; rewrite Hp; by vm_compute|]).
  done.
Qed.

Lemma suffix_at_blank prev s : suffix_at prev (String " " s) = None.
Proof. unfold suffix_at. by destruct (word_boundary _ _). Qed.

Lemma forallb_isword_blank a b : forallb isword (a +:+ String " " b) = false.
Proof.
  induction a as [|c a IH]; [done|].
  rewrite append_cons. cbn [forallb]. by rewrite IH, andb_false_r.
Qed.

(** The pattern does not match where a blank and a listed token are still to
    come: a match would have to run to the end of the text. *)
Lemma suffix_at_before_blank prev a t :
  In t suffix_tokens → suffix_at prev (a +:+ String " " t) = None.
Proof.
  intros Ht.
  destruct (suffix_at prev (a +:+ String " " t)) as [rest|] eqn:E; [exfalso|done].
  assert (search_suffix_from prev (a +:+ String " " t) = Some ("", rest)) as Hs.
  { destruct (a +:+ String " " t); simpl; by rewrite E. }
  apply search_suffix_from_spec in Hs as (t' & r & Ht' & Heq & Hr & _).
  rewrite append_nil in Heq.
  destruct (tokens_word t Ht) as (_ & _ & Hne & c & Hc & Hw).
  apply end_anchor_cases in Hr as [[-> ->]|Hr].
  - rewrite append_empty_r in Heq.
    pose proof (forallb_isword_blank a t) as Hb. rewrite Heq in Hb.
    destruct (tokens_word t' Ht') as (Hw' & _). congruence.
  - assert (r ≠ "") as Hrne by (intros ->; by destruct Hr).
    assert (last (a +:+ String " " t) = Some c) as Hl.
    { replace (a +:+ String " " t) with ((a +:+ " ") +:+ t)
        by (by rewrite append_assoc).
      by rewrite last_app_nonempty. }
    rewrite Heq, last_app_nonempty in Hl by done.
    destruct Hr as [Hr|Hr]; rewrite Hr in Hl; injection Hl as <-; by vm_compute in Hw.
Qed.

Lemma search_suffix_appended prev a t :
  In t suffix_tokens →
  search_suffix_from prev (a +:+ String " " t) = Some (a +:+ " ", "").
Proof.
  intros Ht. revert prev. induction a as [|c a IH]; intros prev.
  - rewrite append_nil. cbn [search_suffix_from]. rewrite suffix_at_blank.
    by rewrite (search_suffix_token (Some " "%char) t Ht).
  - pose proof (suffix_at_before_blank prev (String c a) t Ht) as Hnone.
    rewrite append_cons in *. cbn [search_suffix_from]. rewrite Hnone.
    by rewrite IH.
Qed.

Lemma rstrip_app_blank a : rstrip (a +:+ " ") = rstrip a.
Proof.
  induction a as [|c a IH]; [done|].
  rewrite append_cons. cbn [rstrip]. by rewrite IH.
Qed.

Lemma head_app a b : a ≠ "" → head (a +:+ b) = head a.
Proof. by destruct a. Qed.

Lemma lstrip_app a b :
  (∀ c, head a = Some c → isspace c = false) → a ≠ "" → lstrip (a +:+ b) = a +:+ b.
Proof. intros H Hne. apply lstrip_id. by rewrite head_app. Qed.

End NormalizerMore.

Section NormalizerShape.
Import PyStr PyStrFacts Re ReFacts NormalizerFacts NormalizerMore.

(** X1. Whatever the cell, the name returned has the normalized shape: no
    upper-case letter, no punctuation, single blanks only, none at either
    end. *)
Theorem normalized_name_shape (name : cell) :
  normalized (normalize_company_name name).
Proof.
  unfold normalize_company_name. destruct (negb (py_truthy name)).
  - by split_and!; [..|split].
  - apply normalize_str_normalized.
Qed.

(** X2. A listed suffix token written after a normalized name, with a blank
    between them, is stripped again: the name comes back. *)
Theorem appended_token_is_stripped (x t : string) :
  In t Re.suffix_tokens →
  normalize_company_name (Str (normalize_company_name (Str x) +:+ " " +:+ t))
  = normalize_company_name (Str x).
Proof.
  intros Ht. rewrite !normalize_company_name_str.
  destruct (normalize_str_normalized x) as (Hlow & Htxt & Hsp & Hhead & Hlast).
  destruct (tokens_word t Ht) as (Hw & Hlt & Hne & c & Hc & Hcw).
  pose proof (normalize_post_fixed x) as Hfix.
  set (s := normalize_str x) in *.
  destruct (decide (s = "")) as [->|Hs].
  - rewrite append_nil. unfold normalize_str at 1, normalize_pre.
    assert (strip (" " +:+ t) = t) as ->.
    { unfold strip. rewrite append_cons, append_nil. cbn [lstrip].
      replace (isspace " ") with true by (by vm_compute).
      rewrite lstrip_id, rstrip_id; [done|..].
      - intros d Hd. rewrite Hc in Hd. injection Hd as <-.
        destruct (isspace c) eqn:E; [|done]. apply space_not_word in E. congruence.
      - destruct t as [|d t]; [done|]. simpl. intros ? [= <-].
        cbn [forallb] in Hw. apply andb_true_iff in Hw as [Hd _].
        destruct (isspace d) eqn:E; [|done]. apply space_not_word in E. congruence. }
    rewrite lower_id by done.
    rewrite sub_punct_id.
    2:{ revert Hw. apply forallb_impl. intros d Hd. unfold texty. by rewrite Hd. }
    unfold sub_suffix, search_suffix.
    by rewrite (search_suffix_token None t Ht).
  - assert (normalize_pre (s +:+ " " +:+ t) = s +:+ " " +:+ t) as Hpre.
    { unfold normalize_pre.
      assert (strip (s +:+ " " +:+ t) = s +:+ " " +:+ t) as ->.
      { apply stripped_strip. split.
        - rewrite head_app by done. apply Hhead.
        - replace (s +:+ " " +:+ t) with ((s +:+ " ") +:+ t)
            by (by rewrite append_assoc).
          rewrite last_app_nonempty by done. rewrite Hc. intros ? [= <-].
          destruct (isspace c) eqn:E; [|done]. apply space_not_word in E. congruence. }
      rewrite lower_id.
      2:{ rewrite !forallb_app, Hlow, Hlt. done. }
      apply sub_punct_id. rewrite !forallb_app, Htxt. simpl.
      revert Hw. apply forallb_impl. intros d Hd. unfold texty. by rewrite Hd. }
    unfold normalize_str at 1. rewrite Hpre.
    unfold sub_suffix, search_suffix.
    change (s +:+ " " +:+ t) with (s +:+ String " " t).
    rewrite (search_suffix_appended None s t Ht), append_empty_r.
    rewrite <- Hfix at 2.
    unfold normalize_post. f_equal. f_equal.
    unfold strip. rewrite lstrip_app by done.
    rewrite rstrip_app_blank. by rewrite lstrip_id.
Qed.

Lemma appended_token_is_stripped_witness :
  normalize_company_name (Str (normalize_company_name (Str "Beta & Sons") +:+ " " +:+ "llc"))
  = normalize_company_name (Str "Beta & Sons").
Proof. apply appended_token_is_stripped. simpl. tauto. Defined.

(** X3. A name whose last character, once stripped, is a punctuation mark
    keeps its suffix token: the mark has become a blank by the time the
    suffix pattern runs, and the pattern wants the token at the very end. The
    result is that of the other steps alone. *)
Theorem trailing_mark_keeps_suffix (x : string) (c : ascii) :
  PyStr.last (PyStr.strip x) = Some c →
  PyStr.isword c = false →
  Re.sub_suffix (normalize_pre x) = normalize_pre x
  ∧ normalize_company_name (Str x) = normalize_post (normalize_pre x).
Proof.
  intros Hc Hw.
  assert (last (normalize_pre x) = Some " "%char) as Hl.
  { unfold normalize_pre, sub_punct, lower. rewrite !last_map, Hc. simpl.
    assert (isspace c = false) as Hsp by (by eapply (proj2 (strip_stripped x))).
    by rewrite isword_lower_char, isspace_lower_char, Hw, Hsp. }
  assert (sub_suffix (normalize_pre x) = normalize_pre x) as Hsub.
  { unfold sub_suffix, search_suffix.
    destruct (search_suffix_from None (normalize_pre x)) as [[b rest]|] eqn:E; [exfalso|done].
    apply search_suffix_from_spec in E as (t & r & Ht & Hs & Hr & _).
    destruct (tokens_word t Ht) as (_ & _ & Hne & d & Hd & Hdw).
    rewrite Hs in Hl. apply end_anchor_cases in Hr as [[-> ->]|Hr].
    - rewrite append_empty_r, last_app_nonempty in Hl by done.
      rewrite Hd in Hl. injection Hl as ->. by vm_compute in Hdw.
    - assert (r ≠ "") as Hrne by (intros ->; by destruct Hr).
      rewrite <- append_assoc, last_app_nonempty in Hl by done.
      destruct Hr as [Hr|Hr]; rewrite Hr in Hl; by vm_compute in Hl. }
  split; [done|]. rewrite normalize_company_name_str. unfold normalize_str.
  by rewrite Hsub.
Qed.

Lemma trailing_mark_keeps_suffix_witness :
  normalize_company_name (Str "Acme Inc.") = "acme inc".
Proof.
  rewrite (proj2 (trailing_mark_keeps_suffix "Acme Inc." "."%char eq_refl eq_refl)).
  by vm_compute.
Defined.

End NormalizerShape.

(* ===================================================================== *)
(** * [match_unmatched_by_email_then_fuzzy]: errors, bounds, records      *)
(* ===================================================================== *)

Section EmailThenFuzzyEdges.

(** X4. [_col_series] guards the first use of the contact email column, the
    blocking does not: when the contact table has no [Email_] column and some
    Schwab row carries an address with a domain, the call raises [KeyError]
    (that of [Email_], or of a name column that an earlier row indexed). *)
Theorem missing_email_column_raises token_set_ratio threshold adv sw n sw_row :
  has_col adv adv_email_col = false →
  rows sw !! n = Some sw_row →
  sw_email_domain sw_row ≠ "" →
  ∃ col, col ∈ [adv_email_col; adv_first_col; adv_last_col]
         ∧ match_unmatched_by_email_then_fuzzy token_set_ratio threshold adv sw
           = Raise (KeyError col).
Proof.
  intros Hno Hn Hdom.
  destruct (match_rows_raises token_set_ratio threshold adv 0 (init_used adv)
              (with_email_norm sw) n _ Hno (with_email_norm_value sw n sw_row Hn))
    as (col & Hcol & Hraise).
  { by rewrite sw_email_domain_with_norm. }
  exists col. split; [done|].
  unfold match_unmatched_by_email_then_fuzzy, match_unmatched_decisions, bind.
  by rewrite Hraise.
Qed.

Lemma missing_email_column_raises_witness :
  ∃ col, col ∈ [adv_email_col; adv_first_col; adv_last_col]
         ∧ match_unmatched_by_email_then_fuzzy exact_ratio 80
             example_contacts_no_crd example_schwab
           = Raise (KeyError col).
Proof.
  apply (missing_email_column_raises exact_ratio 80 example_contacts_no_crd
           example_schwab 1
           (mkrow [("Email_Address", Str "a@x.com"); ("First_Name_", Str "Ann");
                   ("Last_Name_", Str "Lee"); ("Business_Name", Str "Acme");
                   ("Matched_CRD", NaN)])).
  - by vm_compute.
  - reflexivity.
  - by vm_compute.
Defined.

(** X5. A run matches at most as many Schwab rows as there are contact rows,
    and every match refers to a row of the contact table. *)
Theorem matches_bounded_by_contacts token_set_ratio threshold adv sw out :
  match_unmatched_decisions token_set_ratio threshold adv sw = Ok out →
  (length (consumed_list out) ≤ length (rows adv))%nat
  ∧ ∀ i, i ∈ consumed_list out → (i < length (rows adv))%nat.
Proof.
  intros [Hnd Hlt]%consumed_in_range. split; [|done].
  assert (consumed_list out ⊆+ seq 0 (length (rows adv))) as Hsub.
  { apply NoDup_submseteq; [done|]. intros i Hi%Hlt. apply elem_of_seq. lia. }
  apply submseteq_length in Hsub. by rewrite length_seq in Hsub.
Qed.

Lemma matches_bounded_by_contacts_witness :
  ∃ out,
    match_unmatched_decisions exact_ratio 80 example_contacts example_schwab = Ok out
    ∧ (length (consumed_list out) ≤ 2)%nat.
Proof.
  destruct (match_unmatched_decisions_total exact_ratio 80 example_contacts
              example_schwab eq_refl eq_refl eq_refl) as [out Hout].
  exists out. split; [exact Hout|].
  exact (proj1 (matches_bounded_by_contacts exact_ratio 80 example_contacts
                  example_schwab out Hout)).
Defined.

(** X6. With an empty contact table a run that completes reports every Schwab
    row as unmatched, with score 0. *)
Theorem no_contacts_all_unmatched token_set_ratio threshold adv sw out n d r :
  rows adv = [] →
  match_unmatched_decisions token_set_ratio threshold adv sw = Ok out →
  out !! n = Some (d, r) →
  d = Unmatched
  ∧ r !! "Matched_or_not" = Some (Str "unmatched")
  ∧ r !! "Match_Score" = Some (Num 0).
Proof.
  intros Hempty Hout Hn.
  assert (d = Unmatched) as ->.
  { destruct (consumed d) as [i|] eqn:Hd; [|by destruct d].
    apply consumed_in_range in Hout as [_ Hlt].
    pose proof (Hlt i (consumed_list_elem out n d r i Hn Hd)) as Hi.
    rewrite Hempty in Hi. simpl in Hi. lia. }
  split; [done|].
  destruct (decisions_records _ _ _ _ _ _ _ _ Hout Hn) as (sw_row & _ & _ & _ & _ & ->).
  destruct (rec_of_unmatched adv n sw_row) as (? & ? & _). done.
Qed.

Lemma no_contacts_all_unmatched_witness :
  ∃ out,
    match_unmatched_decisions exact_ratio 80 example_no_contacts example_schwab
    = Ok out
    ∧ ∀ n d r, out !! n = Some (d, r) → d = Unmatched.
Proof.
  destruct (match_unmatched_decisions_total exact_ratio 80 example_no_contacts
              example_schwab eq_refl eq_refl eq_refl) as [out Hout].
  exists out. split; [exact Hout|]. intros n d r Hn.
  exact (proj1 (no_contacts_all_unmatched exact_ratio 80 example_no_contacts
                  example_schwab out n d r eq_refl Hout Hn)).
Defined.

(** X7. A row is reported as matched by email only when both tables have
    their email column and the row's address and the contact's, stripped and
    lower-cased, are the same text and not empty. *)
Theorem email_matched_shares_address token_set_ratio threshold adv sw out n j r :
  match_unmatched_decisions token_set_ratio threshold adv sw = Ok out →
  out !! n = Some (EmailMatched j, r) →
  ∃ sw_row e,
    rows sw !! n = Some sw_row
    ∧ e ≠ ""
    ∧ has_col sw schwab_email_col = true
    ∧ has_col adv adv_email_col = true
    ∧ email_norm_of (row_get sw_row schwab_email_col NaN) = e
    ∧ email_norm_of (row_get (adv_row adv j) adv_email_col NaN) = e.
Proof.
  intros Hout Hn.
  destruct (decisions_records _ _ _ _ _ _ _ _ Hout Hn) as (sw_row' & u & u' & Hrow & Hd & _).
  apply decide_row_email in Hd as (e & He & Hne & Hj & _).
  assert (is_Some (rows sw !! n)) as [sw_row Hsw].
  { apply lookup_lt_is_Some. rewrite <- with_email_norm_length.
    by eapply lookup_lt_Some. }
  rewrite (with_email_norm_value sw n sw_row Hsw) in Hrow. injection Hrow as <-.
  unfold row_get in He. rewrite lookup_insert_eq in He. simpl in He.
  injection He as He.
  exists sw_row, e. split; [done|]. split; [done|].
  destruct (has_col sw schwab_email_col) eqn:Hs; [|by destruct Hne].
  destruct (has_col adv adv_email_col) eqn:Ha.
  2:{ by apply (adv_email_norm_no_column adv j e Ha) in Hj. }
  split_and!; [done|done|done|].
  unfold adv_email_norm, col_series in Hj. rewrite Ha in Hj.
  rewrite !list_lookup_fmap in Hj. unfold adv_row.
  destruct (rows adv !! j) as [a|]; [|done]. simpl in *. by injection Hj.
Qed.

Lemma email_matched_shares_address_witness :
  ∃ sw_row e,
    rows example_schwab !! 0%nat = Some sw_row
    ∧ e ≠ ""
    ∧ has_col example_schwab schwab_email_col = true
    ∧ has_col example_contacts adv_email_col = true
    ∧ email_norm_of (row_get sw_row schwab_email_col NaN) = e
    ∧ email_norm_of (row_get (adv_row example_contacts 0) adv_email_col NaN) = e.
Proof.
  destruct (match_unmatched_decisions_total exact_ratio 80 example_contacts
              example_schwab eq_refl eq_refl eq_refl) as [out Hout].
  assert (∃ r, out !! 0%nat = Some (EmailMatched 0, r)) as [r Hr].
  { assert (out = example_decisions) as ->
      by (unfold example_decisions; by rewrite Hout).
    pose proof example_run as Hrun.
    destruct example_decisions as [|[d r] rest]; [done|].
    injection Hrun as -> _. by exists r. }
  exact (email_matched_shares_address exact_ratio 80 example_contacts example_schwab
           out 0 0 r Hout Hr).
Defined.

(** X8. The record of a matched row carries the fields of the contact row it
    consumed, each under its column name with [adv_] before it, and none of
    the columns whose name starts with an underscore. *)
Theorem matched_record_carries_contact token_set_ratio threshold adv sw out n d r j :
  match_unmatched_decisions token_set_ratio threshold adv sw = Ok out →
  out !! n = Some (d, r) →
  consumed d = Some j →
  (∀ c, public_name c = true → r !! ("adv_" +:+ c) = adv_row adv j !! c)
  ∧ (∀ c, public_name c = false → r !! ("adv_" +:+ c) = None).
Proof.
  intros Hout Hn Hd.
  destruct (decisions_records _ _ _ _ _ _ _ _ Hout Hn) as (sw_row & _ & _ & _ & _ & ->).
  split; intros c Hc; rewrite (rec_of_adv adv n sw_row d j c Hd), Hc; done.
Qed.

Lemma matched_record_carries_contact_witness :
  ∃ out r,
    match_unmatched_decisions exact_ratio 80 example_contacts example_schwab = Ok out
    ∧ out !! 0%nat = Some (EmailMatched 0, r)
    ∧ r !! "adv_Record_ID" = Some (Num 1001).
Proof.
  destruct (match_unmatched_decisions_total exact_ratio 80 example_contacts
              example_schwab eq_refl eq_refl eq_refl) as [out Hout].
  assert (∃ r, out !! 0%nat = Some (EmailMatched 0, r)) as [r Hr].
  { assert (out = example_decisions) as ->
      by (unfold example_decisions; by rewrite Hout).
    pose proof example_run as Hrun.
    destruct example_decisions as [|[d r] rest]; [done|].
    injection Hrun as -> _. by exists r. }
  exists out, r. split; [exact Hout|]. split; [exact Hr|].
  etrans;
    [exact (proj1 (matched_record_carries_contact exact_ratio 80 example_contacts
                     example_schwab out 0 (EmailMatched 0) r 0 Hout Hr eq_refl)
              "Record_ID" eq_refl)|].
  reflexivity.
Defined.

(** X9. The helper column [_email_norm] that line 198 adds to the Schwab
    table is part of every row the function returns, as
    [schwab__email_norm]. *)
Theorem email_norm_is_exported token_set_ratio threshold adv sw logs result n sw_row :
  match_unmatched_by_email_then_fuzzy token_set_ratio threshold adv sw
  = Ok (logs, result) →
  rows sw !! n = Some sw_row →
  ∃ r, result !! n = Some r
       ∧ r !! "schwab__email_norm"
         = Some (Str (email_norm_of (if has_col sw schwab_email_col
                                     then row_get sw_row schwab_email_col NaN
                                     else Str ""))).
Proof.
  intros Hrun Hn.
  destruct (fuzzy_result_rows _ _ _ _ _ _ Hrun) as (out & Hout & Hlen & _).
  assert (is_Some (out !! n)) as [[d r0] Hr0].
  { apply lookup_lt_is_Some. rewrite Hlen. by eapply lookup_lt_Some. }
  destruct (emitted_rows_keep_fields _ _ _ _ _ _ _ _ _ _ Hrun Hout Hr0) as (r & Hr & Hcells).
  exists r. split; [done|].
  destruct (decisions_records _ _ _ _ _ _ _ _ Hout Hr0) as (sw_row' & _ & _ & Hrow & _ & ->).
  rewrite (with_email_norm_value sw n sw_row Hn) in Hrow. injection Hrow as <-.
  edestruct (Hcells "schwab__email_norm") as (v' & Hv' & [->|[? _]]); [|done|done].
  apply (rec_of_schwab adv n _ d "_email_norm"); [|done].
  by rewrite lookup_insert_eq.
Qed.

Lemma email_norm_is_exported_witness :
  ∃ logs result r,
    match_unmatched_by_email_then_fuzzy exact_ratio 80 example_contacts example_schwab
    = Ok (logs, result)
    ∧ result !! 0%nat = Some r
    ∧ r !! "schwab__email_norm" = Some (Str "a@x.com").
Proof.
  destruct (match_unmatched_decisions_total exact_ratio 80 example_contacts
              example_schwab eq_refl eq_refl eq_refl) as [out Hout].
  assert (match_unmatched_by_email_then_fuzzy exact_ratio 80 example_contacts
            example_schwab
          = Ok ([InfoFuzzyCompleted
                   (length (attach_domain example_schwab (frame_of_records out.*2)))],
                attach_domain example_schwab (frame_of_records out.*2))) as Hrun.
  { unfold match_unmatched_by_email_then_fuzzy, bind. by rewrite Hout. }
  destruct (email_norm_is_exported exact_ratio 80 example_contacts example_schwab
              _ _ 0
              (mkrow [("Email_Address", Str " A@x.com "); ("First_Name_", Str "Zed");
                      ("Last_Name_", Str "Q"); ("Business_Name", Str "Z");
                      ("Matched_CRD", Num 9)]) Hrun eq_refl) as (r & Hr & Hnorm).
  eexists _, _, r. split; [exact Hrun|]. split; [exact Hr|]. exact Hnorm.
Defined.

End EmailThenFuzzyEdges.

(* ===================================================================== *)
(** * [match_contacts_by_crd_and_email]: which row is matched, and to what *)
(* ===================================================================== *)

Section CrdMore.

(** The length test of lines 143-150 changes nothing: the row picked is the
    first of the group with an email, or the first of the group. *)
Lemma pick_best_first email_col group :
  pick_best email_col group
  = match filter (has_email email_col) group with
    | r :: _ => Some r
    | [] => head group
    end.
Proof.
  unfold pick_best. case_bool_decide as Hlen; [done|].
  destruct group as [|r [|r' group]]; [done| |simpl in Hlen; lia].
  rewrite filter_cons. by destruct (decide _).
Qed.

Lemma best_adv_fold crd_col email_col (rs : list row) keys (m : gmap cell row) crd :
  NoDup keys →
  fold_left
    (λ best '(crd, group),
       if isna crd then best
       else match pick_best email_col group with
            | Some r => <[crd := r]> best
            | None => best
            end)
    ((λ k, (k, filter (λ r, row_get r crd_col NaN = k) rs)) <$> keys) m !! crd
  = if bool_decide (crd ∈ keys) && notna crd
    then match pick_best email_col (filter (λ r, row_get r crd_col NaN = crd) rs) with
         | Some r => Some r
         | None => m !! crd
         end
    else m !! crd.
Proof.
  intros Hnd. revert m. induction Hnd as [|k keys Hk Hnd IH]; intros m; [done|].
  rewrite fmap_cons. cbn [fold_left]. rewrite IH. clear IH.
  destruct (decide (crd = k)) as [->|Hne].
  - rewrite (bool_decide_eq_false_2 (k ∈ keys)) by done.
    rewrite bool_decide_eq_true_2 by left. simpl. unfold notna.
    destruct (isna k); simpl; [done|].
    destruct (pick_best _ _); [by rewrite lookup_insert_eq|done].
  - assert (bool_decide (crd ∈ k :: keys) = bool_decide (crd ∈ keys)) as ->.
    { apply bool_decide_ext. rewrite elem_of_cons. split; [by intros [?|?]|by right]. }
    assert ((if isna k then m
             else match pick_best email_col (filter (λ r, row_get r crd_col NaN = k) rs) with
                  | Some r => <[k:=r]> m
                  | None => m
                  end) !! crd = m !! crd) as ->; [|done].
    destruct (isna k); [done|]. destruct (pick_best _ _); [|done].
    by rewrite lookup_insert_ne.
Qed.

(** The dictionary of lines 138-150: under each CRD that is not missing, the
    row picked among the contact rows that have it. *)
Lemma best_adv_per_crd_lookup crd_col email_col rs crd :
  best_adv_per_crd crd_col email_col rs !! crd
  = if isna crd then None
    else pick_best email_col (filter (same_crd crd_col crd) rs).
Proof.
  unfold best_adv_per_crd, groupby. rewrite best_adv_fold by apply NoDup_remove_dups.
  rewrite lookup_empty. unfold notna.
  change (filter (same_crd crd_col crd) rs)
    with (filter (λ r, row_get r crd_col NaN = crd) rs).
  destruct (isna crd); [by rewrite andb_false_r|]. rewrite andb_true_r.
  case_bool_decide as Hin; [by destruct (pick_best _ _)|].
  assert (filter (λ r, row_get r crd_col NaN = crd) rs = []) as ->; [|done].
  destruct (filter _ rs) as [|r l] eqn:E; [done|]. exfalso. apply Hin.
  assert (r ∈ filter (λ r, row_get r crd_col NaN = crd) rs) as Hr by (rewrite E; left).
  apply list_elem_of_filter in Hr as [Hr Hrs].
  apply elem_of_remove_dups, list_elem_of_fmap. by exists r.
Qed.

(** Which row [pick_best] gives, by its position in the table. *)
Lemma pick_best_position crd_col email_col rs crd a :
  pick_best email_col (filter (same_crd crd_col crd) rs) = Some a →
  ∃ i, rs !! i = Some a
       ∧ same_crd crd_col crd a
       ∧ ((has_email email_col a
           ∧ ∀ j b, (j < i)%nat → rs !! j = Some b → same_crd crd_col crd b →
                    ¬ has_email email_col b)
          ∨ ((∀ b, b ∈ rs → same_crd crd_col crd b → ¬ has_email email_col b)
             ∧ ∀ j b, (j < i)%nat → rs !! j = Some b → ¬ same_crd crd_col crd b)).
Proof.
  rewrite pick_best_first.
  destruct (filter (has_email email_col) (filter (same_crd crd_col crd) rs))
    as [|r l] eqn:E.
  - destruct (filter (same_crd crd_col crd) rs) as [|r l] eqn:E'; [done|].
    intros [= ->]. destruct (filter_head _ _ _ _ E') as (i & Hi & Ha & Hfirst).
    exists i. split; [done|]. split; [done|]. right. split; [|done].
    intros b Hb Hcrd Hmail. eapply (filter_nil_not_elem_of _ _ b E); [done|].
    rewrite <- E'. by apply list_elem_of_filter.
  - intros [= ->]. rewrite list_filter_filter in E.
    apply filter_head in E as (i & Hi & [Hmail Hcrd] & Hfirst).
    exists i. split; [done|]. split; [done|]. left. split; [done|].
    intros j b Hj Hb Hcrd' Hmail'. by apply (Hfirst j b Hj Hb).
Qed.

Lemma ensure_col_same_crd email_col crd_col crd adv :
  has_col adv crd_col = true →
  filter (same_crd crd_col crd) (rows (ensure_col email_col adv))
  = (λ a, if has_col adv email_col then a else <[email_col := Str ""]> a)
      <$> filter (same_crd crd_col crd) (rows adv).
Proof.
  intros Hcrd. unfold ensure_col. destruct (has_col adv email_col) eqn:E.
  - by rewrite list_fmap_id.
  - simpl. assert (crd_col ≠ email_col) as Hne by (intros ->; congruence).
    induction (rows adv) as [|a l IH]; [done|].
    rewrite fmap_cons, !filter_cons.
    assert (same_crd crd_col crd (<[email_col:=Str ""]> a) ↔ same_crd crd_col crd a)
      as Hiff.
    { unfold same_crd, row_get. by rewrite lookup_insert_ne. }
    destruct (decide (same_crd crd_col crd (<[email_col:=Str ""]> a))),
             (decide (same_crd crd_col crd a)); try tauto.
    by rewrite fmap_cons, IH.
Qed.

End CrdMore.

Section CrdRows.

Lemma find_col_some candidates df c :
  find_col candidates df = Some c → c ∈ candidates ∧ has_col df c = true.
Proof.
  unfold find_col. intros [Hin Hc]%find_some. by rewrite list_elem_of_In.
Qed.

Lemma ensure_col_row col df n r :
  rows df !! n = Some r →
  rows (ensure_col col df) !! n
  = Some (if has_col df col then r else <[col := Str ""]> r).
Proof.
  intros Hn. unfold ensure_col. destruct (has_col df col); [done|].
  by apply set_column_const_lookup.
Qed.

Lemma crd_annotation_ext best email_col adv_id_col (r1 r2 : row) :
  r1 !! "Matched_CRD" = r2 !! "Matched_CRD" →
  crd_annotation best email_col adv_id_col r1
  = crd_annotation best email_col adv_id_col r2.
Proof. intros H. unfold crd_annotation, row_get. by rewrite H. Qed.

(** Row [n] of the result, when the contact table has a CRD column: the
    Schwab row with the annotation that lines 161-172 compute for it. *)
Lemma crd_result_row adv sw crd_col n sw_row r :
  find_col crd_candidates adv = Some crd_col →
  rows sw !! n = Some sw_row →
  rows (match_contacts_by_crd_and_email adv sw).2 !! n = Some r →
  ∃ a,
    a = (if has_col sw "Matched_CRD"
         then crd_annotation
                (best_adv_per_crd crd_col (resolve_email_col adv)
                   (rows (ensure_col (resolve_email_col adv) adv)))
                (resolve_email_col adv) (find_col id_candidates adv) sw_row
         else unmatched_annotation)
    ∧ r !! "Matched_or_not" = Some (Matched_or_not a)
    ∧ r !! "Match_Score" = Some (Match_Score a)
    ∧ r !! "adv_Email_" = Some (adv_Email_ a)
    ∧ r !! "adv_Record_ID" = Some (adv_Record_ID a).
Proof.
  intros Hcrd Hn. unfold match_contacts_by_crd_and_email. rewrite Hcrd.
  cbn [snd rows]. rewrite lookup_zip_with, list_lookup_fmap.
  rewrite (ensure_col_row "Email_Address" sw n sw_row Hn). cbn [mbind option_bind fmap option_fmap option_map].
  rewrite has_col_ensure_col by done.
  intros [= <-]. eexists. split; [|apply with_annotation_lookup].
  destruct (has_col sw "Matched_CRD"); [|done].
  apply crd_annotation_ext.
  destruct (has_col sw "Email_Address"); [done|]. by rewrite lookup_insert_ne.
Qed.

Lemma record_id_text_cases v :
  record_id_text v = PyNone ∨ ∃ s, record_id_text v = Str s.
Proof. destruct v as [| |s|z|[]]; simpl; eauto. Qed.

(** The row that the dictionary holds for a CRD is a row of the contact
    table (with an empty email when the table had no email column). *)
Lemma best_adv_row adv crd_col email_col crd a' :
  has_col adv crd_col = true →
  best_adv_per_crd crd_col email_col (rows (ensure_col email_col adv)) !! crd = Some a' →
  isna crd = false
  ∧ ∃ i a, rows adv !! i = Some a
           ∧ a' = (if has_col adv email_col then a else <[email_col := Str ""]> a)
           ∧ same_crd crd_col crd a.
Proof.
  intros Hcol. rewrite best_adv_per_crd_lookup.
  destruct (isna crd); [done|]. intros Hpick. split; [done|].
  apply pick_best_position in Hpick as (i & Hi & Hsame & _).
  assert (is_Some (rows adv !! i)) as [a Ha].
  { apply lookup_lt_is_Some. rewrite <- (ensure_col_length email_col).
    by eapply lookup_lt_Some. }
  rewrite (ensure_col_row email_col adv i a Ha) in Hi. injection Hi as <-.
  exists i, a. split; [done|]. split; [done|].
  destruct (has_col adv email_col) eqn:E; [done|].
  unfold same_crd, row_get in *. rewrite lookup_insert_ne in Hsame; [done|].
  intros <-. congruence.
Qed.

Lemma best_adv_none adv crd_col email_col crd :
  has_col adv crd_col = true →
  best_adv_per_crd crd_col email_col (rows (ensure_col email_col adv)) !! crd = None →
  isna crd = true ∨ ∀ a, a ∈ rows adv → ¬ same_crd crd_col crd a.
Proof.
  intros Hcol. rewrite best_adv_per_crd_lookup.
  destruct (isna crd); [by left|]. intros Hpick. right.
  rewrite pick_best_first, (ensure_col_same_crd _ _ _ _ Hcol) in Hpick.
  destruct (filter (same_crd crd_col crd) (rows adv)) as [|a0 l] eqn:E.
  - intros a Ha Hsame. by eapply (filter_nil_not_elem_of _ _ a E).
  - rewrite fmap_cons in Hpick. destruct (filter (has_email email_col) _); done.
Qed.

End CrdRows.

Section CrdTheorems.

(** X10. When the contact table has a CRD column and the Schwab table has
    [Matched_CRD], a row is reported as ['matched_crd'] with score 100 exactly
    when its CRD is not missing and some contact row has the same CRD;
    otherwise it is ['unmatched'] with score 0 and no contact value. The
    Schwab email plays no part. (For tables without boolean CRDs: Python
    equates [True] with [1].) *)
Theorem crd_match_iff adv sw crd_col n sw_row r :
  find_col crd_candidates adv = Some crd_col →
  has_col sw "Matched_CRD" = true →
  (∀ a, a ∈ rows adv → is_bool (row_get a crd_col NaN) = false) →
  is_bool (row_get sw_row "Matched_CRD" PyNone) = false →
  rows sw !! n = Some sw_row →
  rows (match_contacts_by_crd_and_email adv sw).2 !! n = Some r →
  (notna (row_get sw_row "Matched_CRD" PyNone) = true
   ∧ (∃ a, a ∈ rows adv ∧ same_crd crd_col (row_get sw_row "Matched_CRD" PyNone) a)
   ∧ r !! "Matched_or_not" = Some (Str "matched_crd")
   ∧ r !! "Match_Score" = Some (Num 100))
  ∨ ((notna (row_get sw_row "Matched_CRD" PyNone) = false
      ∨ ∀ a, a ∈ rows adv → ¬ same_crd crd_col (row_get sw_row "Matched_CRD" PyNone) a)
     ∧ r !! "Matched_or_not" = Some (Str "unmatched")
     ∧ r !! "Match_Score" = Some (Num 0)
     ∧ r !! "adv_Email_" = Some PyNone
     ∧ r !! "adv_Record_ID" = Some PyNone).
Proof.
  intros Hcrd Hsw _ _ Hn Hr.
  destruct (find_col_some _ _ _ Hcrd) as [_ Hcol].
  destruct (crd_result_row adv sw crd_col n sw_row r Hcrd Hn Hr)
    as (a & -> & Hm & Hs & He & Hi).
  rewrite Hsw in *. unfold crd_annotation in *. unfold notna in *.
  destruct (isna (row_get sw_row "Matched_CRD" PyNone)) eqn:Hna; simpl in *.
  { right. split; [by left|]. done. }
  destruct (best_adv_per_crd _ _ _ !! _) as [a'|] eqn:Hbest; simpl in *.
  - left. apply (best_adv_row adv _ _ _ _ Hcol) in Hbest
      as (_ & i & a & Ha & _ & Hsame).
    split; [done|]. split; [|done]. exists a. split; [|done].
    by eapply list_elem_of_lookup_2.
  - right. apply (best_adv_none adv _ _ _ Hcol) in Hbest as [Hbest|Hbest];
      [congruence|].
    split; [by right|done].
Qed.

Lemma crd_match_iff_witness :
  ∃ r, rows (match_contacts_by_crd_and_email example_contacts example_schwab).2
         !! 2%nat = Some r
       ∧ r !! "Matched_or_not" = Some (Str "matched_crd").
Proof.
  destruct (crd_rows_preserved example_contacts example_schwab) as [_ Hrows].
  destruct (Hrows 2%nat _ eq_refl) as (r & Hr & _).
  exists r. split; [exact Hr|].
  destruct (crd_match_iff example_contacts example_schwab "CRD" 2
              (default ∅ (rows example_schwab !! 2%nat)) r
              eq_refl eq_refl) as [(_ & _ & Hm & _)|([Hna|Hnone] & _)];
    [| |exact eq_refl|exact Hr|exact Hm|by vm_compute in Hna|].
  - intros a Ha. simpl in Ha.
    apply elem_of_cons in Ha as [->|Ha]; [by vm_compute|].
    apply list_elem_of_singleton in Ha as ->. by vm_compute.
  - by vm_compute.
  - exfalso. eapply (Hnone _); [left|]. by vm_compute.
Defined.



(** X12. Whatever the tables, [adv_Record_ID] of a returned row is [None] or
    text, never a number. *)
Theorem crd_record_id_is_text adv sw n r :
  rows (match_contacts_by_crd_and_email adv sw).2 !! n = Some r →
  r !! "adv_Record_ID" = Some PyNone ∨ ∃ s, r !! "adv_Record_ID" = Some (Str s).
Proof.
  intros Hr.
  destruct (find_col crd_candidates adv) as [crd_col|] eqn:Hcrd.
  - assert (is_Some (rows sw !! n)) as [sw_row Hn].
    { apply lookup_lt_is_Some.
      rewrite <- (proj1 (crd_rows_preserved adv sw)). by eapply lookup_lt_Some. }
    destruct (crd_result_row adv sw crd_col n sw_row r Hcrd Hn Hr)
      as (a & -> & _ & _ & _ & ->).
    destruct (has_col sw "Matched_CRD"); [|by left].
    unfold crd_annotation. destruct (notna _); [|by left].
    destruct (best_adv_per_crd _ _ _ !! _) as [a'|]; [|by left].
    cbn [adv_Record_ID].
    destruct (find_col id_candidates adv) as [c|]; [|by left].
    destruct (record_id_text_cases (row_get a' c PyNone)) as [->|[s ->]]; eauto.
  - revert Hr. unfold match_contacts_by_crd_and_email. rewrite Hcrd. simpl.
    rewrite !list_lookup_fmap. destruct (rows sw !! n) as [r0|]; [|done].
    intros [= <-]. left. by rewrite lookup_insert_eq.
Qed.

Lemma crd_record_id_is_text_witness :
  ∃ r, rows (match_contacts_by_crd_and_email example_contacts example_schwab).2
         !! 0%nat = Some r
       ∧ (r !! "adv_Record_ID" = Some PyNone ∨ ∃ s, r !! "adv_Record_ID" = Some (Str s)).
Proof.
  destruct (crd_rows_preserved example_contacts example_schwab) as [_ Hrows].
  destruct (Hrows 0%nat _ eq_refl) as (r & Hr & _).
  exists r. split; [exact Hr|].
  exact (crd_record_id_is_text example_contacts example_schwab 0 r Hr).
Defined.

End CrdTheorems.

Section RawTheorems.
Import RawData RawDataFacts RawDataMore.

Lemma not_added_column c :
  c ∉ raw_added_columns →
  c ≠ "clean_company" ∧ c ≠ "Key" ∧ c ≠ "Matched" ∧ c ≠ "Match_Score".
Proof.
  intros H. split_and!; intros ->; apply H; unfold raw_added_columns;
    repeat constructor.
Qed.

Lemma pick_col_none df candidates :
  (∀ c, c ∈ candidates → c ∉ columns df) →
  pick_col df candidates "" = (λ _, "") <$> rows df.
Proof. intros H. unfold pick_col. by rewrite find_col_none. Qed.

(** X13. [match_by_name_and_company] raises in one case only: called with
    [verbose] on a Schwab table without rows, the summary line reads the
    column [Matched] of a frame that has none. In every other case it returns
    one record per Schwab row: neither the row lookup of line 120 nor the
    scoring can fail on the keys the function builds. *)
Theorem name_and_company_returns token_set_ratio Schwab_df contacts_df threshold verbose :
  if verbose && bool_decide (rows Schwab_df = [])
  then match_by_name_and_company token_set_ratio Schwab_df contacts_df threshold verbose
       = Raise (KeyError "Matched")
  else ∃ out,
         match_by_name_and_company token_set_ratio Schwab_df contacts_df threshold verbose
         = Ok out
         ∧ length out = length (rows Schwab_df).
Proof.
  destruct (built_rows_decided token_set_ratio threshold contacts_df Schwab_df)
    as (out & Hout & Hlen & _).
  unfold match_by_name_and_company. rewrite Hout. simpl.
  assert (bool_decide (out = []) = bool_decide (rows Schwab_df = [])) as ->.
  { apply bool_decide_ext. rewrite <- !length_zero_iff_nil. by rewrite Hlen. }
  destruct (verbose && _); [done|by exists out].
Qed.

(** X14. The guard [if not sk] never fires on a row of the Schwab table: the
    key built for it holds the bar between name and company, whatever the
    cells are. *)
Theorem empty_key_guard_is_dead token_set_ratio Schwab_df contacts_df threshold verbose
    out n d r :
  match_by_name_and_company token_set_ratio Schwab_df contacts_df threshold verbose
  = Ok out →
  out !! n = Some (d, r) →
  d ≠ NoKey ∧ ∃ k, r !! "Key" = Some (Str k) ∧ k ≠ "".
Proof.
  destruct (built_rows_decided token_set_ratio threshold contacts_df Schwab_df)
    as (out' & Hout & Hlen & Hno).
  unfold match_by_name_and_company. rewrite Hout. simpl.
  destruct (verbose && _); [done|]. intros [= <-] Hn. split.
  - rewrite Forall_lookup in Hno. apply (Hno n d).
    by rewrite list_lookup_fmap, Hn.
  - destruct (raw_match_rows_lookup _ _ _ _ _ _ _ _ Hout Hn) as (sw_row & Hrow & _ & ->).
    assert (sw_row ∈ sw_rows Schwab_df) as Hin by (by eapply list_elem_of_lookup_2).
    apply list_elem_of_lookup in Hin as (i & Hi).
    unfold sw_rows in Hi. apply keyed_rows_lookup in Hi as (k & Hk & Hkey).
    exists k. split.
    + rewrite raw_rec_of_other; [done|done|done|]. by right.
    + pose proof (sw_keys_nonempty Schwab_df) as Hne. rewrite Forall_lookup in Hne.
      by apply (Hne i k).
Qed.

Lemma empty_key_guard_is_dead_witness :
  ∃ out d r,
    match_by_name_and_company exact_score
      {| columns := ["Name"]; rows := [mkrow [("Name", NaN)]] |}
      example_raw_contacts 90 true = Ok out
    ∧ out !! 0%nat = Some (d, r)
    ∧ d ≠ NoKey.
Proof.
  set (sw := {| columns := ["Name"]; rows := [mkrow [("Name", NaN)]] |}).
  destruct (built_rows_decided exact_score 90 example_raw_contacts sw)
    as (out & Hout & Hlen & _).
  assert (match_by_name_and_company exact_score sw example_raw_contacts 90 true
          = Ok out) as Hrun.
  { unfold match_by_name_and_company. rewrite Hout. simpl.
    rewrite bool_decide_eq_false_2; [done|]. by intros ->. }
  destruct out as [|[d r] out]; [done|].
  exists ((d, r) :: out), d, r. split; [exact Hrun|]. split; [reflexivity|].
  exact (proj1 (empty_key_guard_is_dead exact_score sw example_raw_contacts 90 true
                  ((d, r) :: out) 0 d r Hrun eq_refl)).
Defined.

(** X15. With a contact table without rows nothing is scored: the record of
    every Schwab row has [Matched = False] and [Match_Score = 0]. *)
Theorem no_contact_rows_no_candidate token_set_ratio Schwab_df contacts_df threshold
    verbose out n d r :
  rows contacts_df = [] →
  match_by_name_and_company token_set_ratio Schwab_df contacts_df threshold verbose
  = Ok out →
  out !! n = Some (d, r) →
  d = NoCandidate
  ∧ r !! "Matched" = Some (Bool false)
  ∧ r !! "Match_Score" = Some (Num 0).
Proof.
  intros Hempty. unfold match_by_name_and_company.
  rewrite (adv_rows_empty contacts_df Hempty).
  destruct (match_rows _ _ [] _) as [out'|] eqn:Hout; [|done]. simpl.
  destruct (verbose && _); [done|]. intros [= <-] Hn.
  destruct (raw_match_rows_lookup _ _ _ _ _ _ _ _ Hout Hn) as (sw_row & Hrow & Hd & ->).
  apply list_elem_of_lookup_2 in Hrow as Hin.
  apply list_elem_of_lookup in Hin as (i & Hi).
  unfold sw_rows in Hi. apply keyed_rows_lookup in Hi as (k & Hk & Hkey).
  pose proof (sw_keys_nonempty Schwab_df) as Hne. rewrite Forall_lookup in Hne.
  rewrite (decide_row_key _ _ _ sw_row k Hkey (Hne i k Hk)) in Hd.
  injection Hd as <-. split; [done|]. simpl.
  split; [by rewrite lookup_insert_ne, lookup_insert_eq|by rewrite lookup_insert_eq].
Qed.

Lemma no_contact_rows_no_candidate_witness :
  ∃ out d r,
    match_by_name_and_company exact_score example_raw_schwab
      {| columns := ["First Name"]; rows := [] |} 90 true = Ok out
    ∧ out !! 0%nat = Some (d, r)
    ∧ d = NoCandidate.
Proof.
  set (adv := {| columns := ["First Name"]; rows := [] |}).
  destruct (built_rows_decided exact_score 90 adv example_raw_schwab)
    as (out & Hout & Hlen & _).
  assert (match_by_name_and_company exact_score example_raw_schwab adv 90 true
          = Ok out) as Hrun.
  { unfold match_by_name_and_company. rewrite Hout. simpl.
    rewrite bool_decide_eq_false_2; [done|]. by intros ->. }
  destruct out as [|[d r] out]; [done|].
  exists ((d, r) :: out), d, r. split; [exact Hrun|]. split; [reflexivity|].
  exact (proj1 (no_contact_rows_no_candidate exact_score example_raw_schwab adv 90 true
                  ((d, r) :: out) 0 d r eq_refl Hrun eq_refl)).
Defined.

(** X16. The record appended for row [n] of the Schwab table keeps every
    value of that row, except under the four columns the function writes
    ([clean_company], [Key], [Matched], [Match_Score]) and, when a contact is
    merged in, under names that start with [Adv_]; its [Key] is the key built
    for the row. *)
Theorem name_and_company_keeps_schwab_fields token_set_ratio Schwab_df contacts_df
    threshold verbose out n d r sw_row :
  match_by_name_and_company token_set_ratio Schwab_df contacts_df threshold verbose
  = Ok out →
  out !! n = Some (d, r) →
  rows Schwab_df !! n = Some sw_row →
  (∀ c, c ∉ raw_added_columns →
        referenced d = None ∨ PyStr.startswith c "Adv_" = false →
        r !! c = sw_row !! c)
  ∧ ∃ k, sw_keys Schwab_df !! n = Some k ∧ r !! "Key" = Some (Str k).
Proof.
  unfold match_by_name_and_company.
  destruct (match_rows _ _ _ _) as [out'|] eqn:Hout; [|done]. simpl.
  destruct (verbose && _); [done|]. intros [= <-] Hn Hrow.
  destruct (raw_match_rows_lookup _ _ _ _ _ _ _ _ Hout Hn) as (sw_row' & Hrow' & _ & ->).
  destruct (sw_rows_lookup Schwab_df n sw_row Hrow) as (c0 & k & Hk & Hsw).
  rewrite Hsw in Hrow'. injection Hrow' as <-. split.
  - intros c Hc Hadv. destruct (not_added_column c Hc) as (H1 & H2 & H3 & H4).
    rewrite raw_rec_of_other by done.
    by rewrite !lookup_insert_ne.
  - exists k. split; [done|].
    rewrite raw_rec_of_other; [|done|done|by right]. by rewrite lookup_insert_eq.
Qed.

Lemma name_and_company_keeps_schwab_fields_witness :
  ∃ out d r,
    match_by_name_and_company exact_score example_raw_schwab example_raw_contacts 90 true
    = Ok out
    ∧ out !! 0%nat = Some (d, r)
    ∧ r !! "First_Name_" = Some (Str "John").
Proof.
  destruct (built_rows_decided exact_score 90 example_raw_contacts example_raw_schwab)
    as (out & Hout & Hlen & _).
  assert (match_by_name_and_company exact_score example_raw_schwab
            example_raw_contacts 90 true = Ok out) as Hrun.
  { unfold match_by_name_and_company. rewrite Hout. simpl.
    rewrite bool_decide_eq_false_2; [done|]. by intros ->. }
  destruct out as [|[d r] out]; [done|].
  exists ((d, r) :: out), d, r. split; [exact Hrun|]. split; [reflexivity|].
  assert (rows example_raw_schwab !! 0%nat
          = Some (default ∅ (rows example_raw_schwab !! 0%nat))) as Hrow by reflexivity.
  rewrite (proj1 (name_and_company_keeps_schwab_fields exact_score example_raw_schwab
                    example_raw_contacts 90 true ((d, r) :: out) 0 d r _
                    Hrun eq_refl Hrow) "First_Name_").
  - reflexivity.
  - unfold raw_added_columns. intros Hin.
    apply list_elem_of_In in Hin. simpl in Hin.
    by repeat destruct Hin as [Hin|Hin].
  - by right.
Defined.

(** X17. A record appended with [Matched = True] carries the contact row it
    was matched to: that row's values under [Adv_] plus the column name, its
    key under [Adv_Key], and as [Match_Score] the integer part of the score of
    the two keys, a score that reaches the threshold. *)
Theorem matched_row_carries_contact token_set_ratio Schwab_df contacts_df threshold
    verbose out n i s r :
  match_by_name_and_company token_set_ratio Schwab_df contacts_df threshold verbose
  = Ok out →
  out !! n = Some (RawMatched i s, r) →
  ∃ orig k ki,
    rows contacts_df !! i = Some orig
    ∧ sw_keys Schwab_df !! n = Some k
    ∧ adv_keys_of contacts_df !! i = Some ki
    ∧ s = token_set_ratio k ki
    ∧ (Qc_of_Z threshold ≤ s)%Qc
    ∧ r !! "Matched" = Some (Bool true)
    ∧ r !! "Match_Score" = Some (Num (py_int s))
    ∧ r !! "Adv_Key" = Some (Str ki)
    ∧ ∀ c v, orig !! c = Some v → c ≠ "Key" → c ≠ "clean_company" →
             r !! ("Adv_" +:+ c) = Some v.
Proof.
  unfold match_by_name_and_company.
  destruct (match_rows _ _ _ _) as [out'|] eqn:Hout; [|done]. simpl.
  destruct (verbose && _); [done|]. intros [= <-] Hn.
  destruct (raw_match_rows_lookup _ _ _ _ _ _ _ _ Hout Hn) as (sw_row & Hrow & Hd & ->).
  apply list_elem_of_lookup_2 in Hrow as Hin.
  assert (is_Some (rows Schwab_df !! n)) as [sw_row0 Hrow0].
  { apply lookup_lt_is_Some. rewrite <- sw_rows_length. by eapply lookup_lt_Some. }
  destruct (sw_rows_lookup Schwab_df n sw_row0 Hrow0) as (c0 & k & Hk & Hsw).
  rewrite Hsw in Hrow. injection Hrow as <-.
  pose proof (sw_keys_nonempty Schwab_df) as Hne. rewrite Forall_lookup in Hne.
  rewrite (decide_row_key _ _ _ _ k) in Hd;
    [|by rewrite lookup_insert_eq|by apply (Hne n k)].
  destruct (decide_key_spec token_set_ratio threshold (adv_rows contacts_df) k
              (adv_rows_keyed contacts_df))
    as [[_ Hd']|(m & k' & _ & [[_ Hd']|(Hthr & i' & Hi' & _ & Hd')])];
    rewrite Hd' in Hd; try done.
  injection Hd as <- <-. rewrite adv_rows_keys in Hi'.
  assert (is_Some (adv_rows contacts_df !! i')) as [a Ha].
  { apply lookup_lt_is_Some. apply lookup_lt_Some in Hi'.
    rewrite adv_keys_of_length in Hi'. unfold adv_rows.
    rewrite keyed_rows_length; [done|..].
    - by rewrite length_fmap, pick_col_length.
    - apply adv_keys_of_length. }
  destruct (adv_rows_lookup contacts_df i' a Ha) as (orig & c1 & k1 & Ho & Hk1 & ->).
  assert (k1 = k') as -> by congruence.
  exists orig, k, k'. split_and!; try done.
  - simpl. by rewrite lookup_insert_ne, lookup_insert_eq.
  - simpl. by rewrite lookup_insert_eq.
  - destruct (raw_rec_of_adv (adv_rows contacts_df)
                (<["Key":=Str k]> (<["clean_company":=Str c0]> sw_row0))
                i' (token_set_ratio k k') "Key")
      as [Hl|[Hl _]]; rewrite Ha in *; simpl in Hl.
    + etrans; [exact Hl|]. by rewrite lookup_insert_eq.
    + by rewrite lookup_insert_eq in Hl.
  - intros c v Hv Hc1 Hc2.
    destruct (raw_rec_of_adv (adv_rows contacts_df)
                (<["Key":=Str k]> (<["clean_company":=Str c0]> sw_row0))
                i' (token_set_ratio k k') c)
      as [Hl|[Hl _]]; rewrite Ha in *; simpl in Hl.
    + etrans; [exact Hl|]. by rewrite !lookup_insert_ne.
    + rewrite !lookup_insert_ne in Hl by done. congruence.
Qed.

Lemma matched_row_carries_contact_witness :
  ∃ out i s r,
    match_by_name_and_company exact_score example_raw_schwab example_raw_contacts 90 true
    = Ok out
    ∧ out !! 0%nat = Some (RawMatched i s, r)
    ∧ (Qc_of_Z 90 ≤ s)%Qc.
Proof.
  destruct (built_rows_decided exact_score 90 example_raw_contacts example_raw_schwab)
    as (out & Hout & Hlen & _).
  assert (match_by_name_and_company exact_score example_raw_schwab
            example_raw_contacts 90 true = Ok out) as Hrun.
  { unfold match_by_name_and_company. rewrite Hout. simpl.
    rewrite bool_decide_eq_false_2; [done|]. by intros ->. }
  destruct out as [|[d r] out]; [done|].
  destruct (raw_match_rows_lookup _ _ _ _ _ 0 d r Hout eq_refl)
    as (sw_row & Hrow & Hd & _).
  assert (d = RawMatched 0 (exact_score "john smith | acme" "john smith | acme")) as ->.
  { destruct (sw_rows_lookup example_raw_schwab 0 _ eq_refl) as (c & k0 & Hk & Hsw).
    rewrite Hsw in Hrow. injection Hrow as <-.
    assert (k0 = "john smith | acme") as ->.
    { assert (sw_keys example_raw_schwab !! 0%nat = Some "john smith | acme") as Hk'
        by (by vm_compute).
      rewrite Hk' in Hk. by injection Hk. }
    rewrite (decide_row_key _ _ _ _ "john smith | acme") in Hd;
      [|by rewrite lookup_insert_eq|done].
    assert (adv_keys (adv_rows example_raw_contacts) = ["john smith | acme"]) as Hkeys.
    { rewrite adv_rows_keys. by vm_compute. }
    assert (block (adv_rows example_raw_contacts) "john smith | acme"
            = ["john smith | acme"]) as Hb
      by (unfold block; by rewrite Hkeys).
    destruct (decide_key_spec exact_score 90 (adv_rows example_raw_contacts)
                "john smith | acme" (adv_rows_keyed example_raw_contacts))
      as [[Hnil _]|(m & k' & (Hm & _ & _) & H)]; rewrite Hb in *; [done|].
    apply list_elem_of_lookup_2, list_elem_of_singleton in Hm as ->.
    destruct H as [[Hlow _]|(_ & i & Hi & _ & Hd')].
    - exfalso. apply Qclt_not_le in Hlow. apply Hlow. by vm_compute.
    - rewrite Hd' in Hd. injection Hd as <-.
      rewrite Hkeys in Hi. apply lookup_lt_Some in Hi. simpl in Hi.
      by replace i with 0%nat by lia. }
  exists ((RawMatched 0 (exact_score "john smith | acme" "john smith | acme"), r) :: out), 0%nat, (exact_score "john smith | acme" "john smith | acme"), r.
  split; [exact Hrun|]. split; [reflexivity|].
  destruct (matched_row_carries_contact exact_score example_raw_schwab
              example_raw_contacts 90 true _ 0 0 (exact_score "john smith | acme" "john smith | acme") r Hrun eq_refl)
    as (orig & k & ki & _ & _ & _ & _ & Hthr & _).
  exact Hthr.
Defined.

(** X18. A cleaned company name holds no comma and no upper-case letter, and
    no white space at either end. *)
Theorem clean_company_shape company :
  PyStr.contains "," (clean_company company) = false
  ∧ PyStr.forallb lowered (clean_company company) = true
  ∧ stripped (clean_company company).
Proof.
  unfold clean_company, tidy. split_and!.
  - apply contains_lower_comma. rewrite contains_forallb.
    apply negb_false_iff, PyStrFacts.forallb_strip, forallb_filter.
  - apply NormalizerFacts.forallb_lower.
  - apply stripped_lower, PyStrFacts.strip_stripped.
Qed.

(** X19. A Schwab table that has none of the name and company columns under
    the names tried gives every row the key ["|"]: nothing is raised, and all
    rows are scored alike. *)
Theorem missing_name_columns_key df :
  (∀ c, c ∈ schwab_key_columns → c ∉ columns df) →
  sw_keys df = replicate (length (rows df)) "|".
Proof.
  intros Hnone. unfold sw_keys.
  rewrite !pick_col_none;
    try (intros c Hc; apply Hnone; unfold schwab_key_columns;
         apply list_elem_of_In in Hc; apply list_elem_of_In; simpl in *; tauto).
  unfold zip_with3. induction (rows df) as [|r l IH]; [done|].
  rewrite !fmap_cons. cbn [zip_with length replicate]. rewrite IH.
  f_equal.
Qed.

Lemma missing_name_columns_key_witness :
  sw_keys {| columns := ["Name"]; rows := [mkrow [("Name", Str "Ann Lee")]] |} = ["|"].
Proof.
  apply (missing_name_columns_key
           {| columns := ["Name"]; rows := [mkrow [("Name", Str "Ann Lee")]] |}).
  intros c Hc Hin. simpl in Hin. apply list_elem_of_singleton in Hin as ->.
  unfold schwab_key_columns in Hc. apply list_elem_of_In in Hc. simpl in Hc.
  by repeat destruct Hc as [Hc|Hc].
Defined.

End RawTheorems.

(* ===================================================================== *)
(** * [run]: the sheet of the unmatched rows                              *)
(* ===================================================================== *)

Section RunFacts.

Lemma inferred_str s v' : inferred (Str s) v' → v' = Str s.
Proof. by intros [->|[? _]]. Qed.

Lemma inferred_num z v' : inferred (Num z) v' → v' = Num z.
Proof. by intros [->|[? _]]. Qed.

Lemma inferred_isna v v' : inferred v v' → isna v' = isna v.
Proof. by intros [->|[-> ->]]. Qed.

Lemma inferred_notna v v' : inferred v v' → notna v = true → v' = v.
Proof. intros [->|[-> ->]]; done. Qed.

Lemma rec_of_kind adv i r d :
  rec_of adv i r d !! "Matched_or_not" = Some (Str (decision_kind d)).
Proof. destruct d; apply annotate_kind. Qed.

Lemma rec_of_score adv i r d :
  rec_of adv i r d !! "Match_Score" = Some (Num (decision_score d)).
Proof. destruct d; apply annotate_score. Qed.

(** A key that a record does not have is absent from its row of the frame,
    or holds [NaN] there. *)
Lemma frame_of_records_missing records n r k :
  records !! n = Some r → r !! k = None →
  ∃ r', frame_of_records records !! n = Some r'
        ∧ (r' !! k = None ∨ r' !! k = Some NaN).
Proof.
  intros Hn Hk. unfold frame_of_records. rewrite !list_lookup_fmap, Hn. simpl.
  eexists. split; [done|]. rewrite map_lookup_imap. unfold fill_missing.
  rewrite lookup_union_r by done.
  destruct (gset_to_gmap NaN (frame_keys records) !! k) as [v|] eqn:E; [|by left].
  apply lookup_gset_to_gmap_Some in E as [_ <-]. by right.
Qed.

Section Frame.

Variable token_set_ratio : string → string → Z.
Variable threshold : Z.
Variable adv sw : DataFrame.
Variable logs : list log_record.
Variable result : list row.
Variable out : list (decision * row).

Hypothesis Hrun :
  match_unmatched_by_email_then_fuzzy token_set_ratio threshold adv sw
  = Ok (logs, result).
Hypothesis Hout :
  match_unmatched_decisions token_set_ratio threshold adv sw = Ok out.

Lemma result_length : length result = length (rows sw).
Proof.
  destruct (fuzzy_result_rows _ _ _ _ _ _ Hrun) as (out' & Hout' & Hlen & ->).
  rewrite attach_domain_length; by rewrite frame_of_records_length, length_fmap.
Qed.

(** Row [n] of the frame: the columns that [run] reads. *)
Lemma result_row n d rec :
  out !! n = Some (d, rec) →
  ∃ r, result !! n = Some r
       ∧ r !! "schwab__index" = Some (Num (Z.of_nat n))
       ∧ r !! "Matched_or_not" = Some (Str (decision_kind d))
       ∧ r !! "Match_Score" = Some (Num (decision_score d))
       ∧ ∀ c, public_name c = true →
           (isna (contact_cell adv d c) = true
            ∧ isna (row_get r ("adv_" +:+ c) PyNone) = true)
           ∨ (notna (contact_cell adv d c) = true
              ∧ r !! ("adv_" +:+ c) = Some (contact_cell adv d c)).
Proof.
  intros Hn.
  destruct (emitted_rows_keep_fields _ _ _ _ _ _ _ _ _ _ Hrun Hout Hn) as (r & Hr & Hcells).
  destruct (decisions_records _ _ _ _ _ _ _ _ Hout Hn) as (sw_row & _ & _ & _ & _ & ->).
  exists r. split; [done|]. split_and!.
  - destruct (Hcells _ _ (rec_of_index adv n sw_row d)) as (v' & -> & Hv).
    by rewrite (inferred_num _ _ Hv).
  - destruct (Hcells _ _ (rec_of_kind adv n sw_row d)) as (v' & -> & Hv).
    by rewrite (inferred_str _ _ Hv).
  - destruct (Hcells _ _ (rec_of_score adv n sw_row d)) as (v' & -> & Hv).
    by rewrite (inferred_num _ _ Hv).
  - intros c Hc. unfold contact_cell.
    destruct (rec_of adv n sw_row d !! ("adv_" +:+ c)) as [v|] eqn:Hv.
    + destruct (Hcells _ _ Hv) as (v' & Hv' & Hinf).
      assert (match consumed d with
              | Some j => row_get (adv_row adv j) c NaN
              | None => PyNone
              end = v) as ->.
      { destruct (consumed d) as [j|] eqn:Hd.
        - rewrite (rec_of_adv adv n sw_row d j c Hd), Hc in Hv.
          unfold row_get. by rewrite Hv.
        - destruct d; try done.
          destruct (rec_of_unmatched adv n sw_row) as (_ & _ & _ & Hnull).
          by rewrite (Hnull _ _ (startswith_append "adv_" c) Hv). }
      destruct (notna v) eqn:Hna.
      * right. by rewrite <- (inferred_notna _ _ Hinf Hna).
      * left. unfold row_get. rewrite Hv'. simpl.
        rewrite (inferred_isna _ _ Hinf). unfold notna in Hna.
        by destruct (isna v).
    + left. split.
      * destruct (consumed d) as [j|] eqn:Hd; [|done].
        rewrite (rec_of_adv adv n sw_row d j c Hd), Hc in Hv.
        unfold row_get. by rewrite Hv.
      * destruct (fuzzy_result_rows _ _ _ _ _ _ Hrun) as (out' & Hout' & Hlen & Hres).
        rewrite Hout in Hout'. injection Hout' as <-.
        destruct (frame_of_records_missing out.*2 n (rec_of adv n sw_row d)
                    ("adv_" +:+ c)) as (r1 & Hr1 & Hk);
          [by rewrite list_lookup_fmap, Hn|done|].
        destruct (attach_domain_lookup sw (frame_of_records out.*2) n r1)
          as (r2 & Hr2 & Hsame & _); [|done|].
        { by rewrite frame_of_records_length, length_fmap. }
        rewrite Hres, Hr2 in Hr. injection Hr as <-.
        unfold row_get. rewrite Hsame.
        -- by destruct Hk as [->| ->].
        -- rewrite !PyStrFacts.append_cons. intros [=].
Qed.

(** [.loc[n]] of the frame indexed by [schwab__index] is its row [n]. *)
Lemma loc_schwab_index_row n d rec :
  out !! n = Some (d, rec) →
  ∃ r, result !! n = Some r ∧ loc_schwab_index result n = Some r.
Proof.
  intros Hn. destruct (result_row n d rec Hn) as (r & Hr & Hidx & _).
  exists r. split; [done|]. unfold loc_schwab_index.
  assert (list_find (λ r, r !! "schwab__index" = Some (Num (Z.of_nat n))) result
          = Some (n, r)) as ->; [|done].
  apply list_find_Some. split_and!; [done|done|].
  intros j y Hy Hj Hidx'.
  assert (is_Some (out !! j)) as [[d' rec'] Hj'].
  { apply lookup_lt_is_Some. apply lookup_lt_Some in Hn. lia. }
  destruct (result_row j d' rec' Hj') as (y' & Hy' & Hidx'' & _).
  rewrite Hy in Hy'. injection Hy' as <-. rewrite Hidx' in Hidx''.
  injection Hidx'' as Hidx''. lia.
Qed.

Lemma result_has_index n d rec :
  out !! n = Some (d, rec) → frame_has_col result "schwab__index" = true.
Proof.
  intros Hn. destruct (result_row n d rec Hn) as (r & Hr & Hidx & _).
  unfold frame_has_col. apply existsb_exists. exists r. split.
  - apply list_elem_of_In. by eapply list_elem_of_lookup_2.
  - apply bool_decide_eq_true. by rewrite Hidx.
Qed.

End Frame.


End RunFacts.

Section RunSheet.

Lemma has_col_set_column_const col v df k :
  k ≠ col → has_col (set_column_const col v df) k = has_col df k.
Proof.
  intros Hk. unfold has_col, set_column_const. simpl.
  fold (has_col df col). destruct (has_col df col); [done|].
  apply bool_decide_ext. rewrite elem_of_app, list_elem_of_singleton. tauto.
Qed.

Lemma fillna_same v : fillna v v = v.
Proof. unfold fillna. by destruct (isna v). Qed.

Lemma not_annotation_column c :
  c ∉ annotation_columns →
  c ≠ "Matched_or_not" ∧ c ≠ "Match_Score" ∧ c ≠ "adv_Email_" ∧ c ≠ "adv_Record_ID".
Proof.
  intros H. split_and!; intros ->; apply H; unfold annotation_columns;
    repeat constructor.
Qed.

Lemma reattach_other adv_id_col m r c :
  c ∉ annotation_columns → reattach adv_id_col m r !! c = r !! c.
Proof.
  intros (H1 & H2 & H3 & H4)%not_annotation_column. unfold reattach.
  destruct m as [m|]; [|done].
  destruct adv_id_col as [col|]; [destruct (notna _)|]; by rewrite !lookup_insert_ne.
Qed.




Lemma reattach_record_id adv_id_col m r :
  r !! "adv_Record_ID" = Some PyNone →
  reattach adv_id_col (Some m) r !! "adv_Record_ID"
  = Some match adv_id_col with
         | Some c => run_record_id_text (row_get m ("adv_" +:+ c) PyNone)
         | None => PyNone
         end.
Proof.
  intros Hr. unfold reattach. destruct adv_id_col as [col|].
  - unfold run_record_id_text at 2. destruct (notna _) eqn:Hna.
    + rewrite lookup_insert_eq. unfold run_record_id_text. by rewrite Hna.
    + by rewrite !lookup_insert_ne.
  - by rewrite !lookup_insert_ne.
Qed.

(** Row [n] of the sheet, when the frame of the matcher has a row of that
    index. *)
Lemma final_unmatched_row adv_unmatched schwab_unmatched frame n sw_row m :
  rows schwab_unmatched !! n = Some sw_row →
  frame_has_col frame "schwab__index" = true →
  loc_schwab_index frame n = Some m →
  rows (final_unmatched adv_unmatched schwab_unmatched frame) !! n
  = Some (<["Email_Domain" :=
              if has_col schwab_unmatched "Email_Domain"
              then row_get sw_row "Email_Domain" NaN else PyNone]>
            (reattach (safe_get_adv_record_id_column adv_unmatched) (Some m)
               (<["adv_Record_ID" := PyNone]>
                  (<["adv_Email_" := PyNone]>
                     (<["Match_Score" := Num 0]>
                        (<["Matched_or_not" := Str "unmatched"]> sw_row)))))).
Proof.
  intros Hn Hidx Hm. unfold final_unmatched. rewrite Hidx.
  set (base := set_column_const "adv_Record_ID" PyNone _).
  assert (rows base !! n
          = Some (<["adv_Record_ID" := PyNone]>
                    (<["adv_Email_" := PyNone]>
                       (<["Match_Score" := Num 0]>
                          (<["Matched_or_not" := Str "unmatched"]> sw_row))))) as Hbase.
  { unfold base. by do 4 apply set_column_const_lookup. }
  assert (has_col {| columns := columns base; rows := imap (λ idx r,
             reattach (safe_get_adv_record_id_column adv_unmatched)
               (loc_schwab_index frame idx) r) (rows base) |} "Email_Domain"
          = has_col schwab_unmatched "Email_Domain") as ->.
  { unfold has_col at 1. cbn [columns]. fold (has_col base "Email_Domain").
    unfold base. by rewrite !has_col_set_column_const. }
  destruct (has_col schwab_unmatched "Email_Domain").
  - cbn [rows]. rewrite lookup_zip_with, list_lookup_imap, Hbase. simpl.
    rewrite Hn. simpl. rewrite Hm. f_equal. f_equal.
    unfold row_get at 2. rewrite reattach_other.
    + rewrite !lookup_insert_ne by done. apply fillna_same.
    + unfold annotation_columns. intros Hc. apply list_elem_of_In in Hc.
      simpl in Hc. by repeat destruct Hc as [Hc|Hc].
  - apply set_column_const_lookup.
    cbn [rows]. by rewrite list_lookup_imap, Hbase, <- Hm.
Qed.

End RunSheet.

Section RunTheorems.



Lemma run_record_id_text_cases v :
  run_record_id_text v = PyNone ∨ ∃ s, run_record_id_text v = Str s.
Proof.
  unfold run_record_id_text. destruct (notna v); [|by left].
  right. destruct v; eauto.
Qed.

Lemma final_unmatched_length adv_unmatched schwab_unmatched frame :
  length (rows (final_unmatched adv_unmatched schwab_unmatched frame))
  = length (rows schwab_unmatched).
Proof.
  unfold final_unmatched.
  set (base := set_column_const "adv_Record_ID" PyNone _).
  assert (length (rows base) = length (rows schwab_unmatched)) as Hbase.
  { unfold base. by rewrite !set_column_const_length. }
  set (final := if frame_has_col frame "schwab__index" then _ else base).
  assert (length (rows final) = length (rows schwab_unmatched)) as Hfinal.
  { unfold final. destruct (frame_has_col _ _); [|done].
    cbn [rows]. by rewrite length_imap. }
  destruct (has_col final "Email_Domain").
  - cbn [rows]. rewrite length_zip_with. lia.
  - by rewrite set_column_const_length.
Qed.

Lemma run_inv token_set_ratio adv_matched adv_unmatched schwab_matched
    schwab_unmatched wb :
  run token_set_ratio adv_matched adv_unmatched schwab_matched schwab_unmatched
  = Ok wb →
  ∃ logs result,
    match_unmatched_by_email_then_fuzzy token_set_ratio 80 adv_unmatched
      schwab_unmatched = Ok (logs, result)
    ∧ unmatched_sheet wb = final_unmatched adv_unmatched schwab_unmatched result
    ∧ matched_sheet wb
      = (match_contacts_by_crd_and_email adv_matched schwab_matched).2.
Proof.
  unfold run.
  destruct (match_contacts_by_crd_and_email adv_matched schwab_matched)
    as [logs_crd merged_crd].
  destruct (match_unmatched_by_email_then_fuzzy _ _ _ _) as [[logs result]|];
    [|done].
  simpl. intros [= <-]. by exists logs, result.
Qed.

Lemma run_total token_set_ratio adv_matched adv_unmatched schwab_matched
    schwab_unmatched :
  has_col adv_unmatched adv_email_col = true →
  has_col adv_unmatched adv_first_col = true →
  has_col adv_unmatched adv_last_col = true →
  ∃ wb, run token_set_ratio adv_matched adv_unmatched schwab_matched
          schwab_unmatched = Ok wb.
Proof.
  intros He Hf Hl.
  destruct (match_unmatched_decisions_total token_set_ratio 80 adv_unmatched
              schwab_unmatched He Hf Hl) as [out Hout].
  unfold run, match_unmatched_by_email_then_fuzzy, bind. rewrite Hout.
  destruct (match_contacts_by_crd_and_email adv_matched schwab_matched).
  by eexists.
Qed.

(** Row [n] of the sheet [unmatched], from row [n] of the Schwab sheet and
    row [n] of the matcher's frame. *)
Lemma run_sheet_row token_set_ratio adv_matched adv_unmatched schwab_matched
    schwab_unmatched wb out n d rec :
  run token_set_ratio adv_matched adv_unmatched schwab_matched schwab_unmatched
  = Ok wb →
  match_unmatched_decisions token_set_ratio 80 adv_unmatched schwab_unmatched
  = Ok out →
  out !! n = Some (d, rec) →
  ∃ sw_row m,
    rows schwab_unmatched !! n = Some sw_row
    ∧ m !! "Matched_or_not" = Some (Str (decision_kind d))
    ∧ m !! "Match_Score" = Some (Num (decision_score d))
    ∧ (∀ c, public_name c = true →
         (isna (contact_cell adv_unmatched d c) = true
          ∧ isna (row_get m ("adv_" +:+ c) PyNone) = true)
         ∨ (notna (contact_cell adv_unmatched d c) = true
            ∧ m !! ("adv_" +:+ c) = Some (contact_cell adv_unmatched d c)))
    ∧ rows (unmatched_sheet wb) !! n
      = Some (<["Email_Domain" :=
                  if has_col schwab_unmatched "Email_Domain"
                  then row_get sw_row "Email_Domain" NaN else PyNone]>
                (reattach (safe_get_adv_record_id_column adv_unmatched) (Some m)
                   (<["adv_Record_ID" := PyNone]>
                      (<["adv_Email_" := PyNone]>
                         (<["Match_Score" := Num 0]>
                            (<["Matched_or_not" := Str "unmatched"]> sw_row)))))).
Proof.
  intros (logs & result & Hrun & -> & _)%run_inv Hout Hn.
  destruct (fuzzy_result_rows _ _ _ _ _ _ Hrun) as (out' & Hout' & Hlen & _).
  rewrite Hout in Hout'. injection Hout' as <-.
  assert (is_Some (rows schwab_unmatched !! n)) as [sw_row Hrow].
  { apply lookup_lt_is_Some. rewrite <- Hlen. by eapply lookup_lt_Some. }
  destruct (result_row _ _ _ _ _ _ _ Hrun Hout n d rec Hn)
    as (m & Hm & _ & Hkind & Hscore & Hadv).
  destruct (loc_schwab_index_row _ _ _ _ _ _ _ Hrun Hout n d rec Hn)
    as (m' & Hm' & Hloc).
  rewrite Hm in Hm'. injection Hm' as <-.
  exists sw_row, m. split_and!; try done.
  apply final_unmatched_row; [done| |done].
  by apply (result_has_index _ _ _ _ _ _ _ Hrun Hout n d rec).
Qed.

(** X20. The sheet [unmatched] that [run] writes has one row per row of the
    Schwab sheet, in the same order, and each keeps the values of its Schwab
    row under every column but the four match columns; [Email_Domain] is that
    of the Schwab row, or [None] when the sheet has no such column. *)
Theorem unmatched_sheet_keeps_rows token_set_ratio adv_matched adv_unmatched
    schwab_matched schwab_unmatched wb :
  run token_set_ratio adv_matched adv_unmatched schwab_matched schwab_unmatched
  = Ok wb →
  length (rows (unmatched_sheet wb)) = length (rows schwab_unmatched)
  ∧ ∀ n sw_row, rows schwab_unmatched !! n = Some sw_row →
      ∃ r, rows (unmatched_sheet wb) !! n = Some r
           ∧ (∀ c, c ∉ annotation_columns → c ≠ "Email_Domain" →
                   r !! c = sw_row !! c)
           ∧ r !! "Email_Domain"
             = Some (if has_col schwab_unmatched "Email_Domain"
                     then row_get sw_row "Email_Domain" NaN else PyNone).
Proof.
  intros Hwb. split.
  { apply run_inv in Hwb as (logs & result & _ & -> & _).
    apply final_unmatched_length. }
  intros n sw_row Hrow.
  destruct (run_inv _ _ _ _ _ _ Hwb) as (logs & result & Hrun & _ & _).
  destruct (fuzzy_result_rows _ _ _ _ _ _ Hrun) as (out & Hout & Hlen & _).
  assert (is_Some (out !! n)) as [[d rec] Hn].
  { apply lookup_lt_is_Some. rewrite Hlen. by eapply lookup_lt_Some. }
  destruct (run_sheet_row _ _ _ _ _ _ _ _ _ _ Hwb Hout Hn)
    as (sw_row' & m & Hrow' & _ & _ & _ & Hsheet).
  rewrite Hrow in Hrow'. injection Hrow' as <-.
  eexists. split; [exact Hsheet|]. split.
  - intros c Hc Hdom. rewrite lookup_insert_ne by done.
    rewrite reattach_other by done.
    apply not_annotation_column in Hc as (H1 & H2 & H3 & H4).
    by rewrite !lookup_insert_ne.
  - by rewrite lookup_insert_eq.
Qed.

Lemma unmatched_sheet_keeps_rows_witness :
  ∃ wb, run exact_ratio example_contacts example_contacts example_schwab
          example_schwab = Ok wb
        ∧ length (rows (unmatched_sheet wb)) = 3%nat.
Proof.
  destruct (run_total exact_ratio example_contacts example_contacts example_schwab
              example_schwab eq_refl eq_refl eq_refl) as [wb Hwb].
  exists wb. split; [exact Hwb|].
  exact (proj1 (unmatched_sheet_keeps_rows exact_ratio example_contacts
                  example_contacts example_schwab example_schwab wb Hwb)).
Defined.



(** X22. Whatever the sheets, [adv_Record_ID] of a row of the sheet
    [unmatched] is [None] or text, never a number. *)
Theorem unmatched_sheet_record_id_is_text token_set_ratio adv_matched adv_unmatched
    schwab_matched schwab_unmatched wb n r :
  run token_set_ratio adv_matched adv_unmatched schwab_matched schwab_unmatched
  = Ok wb →
  rows (unmatched_sheet wb) !! n = Some r →
  r !! "adv_Record_ID" = Some PyNone ∨ ∃ s, r !! "adv_Record_ID" = Some (Str s).
Proof.
  intros Hwb Hr.
  destruct (run_inv _ _ _ _ _ _ Hwb) as (logs & result & Hrun & Hsheet & _).
  destruct (fuzzy_result_rows _ _ _ _ _ _ Hrun) as (out & Hout & Hlen & _).
  assert (is_Some (out !! n)) as [[d rec] Hn].
  { apply lookup_lt_is_Some. rewrite Hlen.
    rewrite <- (final_unmatched_length adv_unmatched schwab_unmatched result).
    rewrite <- Hsheet. by eapply lookup_lt_Some. }
  destruct (run_sheet_row _ _ _ _ _ _ _ _ _ _ Hwb Hout Hn)
    as (sw_row & m & _ & _ & _ & _ & Hrow).
  rewrite Hrow in Hr. apply (inj Some) in Hr as <-.
  rewrite lookup_insert_ne by done.
  rewrite reattach_record_id by (by rewrite lookup_insert_eq).
  destruct (safe_get_adv_record_id_column adv_unmatched) as [c|]; [|by left].
  destruct (run_record_id_text_cases (row_get m ("adv_" +:+ c) PyNone))
    as [->|[s ->]]; eauto.
Qed.

Lemma unmatched_sheet_record_id_is_text_witness :
  ∃ wb r,
    run exact_ratio example_contacts example_contacts example_schwab example_schwab
    = Ok wb
    ∧ rows (unmatched_sheet wb) !! 0%nat = Some r
    ∧ (r !! "adv_Record_ID" = Some PyNone
       ∨ ∃ s, r !! "adv_Record_ID" = Some (Str s)).
Proof.
  destruct (run_total exact_ratio example_contacts example_contacts example_schwab
              example_schwab eq_refl eq_refl eq_refl) as [wb Hwb].
  assert (is_Some (rows (unmatched_sheet wb) !! 0%nat)) as [r Hr].
  { apply lookup_lt_is_Some.
    destruct (run_inv _ _ _ _ _ _ Hwb) as (logs & result & _ & -> & _).
    rewrite final_unmatched_length. simpl. lia. }
  exists wb, r. split; [exact Hwb|]. split; [exact Hr|].
  exact (unmatched_sheet_record_id_is_text exact_ratio example_contacts
           example_contacts example_schwab example_schwab wb 0 r Hwb Hr).
Defined.

(** X23. [run] writes no workbook when the sheet of the unmatched contacts
    has no [Email_] column and a Schwab row carries an address with a
    domain: the [KeyError] of the second matcher ends the run, although the
    first matcher had returned its sheet. *)
Theorem run_aborts_without_email_column token_set_ratio adv_matched adv_unmatched
    schwab_matched schwab_unmatched n sw_row :
  has_col adv_unmatched adv_email_col = false →
  rows schwab_unmatched !! n = Some sw_row →
  sw_email_domain sw_row ≠ "" →
  ∃ col, col ∈ [adv_email_col; adv_first_col; adv_last_col]
         ∧ run token_set_ratio adv_matched adv_unmatched schwab_matched
             schwab_unmatched
           = Raise (KeyError col).
Proof.
  intros Hno Hn Hdom.
  destruct (match_rows_raises token_set_ratio 80 adv_unmatched 0
              (init_used adv_unmatched) (with_email_norm schwab_unmatched) n _ Hno
              (with_email_norm_value schwab_unmatched n sw_row Hn))
    as (col & Hcol & Hraise).
  { by rewrite sw_email_domain_with_norm. }
  exists col. split; [done|].
  unfold run, match_unmatched_by_email_then_fuzzy, match_unmatched_decisions, bind.
  rewrite Hraise.
  by destruct (match_contacts_by_crd_and_email adv_matched schwab_matched).
Qed.

Lemma run_aborts_without_email_column_witness :
  ∃ col, col ∈ [adv_email_col; adv_first_col; adv_last_col]
         ∧ run exact_ratio example_contacts example_contacts_no_crd example_schwab
             example_schwab
           = Raise (KeyError col).
Proof.
  apply (run_aborts_without_email_column exact_ratio example_contacts
           example_contacts_no_crd example_schwab example_schwab 1
           (mkrow [("Email_Address", Str "a@x.com"); ("First_Name_", Str "Ann");
                   ("Last_Name_", Str "Lee"); ("Business_Name", Str "Acme");
                   ("Matched_CRD", NaN)])).
  - by vm_compute.
  - reflexivity.
  - by vm_compute.
Defined.

(** X24. The two sheets read the record id from the same contact column,
    except that only the sheet [unmatched] falls back on a column named
    [id]. *)
Theorem record_id_column_of_sheets (df : DataFrame) :
  safe_get_adv_record_id_column df
  = match find_col id_candidates df with
    | Some c => Some c
    | None => if has_col df "id" then Some "id" else None
    end.
Proof.
  unfold safe_get_adv_record_id_column, find_col, id_candidates, adv_id_col_hint.
  cbn [List.find].
  destruct (has_col df "Record_ID"); [done|].
  destruct (has_col df "RecordID"); [done|].
  destruct (has_col df "Record Id"); [done|].
  destruct (has_col df "ID"); [done|].
  by destruct (has_col df "id").
Qed.

End RunTheorems.

(* ===================================================================== *)
(** * Rows in, rows out                                                   *)
(* ===================================================================== *)

Section RowsInRowsOut.

(** X25. [match_contacts_by_crd_and_email] returns one row per row of the
    Schwab table, in the same order, and row [n] keeps every value of Schwab
    row [n] under the columns of the table, the four match columns and the
    helper column [_email_norm] apart. *)
Theorem crd_returns_every_row adv sw :
  length (rows (match_contacts_by_crd_and_email adv sw).2) = length (rows sw)
  ∧ ∀ n sw_row, rows sw !! n = Some sw_row →
      ∃ r, rows (match_contacts_by_crd_and_email adv sw).2 !! n = Some r
           ∧ ∀ c v, c ∈ columns sw → c ∉ annotation_columns → c ≠ "_email_norm" →
                    sw_row !! c = Some v → r !! c = Some v.
Proof. exact (crd_rows_preserved adv sw). Qed.

(** X26. When the Schwab table has no [Matched_CRD] column, every row that
    [match_contacts_by_crd_and_email] returns is ['unmatched'] with score 0
    and no contact value, whatever the contact table holds. *)
Theorem schwab_without_crd_all_unmatched adv sw n r :
  has_col sw "Matched_CRD" = false →
  rows (match_contacts_by_crd_and_email adv sw).2 !! n = Some r →
  r !! "Matched_or_not" = Some (Str "unmatched")
  ∧ r !! "Match_Score" = Some (Num 0)
  ∧ r !! "adv_Email_" = Some PyNone
  ∧ r !! "adv_Record_ID" = Some PyNone.
Proof. apply no_schwab_crd_all_unmatched. Qed.

Lemma schwab_without_crd_all_unmatched_witness :
  ∃ r, rows (match_contacts_by_crd_and_email example_contacts
               example_schwab_no_crd).2 !! 0%nat = Some r
       ∧ r !! "Matched_or_not" = Some (Str "unmatched").
Proof.
  destruct (crd_rows_preserved example_contacts example_schwab_no_crd) as [_ Hrows].
  destruct (Hrows 0%nat _ eq_refl) as (r & Hr & _).
  exists r. split; [exact Hr|].
  exact (proj1 (schwab_without_crd_all_unmatched example_contacts
                  example_schwab_no_crd 0 r eq_refl Hr)).
Defined.

(** X27. Whenever [match_unmatched_by_email_then_fuzzy] returns (on some
    tables it raises [KeyError] instead), the frame has one row per row of
    the Schwab table, in the same order: row [n] holds [n] under
    [schwab__index] and every value of Schwab row [n] under [schwab_] plus
    the column name, [None] having become [NaN] where pandas makes the column
    a numeric one. *)
Theorem returned_rows_match_input token_set_ratio threshold adv sw logs result :
  match_unmatched_by_email_then_fuzzy token_set_ratio threshold adv sw
  = Ok (logs, result) →
  length result = length (rows sw)
  ∧ ∀ n sw_row, rows sw !! n = Some sw_row →
      ∃ r, result !! n = Some r
           ∧ r !! "schwab__index" = Some (Num (Z.of_nat n))
           ∧ ∀ c v, sw_row !! c = Some v → c ≠ "_email_norm" → c ≠ "_index" →
                    ∃ v', r !! ("schwab_" +:+ c) = Some v' ∧ inferred v v'.
Proof.
  intros Hrun.
  destruct (fuzzy_result_rows _ _ _ _ _ _ Hrun) as (out & Hout & Hlen & Hres).
  split.
  { rewrite Hres, attach_domain_length;
      by rewrite frame_of_records_length, length_fmap. }
  intros n sw_row Hn.
  assert (is_Some (out !! n)) as [[d r0] Hr0].
  { apply lookup_lt_is_Some. rewrite Hlen. by eapply lookup_lt_Some. }
  destruct (emitted_rows_keep_fields _ _ _ _ _ _ _ _ _ _ Hrun Hout Hr0)
    as (r & Hr & Hcells).
  destruct (decisions_records _ _ _ _ _ _ _ _ Hout Hr0)
    as (sw_row' & _ & _ & Hrow & _ & ->).
  rewrite (with_email_norm_value sw n sw_row Hn) in Hrow. injection Hrow as <-.
  exists r. split; [done|]. split.
  - destruct (Hcells _ _ (rec_of_index adv n _ d)) as (v' & -> & Hv).
    by rewrite (inferred_num _ _ Hv).
  - intros c v Hv Hc1 Hc2. apply Hcells.
    apply rec_of_schwab; [|done]. by rewrite lookup_insert_ne.
Qed.

Lemma returned_rows_match_input_witness :
  ∃ logs result,
    match_unmatched_by_email_then_fuzzy exact_ratio 80 example_contacts example_schwab
    = Ok (logs, result)
    ∧ length result = 3%nat.
Proof.
  destruct (match_unmatched_decisions_total exact_ratio 80 example_contacts
              example_schwab eq_refl eq_refl eq_refl) as [out Hout].
  assert (match_unmatched_by_email_then_fuzzy exact_ratio 80 example_contacts
            example_schwab
          = Ok ([InfoFuzzyCompleted
                   (length (attach_domain example_schwab (frame_of_records out.*2)))],
                attach_domain example_schwab (frame_of_records out.*2))) as Hrun.
  { unfold match_unmatched_by_email_then_fuzzy, bind. by rewrite Hout. }
  eexists _, _. split; [exact Hrun|].
  exact (proj1 (returned_rows_match_input exact_ratio 80 example_contacts
                  example_schwab _ _ Hrun)).
Defined.

(** X28. [match_contacts_by_crd_and_email] consumes no contact: two Schwab
    rows with the same [Matched_CRD] cell get the same four match columns,
    hence the same contact row when there is one. *)
Theorem crd_contact_is_shared adv sw n n' sw_row sw_row' r r' :
  rows sw !! n = Some sw_row →
  rows sw !! n' = Some sw_row' →
  sw_row !! "Matched_CRD" = sw_row' !! "Matched_CRD" →
  rows (match_contacts_by_crd_and_email adv sw).2 !! n = Some r →
  rows (match_contacts_by_crd_and_email adv sw).2 !! n' = Some r' →
  r !! "Matched_or_not" = r' !! "Matched_or_not"
  ∧ r !! "Match_Score" = r' !! "Match_Score"
  ∧ r !! "adv_Email_" = r' !! "adv_Email_"
  ∧ r !! "adv_Record_ID" = r' !! "adv_Record_ID".
Proof.
  intros Hn Hn' Hcrd Hr Hr'.
  destruct (find_col crd_candidates adv) as [crd_col|] eqn:Hcol.
  - destruct (crd_result_row adv sw crd_col n sw_row r Hcol Hn Hr)
      as (a & Ha & -> & -> & -> & ->).
    destruct (crd_result_row adv sw crd_col n' sw_row' r' Hcol Hn' Hr')
      as (a' & Ha' & -> & -> & -> & ->).
    assert (a = a') as ->; [|done].
    rewrite Ha, Ha'. destruct (has_col sw "Matched_CRD"); [|done].
    by apply crd_annotation_ext.
  - revert Hr Hr'. unfold match_contacts_by_crd_and_email. rewrite Hcol. simpl.
    rewrite !list_lookup_fmap, Hn, Hn'. simpl. intros [= <-] [= <-].
    split_and!; rewrite ?lookup_insert_eq; rewrite ?lookup_insert_ne by done;
      rewrite ?lookup_insert_eq; rewrite ?lookup_insert_ne by done;
      by rewrite ?lookup_insert_eq.
Qed.

Lemma crd_contact_is_shared_witness :
  ∃ r r',
    rows (match_contacts_by_crd_and_email example_contacts
            example_schwab_same_crd).2 !! 0%nat = Some r
    ∧ rows (match_contacts_by_crd_and_email example_contacts
              example_schwab_same_crd).2 !! 1%nat = Some r'
    ∧ r !! "adv_Record_ID" = r' !! "adv_Record_ID".
Proof.
  destruct (crd_rows_preserved example_contacts example_schwab_same_crd)
    as [_ Hrows].
  destruct (Hrows 0%nat _ eq_refl) as (r & Hr & _).
  destruct (Hrows 1%nat _ eq_refl) as (r' & Hr' & _).
  exists r, r'. split; [exact Hr|]. split; [exact Hr'|].
  assert (rows example_schwab_same_crd !! 0%nat
          = Some (default ∅ (rows example_schwab_same_crd !! 0%nat))) as Hn
    by reflexivity.
  assert (rows example_schwab_same_crd !! 1%nat
          = Some (default ∅ (rows example_schwab_same_crd !! 1%nat))) as Hn'
    by reflexivity.
  destruct (crd_contact_is_shared example_contacts example_schwab_same_crd 0 1
              _ _ r r' Hn Hn' eq_refl Hr Hr') as (_ & _ & _ & Hid).
  exact Hid.
Defined.

End RowsInRowsOut.
